(** * getgo: a verification development for the download-extract-install tool

    The development embeds [main.go] of the [getgo] tool: the path helper
    [expandPath], the progress-tracking reader, the two archive extractors,
    the environment-file editors and the install pipeline of [main].
    The operating system (file system, clock, network, current user) is an
    explicit world that the embedded functions read and update. *)

From Stdlib Require Import ZArith List String Ascii Bool Lia QArith Qround Qpower Lqa.
From Stdlib Require Import DecimalString Sorted.
Import ListNotations.

Local Open Scope string_scope.
Local Open Scope Z_scope.

Set Implicit Arguments.

(** ** Results of fallible calls: Go's [(value, error)] pairs *)

Inductive result (A : Type) : Type :=
| Ok (a : A)
| Err (msg : string).
Arguments Ok {A} a.
Arguments Err {A} msg.

(** ** The string functions of package [strings] used by the tool *)

Module Strings.

Fixpoint HasPrefix (s pre : string) {struct pre} : bool :=
  match pre, s with
  | EmptyString, _ => true
  | String _ _, EmptyString => false
  | String a pre', String b s' => Ascii.eqb a b && HasPrefix s' pre'
  end.

Fixpoint HasSuffix (s suf : string) : bool :=
  if String.eqb s suf then true
  else match s with
       | EmptyString => false
       | String _ r => HasSuffix r suf
       end.

Fixpoint Contains (s sub : string) : bool :=
  if HasPrefix s sub then true
  else match s with
       | EmptyString => false
       | String _ r => Contains r sub
       end.

Fixpoint drop (n : nat) (s : string) : string :=
  match n, s with
  | O, _ => s
  | S _, EmptyString => EmptyString
  | S k, String _ r => drop k r
  end.

Fixpoint Repeat (s : string) (n : nat) : string :=
  match n with
  | O => EmptyString
  | S k => s ++ Repeat s k
  end.

Definition TrimPrefix (s pre : string) : string :=
  if HasPrefix s pre then drop (String.length pre) s else s.

Fixpoint split (sep : ascii) (s : string) : list string :=
  match s with
  | EmptyString => [EmptyString]
  | String c r =>
      if Ascii.eqb c sep then EmptyString :: split sep r
      else match split sep r with
           | [] => [String c EmptyString]
           | x :: xs => String c x :: xs
           end
  end.

Definition Join (elems : list string) (sep : string) : string :=
  String.concat sep elems.

End Strings.

(** ** Package [path/filepath] on a Unix target

    [Clean] follows the element-wise rules of the package: empty and [.]
    elements vanish, an inner [..] removes the element before it, a [..] at
    the root of a rooted path vanishes, and leading [..] elements of a
    relative path are kept. *)

Module Filepath.

Definition Separator : ascii := "/"%char.

Definition IsAbs (path : string) : bool := Strings.HasPrefix path "/".

Fixpoint clean_elems (rooted : bool) (stack : list string) (es : list string)
  : list string :=
  match es with
  | [] => rev stack
  | e :: es' =>
      if String.eqb e "" || String.eqb e "." then clean_elems rooted stack es'
      else if String.eqb e ".." then
        match stack with
        | top :: rest =>
            if String.eqb top ".." then clean_elems rooted (".." :: stack) es'
            else clean_elems rooted rest es'
        | [] =>
            if rooted then clean_elems rooted [] es'
            else clean_elems rooted [".."] es'
        end
      else clean_elems rooted (e :: stack) es'
  end.

Definition Clean (path : string) : string :=
  if String.eqb path "" then "."
  else
    let rooted := IsAbs path in
    let es := clean_elems rooted [] (Strings.split Separator path) in
    if rooted then "/" ++ Strings.Join es "/"
    else match es with
         | [] => "."
         | _ => Strings.Join es "/"
         end.

Fixpoint drop_empty (elems : list string) : list string :=
  match elems with
  | [] => []
  | e :: rest => if String.eqb e "" then drop_empty rest else elems
  end.

Definition Join (elems : list string) : string :=
  match drop_empty elems with
  | [] => ""
  | rest => Clean (Strings.Join rest "/")
  end.

Fixpoint has_sep (s : string) : bool :=
  match s with
  | EmptyString => false
  | String c r => Ascii.eqb c Separator || has_sep r
  end.

(** [path[:i+1]] where [i] is the index of the last separator. *)
Fixpoint through_last_sep (s : string) : string :=
  match s with
  | EmptyString => EmptyString
  | String c r =>
      if has_sep r then String c (through_last_sep r)
      else if Ascii.eqb c Separator then String c EmptyString
      else EmptyString
  end.

Definition Dir (path : string) : string := Clean (through_last_sep path).

(** The elements of the cleaned path: the names walked from the root. *)
Definition elements (path : string) : list string :=
  clean_elems true [] (Strings.split Separator path).

End Filepath.

(** ** The process environment read by [expandPath] *)

Record User := { HomeDir : string }.

Record PathEnv := {
  user_Current : result User;   (* os/user.Current() *)
  os_Getwd : result string      (* os.Getwd() *)
}.

Definition filepath_Abs (e : PathEnv) (path : string) : result string :=
  if Filepath.IsAbs path then Ok (Filepath.Clean path)
  else match os_Getwd e with
       | Err m => Err m
       | Ok wd => Ok (Filepath.Join [wd; path])
       end.

(** [expandPath] (main.go, lines 687-713). *)
Definition expandPath (e : PathEnv) (path : string) : result string :=
  let expanded :=
    if String.eqb path "~" || Strings.HasPrefix path "~/" then
      match user_Current e with
      | Err m => Err ("error getting current user: " ++ m)
      | Ok usr =>
          if String.eqb path "~" then Ok (HomeDir usr)
          else Ok (Filepath.Join [HomeDir usr; Strings.drop 2 path])
      end
    else Ok path in
  match expanded with
  | Err m => Err m
  | Ok path =>
      if negb (Filepath.IsAbs path) then
        match filepath_Abs e path with
        | Err m => Err ("error resolving absolute path: " ++ m)
        | Ok absPath => Ok absPath
        end
      else Ok path
  end.

Definition demoPathEnv : PathEnv :=
  {| user_Current := Ok {| HomeDir := "/home/gopher" |};
     os_Getwd := Ok "/work/dir" |}.


(** ** IEEE-754 binary64 arithmetic, as used by Go's [float64]

    A finite value is kept as the rational it denotes.  Every operation
    computes the exact rational result and rounds it to the nearest
    representable value, ties to even: 53 significant bits, least exponent
    -1074, overflow to infinity at 2^1024.  The sign of zero is not kept. *)

Module Float64.

Local Open Scope Q_scope.

Inductive t : Type :=
| NaN
| Inf (neg : bool)
| Fin (v : Q).

Definition two_pow (e : Z) : Q := Qpower 2 e.

(** For [x > 0]: the exponent [e] of the unit in the last place,
    [2^(52+e) <= x < 2^(53+e)], never below the subnormal exponent. *)
Definition normal_exp (x : Q) : Z :=
  let d := (Z.log2 (Qnum x) - Z.log2 (Zpos (Qden x)))%Z in
  if Qle_bool (two_pow d) x then (d - 52)%Z else (d - 53)%Z.

Definition ulp_exp (x : Q) : Z := Z.max (normal_exp x) (-1074).

Definition Qlt_bool (a b : Q) : bool := negb (Qle_bool b a).

(** Round to nearest, ties to even, of a positive rational. *)
Definition round_pos (x : Q) : Q :=
  let e := ulp_exp x in
  let s := x / two_pow e in
  let m := Qfloor s in
  let f := s - inject_Z m in
  let up := Qlt_bool (1 # 2) f || (Qeq_bool f (1 # 2) && Z.odd m) in
  inject_Z (if up then m + 1 else m)%Z * two_pow e.

Definition overflow_threshold : Q := two_pow 1024.

Definition round (x : Q) : t :=
  if Qeq_bool x 0 then Fin 0
  else if Qlt_bool 0 x then
    let r := round_pos x in
    if Qle_bool overflow_threshold r then Inf false else Fin r
  else
    let r := round_pos (- x) in
    if Qle_bool overflow_threshold r then Inf true else Fin (- r).

(** [float64(z)] for an integer [z]. *)
Definition of_int (z : Z) : t := round (inject_Z z).

Definition is_neg (x : Q) : bool := Qlt_bool x 0.

(** [a / b]. *)
Definition div (a b : t) : t :=
  match a, b with
  | NaN, _ | _, NaN => NaN
  | Inf _, Inf _ => NaN
  | Inf n, Fin y => Inf (xorb n (is_neg y))
  | Fin _, Inf _ => Fin 0
  | Fin x, Fin y =>
      if Qeq_bool y 0 then
        if Qeq_bool x 0 then NaN else Inf (is_neg x)
      else round (x / y)
  end.

(** [a * b]. *)
Definition mul (a b : t) : t :=
  match a, b with
  | NaN, _ | _, NaN => NaN
  | Inf n, Inf n' => Inf (xorb n n')
  | Inf n, Fin y => if Qeq_bool y 0 then NaN else Inf (xorb n (is_neg y))
  | Fin x, Inf n => if Qeq_bool x 0 then NaN else Inf (xorb (is_neg x) n)
  | Fin x, Fin y => round (x * y)
  end.

(** What the target machine yields when a [float64] that no [int] can
    hold is converted: the language leaves the value to the
    implementation. *)
Record Conversion := {
  conv_nan : Z;
  conv_too_large : Z;
  conv_too_small : Z
}.

Definition MinInt64 : Z := (- 2 ^ 63)%Z.
Definition MaxInt64 : Z := (2 ^ 63 - 1)%Z.

(** amd64: the "integer indefinite" value in each case. *)
Definition amd64 : Conversion :=
  {| conv_nan := MinInt64; conv_too_large := MinInt64; conv_too_small := MinInt64 |}.

(** arm64: saturation, and zero for a NaN. *)
Definition arm64 : Conversion :=
  {| conv_nan := 0%Z; conv_too_large := MaxInt64; conv_too_small := MinInt64 |}.

(** Truncation toward zero. *)
Definition truncate (x : Q) : Z :=
  if Qle_bool 0 x then Qfloor x else (- Qfloor (- x))%Z.

(** [int(a)] on a 64-bit target. *)
Definition to_int (c : Conversion) (a : t) : Z :=
  match a with
  | NaN => conv_nan c
  | Inf false => conv_too_large c
  | Inf true => conv_too_small c
  | Fin x =>
      let z := truncate x in
      if (MaxInt64 <? z)%Z then conv_too_large c
      else if (z <? MinInt64)%Z then conv_too_small c
      else z
  end.

(** The first power of two no [int64] reaches. *)
Definition two63 : Q := inject_Z (2 ^ 63).

End Float64.

(** ** The file system: a tree of directories and files

    A path is the list of names walked from the root.  Modes are the
    permission bits.  Symbolic links and ownership are not modelled. *)

Module FS.

#[warnings="-register-all"]
Inductive node : Type :=
| File (mode : Z) (data : string)
| Dir (mode : Z) (entries : list (string * node)).

Definition path := list string.

Fixpoint assoc (k : string) (es : list (string * node)) : option node :=
  match es with
  | [] => None
  | (k', c) :: rest => if String.eqb k k' then Some c else assoc k rest
  end.

Fixpoint set_child (k : string) (c : node) (es : list (string * node))
  : list (string * node) :=
  match es with
  | [] => [(k, c)]
  | (k', c') :: rest =>
      if String.eqb k k' then (k, c) :: rest else (k', c') :: set_child k c rest
  end.

Fixpoint remove_child (k : string) (es : list (string * node))
  : list (string * node) :=
  match es with
  | [] => []
  | (k', c') :: rest =>
      if String.eqb k k' then remove_child k rest else (k', c') :: remove_child k rest
  end.

Fixpoint lookup (p : path) (n : node) : option node :=
  match p with
  | [] => Some n
  | k :: p' =>
      match n with
      | File _ _ => None
      | Dir _ es =>
          match assoc k es with
          | Some c => lookup p' c
          | None => None
          end
      end
  end.

Definition exists_ (p : path) (n : node) : bool :=
  match lookup p n with Some _ => true | None => false end.

Fixpoint is_prefix (a b : path) : bool :=
  match a, b with
  | [], _ => true
  | _ :: _, [] => false
  | x :: a', y :: b' => String.eqb x y && is_prefix a' b'
  end.

Definition ENOENT := "no such file or directory".
Definition ENOTDIR := "not a directory".
Definition EISDIR := "is a directory".
Definition EEXIST := "file exists".
Definition ENOTEMPTY := "directory not empty".
Definition EINVAL := "invalid argument".

(** Replace what lies at [p] by what [f] makes of it ([None]: nothing
    there, or nothing left there).  The parent of [p] must be a
    directory. *)
Fixpoint update (f : option node -> result (option node)) (p : path) (n : node)
  : result node :=
  match p with
  | [] => Err EINVAL
  | k :: p' =>
      match n with
      | File _ _ => Err ENOTDIR
      | Dir m es =>
          match p' with
          | [] =>
              match f (assoc k es) with
              | Ok (Some c) => Ok (Dir m (set_child k c es))
              | Ok None => Ok (Dir m (remove_child k es))
              | Err x => Err x
              end
          | _ :: _ =>
              match assoc k es with
              | None => Err ENOENT
              | Some c =>
                  match update f p' c with
                  | Ok c' => Ok (Dir m (set_child k c' es))
                  | Err x => Err x
                  end
              end
          end
      end
  end.

(** [mkdir -p]: every missing directory on the way is made with [mode];
    a file on the way is an error and nothing is made. *)
Fixpoint mkdirAll (mode : Z) (p : path) (n : node) : result node :=
  match n with
  | File _ _ => Err ENOTDIR
  | Dir m es =>
      match p with
      | [] => Ok n
      | k :: p' =>
          let child := match assoc k es with
                       | Some c => c
                       | None => Dir mode []
                       end in
          match mkdirAll mode p' child with
          | Ok c' => Ok (Dir m (set_child k c' es))
          | Err x => Err x
          end
      end
  end.

(** Create the file at [p] with [mode], or truncate the file there. *)
Definition create (mode : Z) (p : path) (n : node) : result node :=
  update (fun o => match o with
                   | None => Ok (Some (File mode ""))
                   | Some (File m _) => Ok (Some (File m ""))
                   | Some (Dir _ _) => Err EISDIR
                   end) p n.

(** Write [data] at the end of the file at [p]. *)
Definition append (data : string) (p : path) (n : node) : result node :=
  update (fun o => match o with
                   | Some (File m d) => Ok (Some (File m (d ++ data)))
                   | Some (Dir _ _) => Err EISDIR
                   | None => Err ENOENT
                   end) p n.

Definition chmod (mode : Z) (p : path) (n : node) : result node :=
  update (fun o => match o with
                   | Some (File _ d) => Ok (Some (File mode d))
                   | Some (Dir _ es) => Ok (Some (Dir mode es))
                   | None => Err ENOENT
                   end) p n.

(** A new, empty directory at [p]; [p] must not exist. *)
Definition mkdir (mode : Z) (p : path) (n : node) : result node :=
  update (fun o => match o with
                   | None => Ok (Some (Dir mode []))
                   | Some _ => Err EEXIST
                   end) p n.

(** Remove [p] and all below it; a missing [p] is no error. *)
Fixpoint removeAll (p : path) (n : node) : result node :=
  match p with
  | [] => Err EINVAL
  | k :: p' =>
      match n with
      | File _ _ => Err ENOTDIR
      | Dir m es =>
          match p' with
          | [] => Ok (Dir m (remove_child k es))
          | _ :: _ =>
              match assoc k es with
              | None => Ok n
              | Some c =>
                  match removeAll p' c with
                  | Ok c' => Ok (Dir m (set_child k c' es))
                  | Err x => Err x
                  end
              end
          end
      end
  end.

(** Remove the file or the empty directory at [p]. *)
Definition remove (p : path) (n : node) : result node :=
  update (fun o => match o with
                   | None => Err ENOENT
                   | Some (Dir _ (_ :: _)) => Err ENOTEMPTY
                   | Some _ => Ok None
                   end) p n.

(** [rename(2)]: the whole subtree at [a] comes to lie at [b]; a file
    replaces a file, a directory replaces an empty directory. *)
Definition rename (a b : path) (n : node) : result node :=
  match lookup a n with
  | None => Err ENOENT
  | Some src =>
      if is_prefix a b then
        if is_prefix b a then Ok n else Err EINVAL
      else
        let compatible :=
          match lookup b n, src with
          | None, _ => Ok tt
          | Some (Dir _ []), Dir _ _ => Ok tt
          | Some (Dir _ (_ :: _)), Dir _ _ => Err ENOTEMPTY
          | Some (File _ _), Dir _ _ => Err ENOTDIR
          | Some (Dir _ _), File _ _ => Err EISDIR
          | Some (File _ _), File _ _ => Ok tt
          end in
        match compatible with
        | Err x => Err x
        | Ok _ =>
            match removeAll a n with
            | Err x => Err x
            | Ok n1 => update (fun _ => Ok (Some src)) b n1
            end
        end
  end.

(** Whether the walk to [p] stops at a missing name (the error of a
    [stat] is then ENOENT), and not at a file standing where a directory is
    needed (ENOTDIR). *)
Fixpoint not_exist (p : path) (n : node) : bool :=
  match p with
  | [] => false
  | k :: p' =>
      match n with
      | File _ _ => false
      | Dir _ es =>
          match assoc k es with
          | None => true
          | Some c => not_exist p' c
          end
      end
  end.

Definition readFile (p : path) (n : node) : result string :=
  match lookup p n with
  | Some (File _ d) => Ok d
  | Some (Dir _ _) => Err EISDIR
  | None => Err ENOENT
  end.

Definition is_dir (p : path) (n : node) : bool :=
  match lookup p n with Some (Dir _ _) => true | _ => false end.

Definition mode_of (p : path) (n : node) : option Z :=
  match lookup p n with
  | Some (File m _) => Some m
  | Some (Dir m _) => Some m
  | None => None
  end.

End FS.

(** ** The world of one run: file system, console, network, deferred calls *)

(** A value of Go's [error] read from a stream: [io.EOF] or a failure. *)
Inductive goerr : Type :=
| EOF
| Failure (msg : string).

(** One [Read] of an underlying stream: the bytes it returned and the two
    readings of the clock taken around it by the progress reader (the one
    inside [time.Since], the one of [time.Now]), in nanoseconds. *)
Record Chunk := {
  data : string;
  t_since : Z;
  t_now : Z
}.

(** A stream: reads that return no error, then one that returns an error
    ([io.EOF] at the regular end), and the clock when it was opened. *)
Record Body := {
  t_open : Z;
  reads : list Chunk;
  final : Chunk;
  final_err : goerr
}.

Record Response := {
  StatusCode : Z;
  reason : string;          (* the reason phrase of the status line *)
  ContentLength : Z;
  body : Body
}.

(** One entry of a tar stream. *)
Record TarEntry := {
  Name : string;
  Typeflag : ascii;
  Mode : Z;
  content : string;               (* the bytes the entry delivers *)
  content_err : option string     (* and the error that ends them, if any *)
}.

(** A tar stream: its entries, and how [Next] ends it ([None]: [io.EOF]). *)
Record TarStream := {
  tar_entries : list TarEntry;
  tar_end : option string
}.

(** One file of a zip archive's central directory. *)
Record ZipFile := {
  zName : string;
  zMode : Z;                      (* Mode(), an os.FileMode *)
  zOpen_err : option string;      (* the error of Open(), if any *)
  zContent : string;
  zContent_err : option string
}.

Record GoVersion := {
  Version : string;
  Stable : bool
}.

(** The calls on the file system that can fail for reasons outside the
    tree (permissions, a full disk, a failing device). *)
Inductive Op : Type :=
| OpMkdirAll (p : string)
| OpMkdir (p : string)
| OpCreate (p : string)
| OpOpenFile (p : string)
| OpOpen (p : string)
| OpWrite (p : string)
| OpChmod (p : string)
| OpRemoveAll (p : string)
| OpRemove (p : string)
| OpRename (a b : string)
| OpReadFile (p : string).

Inductive Event : Type :=
| EvPrint (s : string)                    (* one write to the console: its text,
                                             less the colour codes and a final newline *)
| EvHttp (method url : string)            (* a request sent *)
| EvStat (p : string)                     (* a presence check on the tree *)
| EvSys (op : Op)                         (* a call that may change the tree *)
| EvExec (cmd : string).                  (* a PowerShell command run *)

(** A call put off with [defer]. *)
Inductive Deferred : Type :=
| DeferRemoveAll (p : string).

(** What a run finds around it and cannot change. *)
Record Env := {
  GOOS : string;
  GOARCH : string;
  paths : PathEnv;
  SHELL : string;
  os_TempDir : string;
  temp_names : list string;               (* the random names MkdirTemp tries *)
  umask : Z;
  fault : Op -> bool;                     (* the calls that fail from outside *)
  http_Head : string -> result Response;
  http_Get : string -> result Response;
  json_Decode : string -> result (list GoVersion);
  targz_Reader : string -> result TarStream;
  zip_Reader : string -> result (list ZipFile);
  conversion : Float64.Conversion;
  powershell : string -> option string
}.

Record World := {
  fs : FS.node;
  trace : list Event;                     (* oldest first *)
  deferred : list Deferred                (* newest first *)
}.

Inductive Outcome (A : Type) : Type :=
| Done (a : A) (w : World)
| Exited (code : Z) (w : World).          (* os.Exit(code) *)
Arguments Done {A} a w.
Arguments Exited {A} code w.

Definition M (A : Type) : Type := World -> Outcome A.

Definition ret {A} (a : A) : M A := fun w => Done a w.

Definition bind {A B} (m : M A) (k : A -> M B) : M B :=
  fun w => match m w with
           | Done a w' => k a w'
           | Exited c w' => Exited c w'
           end.

Declare Scope go_scope.
Delimit Scope go_scope with go.
Notation "x <- m ;; k" := (bind m (fun x => k))
  (at level 61, m at next level, right associativity) : go_scope.
Notation "m ;; k" := (bind m (fun _ => k))
  (at level 61, right associativity) : go_scope.
Local Open Scope go_scope.

Definition os_Exit {A} (code : Z) : M A := fun w => Exited code w.

Definition emit (ev : Event) : M unit :=
  fun w => Done tt {| fs := fs w; trace := trace w ++ [ev]; deferred := deferred w |}.

Definition print (s : string) : M unit := emit (EvPrint s).

Definition defer_ (d : Deferred) : M unit :=
  fun w => Done tt {| fs := fs w; trace := trace w; deferred := d :: deferred w |}.

Definition get_fs : M FS.node := fun w => Done (fs w) w.

Definition put_fs (n : FS.node) : M unit :=
  fun w => Done tt {| fs := n; trace := trace w; deferred := deferred w |}.

(** ** Package [os]: calls on the tree

    A call logs itself, fails if the environment says so, and otherwise
    acts on the tree.  Its error, if any, carries the call and the path
    the way a [*PathError] prints. *)

Definition path_error (op p reason_ : string) : string :=
  op ++ " " ++ p ++ ": " ++ reason_.

Definition EIO := "input/output error".

Section WithEnv.

Variable e : Env.

Definition sys (op : Op) (name p : string) (f : FS.node -> result FS.node)
  : M (option string) :=
  emit (EvSys op) ;;
  if fault e op then ret (Some (path_error name p EIO))
  else
    n <- get_fs ;;
    match f n with
    | Ok n' => put_fs n' ;; ret None
    | Err x => ret (Some (path_error name p x))
    end.

(** Permission bits a new file or directory gets. *)
Definition masked (perm : Z) : Z := Z.land perm (Z.lnot (umask e)).

(** [os.Stat(p)]: [true] when the returned error is nil. *)
Definition os_Stat (p : string) : M bool :=
  emit (EvStat p) ;;
  n <- get_fs ;; ret (FS.exists_ (Filepath.elements p) n).

(** [os.Stat(p)]: [true] when the error is nil and [IsDir()] holds. *)
Definition os_Stat_IsDir (p : string) : M bool :=
  emit (EvStat p) ;;
  n <- get_fs ;; ret (FS.is_dir (Filepath.elements p) n).

(** [os.Stat(p)]: [true] when [os.IsNotExist] holds of the error. *)
Definition os_Stat_IsNotExist (p : string) : M bool :=
  emit (EvStat p) ;;
  n <- get_fs ;; ret (FS.not_exist (Filepath.elements p) n).

Definition os_MkdirAll (p : string) (perm : Z) : M (option string) :=
  sys (OpMkdirAll p) "mkdir" p (FS.mkdirAll (masked perm) (Filepath.elements p)).

(** [os.Create(p)]: [OpenFile(p, O_RDWR|O_CREATE|O_TRUNC, 0666)]. *)
Definition os_Create (p : string) : M (option string) :=
  sys (OpCreate p) "open" p (FS.create (masked 438) (Filepath.elements p)).

(** [os.OpenFile(p, O_WRONLY|O_CREATE|O_TRUNC, perm)]. *)
Definition os_OpenFile_create_trunc (p : string) (perm : Z) : M (option string) :=
  sys (OpOpenFile p) "open" p (FS.create (masked perm) (Filepath.elements p)).

(** [os.OpenFile(p, O_APPEND|O_WRONLY, perm)]: the file must exist. *)
Definition os_OpenFile_append (p : string) : M (option string) :=
  sys (OpOpenFile p) "open" p (FS.append "" (Filepath.elements p)).

(** [os.OpenFile(p, O_CREATE|O_WRONLY, perm)] on a path that holds no
    file yet: the file is made, empty. *)
Definition os_OpenFile_create (p : string) (perm : Z) : M (option string) :=
  sys (OpOpenFile p) "open" p
    (FS.update (fun o => match o with
                         | None => Ok (Some (FS.File (masked perm) ""))
                         | Some (FS.File m d) => Ok (Some (FS.File m d))
                         | Some (FS.Dir _ _) => Err FS.EISDIR
                         end) (Filepath.elements p)).

(** [f.Write] / [f.WriteString] on a file open at its end. *)
Definition file_Write (p : string) (s : string) : M (option string) :=
  sys (OpWrite p) "write" p (FS.append s (Filepath.elements p)).

Definition os_Chmod (p : string) (mode : Z) : M (option string) :=
  sys (OpChmod p) "chmod" p (FS.chmod mode (Filepath.elements p)).

Definition os_RemoveAll (p : string) : M (option string) :=
  sys (OpRemoveAll p) "unlinkat" p (FS.removeAll (Filepath.elements p)).

Definition os_Remove (p : string) : M (option string) :=
  sys (OpRemove p) "remove" p (FS.remove (Filepath.elements p)).

Definition os_Rename (a b : string) : M (option string) :=
  sys (OpRename a b) "rename" (a ++ " " ++ b)
    (FS.rename (Filepath.elements a) (Filepath.elements b)).

Definition os_ReadFile (p : string) : M (result string) :=
  emit (EvSys (OpReadFile p)) ;;
  if fault e (OpReadFile p) then ret (Err (path_error "open" p EIO))
  else
    n <- get_fs ;;
    match FS.readFile (Filepath.elements p) n with
    | Ok d => ret (Ok d)
    | Err x => ret (Err (path_error "open" p x))
    end.

(** [os.Open(p)] followed by reading the whole file. *)
Definition os_Open (p : string) : M (result string) :=
  emit (EvSys (OpOpen p)) ;;
  if fault e (OpOpen p) then ret (Err (path_error "open" p EIO))
  else
    n <- get_fs ;;
    match FS.readFile (Filepath.elements p) n with
    | Ok d => ret (Ok d)
    | Err x => ret (Err (path_error "open" p x))
    end.

(** [os.MkdirTemp("", pattern)]: a new directory [TempDir/pattern<random>]
    with mode 0700; a name that exists already is passed over. *)
Fixpoint mkdirTemp_try (pattern : string) (names : list string)
  : M (result string) :=
  match names with
  | [] => ret (Err (path_error "mkdir" (os_TempDir e ++ "/" ++ pattern) FS.EEXIST))
  | r :: rest =>
      let name := os_TempDir e ++ "/" ++ pattern ++ r in
      emit (EvSys (OpMkdir name)) ;;
      if fault e (OpMkdir name) then ret (Err (path_error "mkdir" name EIO))
      else
        n <- get_fs ;;
        match FS.mkdir (masked 448) (Filepath.elements name) n with
        | Ok n' => put_fs n' ;; ret (Ok name)
        | Err x =>
            if String.eqb x FS.EEXIST then mkdirTemp_try pattern rest
            else ret (Err (path_error "mkdir" name x))
        end
  end.

Definition os_MkdirTemp (pattern : string) : M (result string) :=
  mkdirTemp_try pattern (temp_names e).

End WithEnv.

(** ** Formatting *)

Definition nl : string := String (ascii_of_nat 10) EmptyString.
Definition cr : string := String (ascii_of_nat 13) EmptyString.
Definition dq : string := String (ascii_of_nat 34) EmptyString.
Definition tab : string := String (ascii_of_nat 9) EmptyString.

(** [%d]. *)
Definition itoa (z : Z) : string := NilZero.string_of_int (Z.to_int z).

(** [%3d]: at least three characters, padded with spaces on the left. *)
Definition pad3 (s : string) : string :=
  Strings.Repeat " " (3 - String.length s) ++ s.

(** ** The progress-tracking reader (main.go, lines 28-100) *)

Record progressReader := {
  totalBytes : Z;
  readBytes : Z;
  lastPercentage : Z;
  lastUpdateTime : Z
}.

Definition newProgressReader (total now : Z) : progressReader :=
  {| totalBytes := total; readBytes := 0; lastPercentage := 0; lastUpdateTime := now |}.

(** Addition on [int64]. *)
Definition wrap64 (z : Z) : Z := (z + 2 ^ 63) mod 2 ^ 64 - 2 ^ 63.

Definition Millisecond : Z := 1000000.

(** [renderProgressBar] (lines 70-100). *)
Definition renderProgressBar (percentage : Z) : string :=
  let percentage :=
    if percentage <? 0 then 0
    else if 100 <? percentage then 100
    else percentage in
  let width := 50 in
  let completed := Z.quot (width * percentage) 100 in
  cr ++ "Downloading: ["
     ++ Strings.Repeat "=" (Z.to_nat completed)
     ++ (if completed <? width then Strings.Repeat " " (Z.to_nat (width - completed))
         else "")
     ++ "] "
     ++ pad3 (itoa percentage) ++ "%".

(** [int(float64(readBytes) / float64(totalBytes) * 100)] (line 51). *)
Definition percentage_of (c : Float64.Conversion) (read total : Z) : Z :=
  Float64.to_int c
    (Float64.mul (Float64.div (Float64.of_int read) (Float64.of_int total))
                 (Float64.of_int 100)).

(** [progressReader.Read] (lines 45-67) around one read of the
    underlying stream: the reader afterwards and what was printed.  The
    count and the error of the underlying read are returned as they are. *)
Definition progressReader_Read (c : Float64.Conversion) (pr : progressReader)
  (ch : Chunk) : progressReader * list string :=
  let n := Z.of_nat (String.length (data ch)) in
  let pr1 := {| totalBytes := totalBytes pr;
                readBytes := wrap64 (readBytes pr + n);
                lastPercentage := lastPercentage pr;
                lastUpdateTime := lastUpdateTime pr |} in
  if 100 * Millisecond <? t_since ch - lastUpdateTime pr1 then
    let percentage := percentage_of c (readBytes pr1) (totalBytes pr1) in
    if negb (percentage =? lastPercentage pr1) && (percentage <=? 100) then
      ({| totalBytes := totalBytes pr1;
          readBytes := readBytes pr1;
          lastPercentage := percentage;
          lastUpdateTime := t_now ch |},
       [renderProgressBar percentage])
    else (pr1, [])
  else (pr1, []).

Definition Status (r : Response) : string := itoa (StatusCode r) ++ " " ++ reason r.

Definition StatusOK : Z := 200.

Definition bad_status (r : Response) (url : string) : string :=
  "bad status: " ++ Status r ++ " (URL: " ++ url ++ ")".

Definition goerr_to_error (x : goerr) : option string :=
  match x with
  | EOF => None
  | Failure m => Some m
  end.

Section Program.

Variable e : Env.

Local Open Scope go_scope.

Fixpoint print_all (l : list string) : M unit :=
  match l with
  | [] => ret tt
  | s :: rest => print s ;; print_all rest
  end.

(** The loop of [io.Copy(out, progressR)]: each round reads through the
    progress reader, writes what was read, and stops at a write error. *)
Fixpoint copy_rounds (out : string) (pr : progressReader) (cs : list Chunk)
  : M (progressReader * option string) :=
  match cs with
  | [] => ret (pr, None)
  | ch :: rest =>
      let (pr', printed) := progressReader_Read (conversion e) pr ch in
      print_all printed ;;
      ew <- (if (0 <? Z.of_nat (String.length (data ch)))
             then file_Write e out (data ch) else ret None) ;;
      match ew with
      | Some m => ret (pr', Some m)
      | None => copy_rounds out pr' rest
      end
  end.

(** [io.Copy(out, progressR)] on a whole body. *)
Definition io_Copy_progress (out : string) (pr : progressReader) (b : Body)
  : M (option string) :=
  r <- copy_rounds out pr (reads b) ;;
  match r with
  | (_, Some m) => ret (Some m)
  | (pr', None) =>
      let (_, printed) := progressReader_Read (conversion e) pr' (final b) in
      print_all printed ;;
      ew <- (if (0 <? Z.of_nat (String.length (data (final b))))
             then file_Write e out (data (final b)) else ret None) ;;
      match ew with
      | Some m => ret (Some m)
      | None => ret (goerr_to_error (final_err b))
      end
  end.

Definition http_request (method url : string) : M (result Response) :=
  emit (EvHttp method url) ;;
  ret (if String.eqb method "HEAD" then http_Head e url else http_Get e url).

(** [downloadFileWithProgress] (lines 529-570). *)
Definition downloadFileWithProgress (url filepath : string) : M (option string) :=
  headResp <- http_request "HEAD" url ;;
  match headResp with
  | Err m => ret (Some m)
  | Ok headResp =>
      if negb (StatusCode headResp =? StatusOK) then
        ret (Some (bad_status headResp url))
      else
        let total := ContentLength headResp in
        resp <- http_request "GET" url ;;
        match resp with
        | Err m => ret (Some m)
        | Ok resp =>
            if negb (StatusCode resp =? StatusOK) then
              ret (Some (bad_status resp url))
            else
              oerr <- os_Create e filepath ;;
              match oerr with
              | Some m => ret (Some m)
              | None =>
                  let progressR := newProgressReader total (t_open (body resp)) in
                  err <- io_Copy_progress filepath progressR (body resp) ;;
                  print (renderProgressBar 100) ;;
                  ret err
              end
        end
  end.

(** The loop of [io.Copy(out, resp.Body)]: what each read returned is
    written, and a write error stops the copy. *)
Fixpoint copy_plain (out : string) (cs : list Chunk) : M (option string) :=
  match cs with
  | [] => ret None
  | ch :: rest =>
      ew <- (if (0 <? Z.of_nat (String.length (data ch)))
             then file_Write e out (data ch) else ret None) ;;
      match ew with
      | Some m => ret (Some m)
      | None => copy_plain out rest
      end
  end.

Definition io_Copy (out : string) (b : Body) : M (option string) :=
  err <- copy_plain out (reads b) ;;
  match err with
  | Some m => ret (Some m)
  | None =>
      ew <- (if (0 <? Z.of_nat (String.length (data (final b))))
             then file_Write e out (data (final b)) else ret None) ;;
      match ew with
      | Some m => ret (Some m)
      | None => ret (goerr_to_error (final_err b))
      end
  end.

(** [downloadFile] (lines 572-591). *)
Definition downloadFile (url filepath : string) : M (option string) :=
  resp <- http_request "GET" url ;;
  match resp with
  | Err m => ret (Some m)
  | Ok resp =>
      if negb (StatusCode resp =? StatusOK) then
        ret (Some (bad_status resp url))
      else
        oerr <- os_Create e filepath ;;
        match oerr with
        | Some m => ret (Some m)
        | None => io_Copy filepath (body resp)
        end
  end.

Definition body_bytes (b : Body) : string :=
  String.concat "" (map data (reads b)) ++ data (final b).

(** [getLatestGoVersion] (lines 500-527). *)
Definition getLatestGoVersion : M (result string) :=
  resp <- http_request "GET" "https://go.dev/dl/?mode=json" ;;
  match resp with
  | Err m => ret (Err m)
  | Ok resp =>
      let decoded :=
        match final_err (body resp) with
        | Failure m => Err m
        | EOF => json_Decode e (body_bytes (body resp))
        end in
      match decoded with
      | Err m => ret (Err m)
      | Ok versions =>
          match versions with
          | [] => ret (Err "no Go versions found")
          | first :: _ =>
              match find Stable versions with
              | Some v => ret (Ok (Strings.TrimPrefix (Version v) "go"))
              | None => ret (Ok (Strings.TrimPrefix (Version first) "go"))
              end
          end
      end
  end.

(** ** The archive extractors (lines 593-685) *)

Definition TypeReg : ascii := "0"%char.
Definition TypeDir : ascii := "5"%char.

(** The bits of an [os.FileMode] that reach the system:
    [Perm()] and the setuid, setgid and sticky bits. *)
Definition syscallMode (i : Z) : Z :=
  Z.lor (Z.land i 511)
    (Z.lor (if Z.testbit i 23 then 2048 else 0)
       (Z.lor (if Z.testbit i 22 then 1024 else 0)
              (if Z.testbit i 20 then 512 else 0))).

(** [FileMode.IsDir()]. *)
Definition mode_IsDir (i : Z) : bool := Z.testbit i 31.

(** [io.Copy(outFile, r)] for an archive entry that delivers [bytes] and
    then ends with [rerr]. *)
Definition io_Copy_entry (out : string) (bytes : string) (rerr : option string)
  : M (option string) :=
  ew <- (if (0 <? Z.of_nat (String.length bytes))
         then file_Write e out bytes else ret None) ;;
  match ew with
  | Some m => ret (Some m)
  | None => ret rerr
  end.

(** The loop of [untargz] over the headers [Next] returns. *)
Fixpoint untargz_loop (dst : string) (hs : list TarEntry) (end_ : option string)
  : M (option string) :=
  match hs with
  | [] => ret end_
  | header :: rest =>
      let path := Filepath.Join [dst; Name header] in
      if Ascii.eqb (Typeflag header) TypeDir then
        err <- os_MkdirAll e path 493 ;;
        match err with
        | Some m => ret (Some m)
        | None => untargz_loop dst rest end_
        end
      else if Ascii.eqb (Typeflag header) TypeReg then
        let dir := Filepath.Dir path in
        err <- os_MkdirAll e dir 493 ;;
        match err with
        | Some m => ret (Some m)
        | None =>
            err <- os_Create e path ;;
            match err with
            | Some m => ret (Some m)
            | None =>
                err <- io_Copy_entry path (content header) (content_err header) ;;
                match err with
                | Some m => ret (Some m)
                | None =>
                    err <- os_Chmod e path (syscallMode (Mode header)) ;;
                    match err with
                    | Some m => ret (Some m)
                    | None => untargz_loop dst rest end_
                    end
                end
            end
        end
      else untargz_loop dst rest end_
  end.

(** [untargz] (lines 593-644). *)
Definition untargz (src dst : string) : M (option string) :=
  file <- os_Open e src ;;
  match file with
  | Err m => ret (Some m)
  | Ok bytes =>
      match targz_Reader e bytes with
      | Err m => ret (Some m)
      | Ok tr => untargz_loop dst (tar_entries tr) (tar_end tr)
      end
  end.

(** The loop of [unzip] over [r.File]. *)
Fixpoint unzip_loop (dst : string) (fl : list ZipFile) : M (option string) :=
  match fl with
  | [] => ret None
  | f :: rest =>
      let path := Filepath.Join [dst; zName f] in
      if mode_IsDir (zMode f) then
        os_MkdirAll e path (syscallMode (zMode f)) ;;
        unzip_loop dst rest
      else
        err <- os_MkdirAll e (Filepath.Dir path) 493 ;;
        match err with
        | Some m => ret (Some m)
        | None =>
            err <- os_OpenFile_create_trunc e path (syscallMode (zMode f)) ;;
            match err with
            | Some m => ret (Some m)
            | None =>
                match zOpen_err f with
                | Some m => ret (Some m)
                | None =>
                    err <- io_Copy_entry path (zContent f) (zContent_err f) ;;
                    match err with
                    | Some m => ret (Some m)
                    | None => unzip_loop dst rest
                    end
                end
            end
        end
  end.

(** [unzip] (lines 646-685). *)
Definition unzip (src dst : string) : M (option string) :=
  r <- os_Open e src ;;
  match r with
  | Err m => ret (Some m)
  | Ok bytes =>
      match zip_Reader e bytes with
      | Err m => ret (Some m)
      | Ok files => unzip_loop dst files
      end
  end.

(** ** Environment configuration (lines 321-498, 744-870) *)

(** [getShellConfigFile] (lines 439-480). *)
Definition getShellConfigFile : M string :=
  let shell := SHELL e in
  match user_Current (paths e) with
  | Err _ => ret ""
  | Ok usr =>
      if Strings.Contains shell "zsh" then
        ret (Filepath.Join [HomeDir usr; ".zshrc"])
      else if Strings.Contains shell "bash" then
        let bashProfile := Filepath.Join [HomeDir usr; ".bash_profile"] in
        found <- (if String.eqb (GOOS e) "darwin" then os_Stat bashProfile
                  else ret false) ;;
        if found then ret bashProfile
        else ret (Filepath.Join [HomeDir usr; ".bashrc"])
      else if Strings.Contains shell "fish" then
        let fishConfig := Filepath.Join [HomeDir usr; ".config"; "fish"; "config.fish"] in
        os_MkdirAll e (Filepath.Dir fishConfig) 493 ;;
        ret fishConfig
      else
        (fix try (files : list string) : M string :=
           match files with
           | [] => ret (Filepath.Join [HomeDir usr; ".profile"])
           | file :: rest =>
               let path := Filepath.Join [HomeDir usr; file] in
               found <- os_Stat path ;;
               if found then ret path else try rest
           end) [".profile"; ".bashrc"; ".bash_profile"; ".zshrc"]
  end.

(** Write the lines one after the other; stop at the first error. *)
Fixpoint write_lines (f : string) (lines : list string) : M (option string) :=
  match lines with
  | [] => ret None
  | l :: rest =>
      err <- file_Write e f l ;;
      match err with
      | Some m => ret (Some m)
      | None => write_lines f rest
      end
  end.

Definition added_by_getgo : string :=
  nl ++ "# Go environment variables added by getgo" ++ nl.

(** [setupUnixEnvironment] (lines 330-394). *)
Definition setupUnixEnvironment (goroot gopath : string) : M unit :=
  shellConfigFile <- getShellConfigFile ;;
  if String.eqb shellConfigFile "" then
    print "Could not determine shell configuration file. Please set up environment variables manually."
  else
    let exports := [ "export GOROOT=" ++ goroot;
                     "export GOPATH=" ++ gopath;
                     "export PATH=$PATH:$GOPATH/bin:$GOROOT/bin" ] in
    missing <- os_Stat_IsNotExist shellConfigFile ;;
    (if missing then
       print ("Shell configuration file " ++ shellConfigFile
                ++ " does not exist. Creating it...") ;;
       os_Create e shellConfigFile ;; ret tt
     else ret tt) ;;
    content <- os_ReadFile e shellConfigFile ;;
    match content with
    | Err m => print ("Error reading shell configuration file: " ++ m)
    | Ok content =>
        if Strings.Contains content "GOROOT=" then
          print ("Go environment variables already exist in " ++ shellConfigFile) ;;
          print "You may need to update them manually:" ;;
          print_all exports
        else
          err <- os_OpenFile_append e shellConfigFile ;;
          match err with
          | Some m => print ("Error opening shell configuration file: " ++ m)
          | None =>
              err <- write_lines shellConfigFile
                       (added_by_getgo :: map (fun x => x ++ nl) exports) ;;
              match err with
              | Some m => print ("Error writing to shell configuration file: " ++ m)
              | None =>
                  print ("Go environment variables have been added to "
                           ++ shellConfigFile) ;;
                  print ("Run 'source " ++ shellConfigFile
                           ++ "' to apply the changes to your current shell")
              end
          end
    end.

(** The script of lines 420-427. *)
Definition update_PATH_script : string :=
  nl
  ++ tab ++ tab ++ "$currentPath = [Environment]::GetEnvironmentVariable('PATH', 'User')" ++ nl
  ++ tab ++ tab ++ "$goPathBin = Join-Path -Path $env:GOPATH -ChildPath 'bin'" ++ nl
  ++ tab ++ tab ++ "$goRootBin = Join-Path -Path $env:GOROOT -ChildPath 'bin'" ++ nl
  ++ tab ++ tab ++ "if (-not $currentPath.Contains($goPathBin) -and -not $currentPath.Contains($goRootBin)) {" ++ nl
  ++ tab ++ tab ++ tab ++ "$newPath = $currentPath + ';' + $goPathBin + ';' + $goRootBin" ++ nl
  ++ tab ++ tab ++ tab ++ "[Environment]::SetEnvironmentVariable('PATH', $newPath, 'User')" ++ nl
  ++ tab ++ tab ++ "}" ++ nl
  ++ tab.

Definition run_powershell (cmd : string) : M (option string) :=
  emit (EvExec cmd) ;; ret (powershell e cmd).

(** [setupWindowsEnvironment] (lines 396-437). *)
Definition setupWindowsEnvironment (goroot gopath : string) : M unit :=
  print "Setting up environment variables using PowerShell..." ;;
  err <- run_powershell ("[Environment]::SetEnvironmentVariable('GOROOT', '"
                           ++ goroot ++ "', 'User')") ;;
  match err with
  | Some m => print ("Error setting GOROOT: " ++ m)
  | None =>
      err <- run_powershell ("[Environment]::SetEnvironmentVariable('GOPATH', '"
                               ++ gopath ++ "', 'User')") ;;
      match err with
      | Some m => print ("Error setting GOPATH: " ++ m)
      | None =>
          err <- run_powershell update_PATH_script ;;
          match err with
          | Some m => print ("Error updating PATH: " ++ m)
          | None =>
              print "Go environment variables have been set up successfully" ;;
              print "Please restart your terminal or system for the changes to take effect"
          end
      end
  end.

(** [setupEnvironmentVariables] (lines 321-328). *)
Definition setupEnvironmentVariables (goroot gopath : string) : M unit :=
  if String.eqb (GOOS e) "windows" then setupWindowsEnvironment goroot gopath
  else setupUnixEnvironment goroot gopath.

(** [printEnvVars] (lines 482-498). *)
Definition printEnvVars (goroot gopath : string) : M unit :=
  print (nl ++ "Go environment variables:" ++ nl) ;;
  (if String.eqb (GOOS e) "windows" then
     print ("GOROOT=" ++ goroot) ;;
     print ("GOPATH=" ++ gopath) ;;
     print "PATH=%PATH%;%GOPATH%\bin;%GOROOT%\bin"
   else
     print ("export GOROOT=" ++ goroot) ;;
     print ("export GOPATH=" ++ gopath) ;;
     print "export PATH=$PATH:$GOPATH/bin:$GOROOT/bin") ;;
  print "".

(** [setupEnvrcFile] (lines 756-870). *)
Definition setupEnvrcFile (envrcPath goroot gopath : string) : M (option string) :=
  match expandPath (paths e) envrcPath with
  | Err m => ret (Some ("error expanding envrc path: " ++ m))
  | Ok expandedPath =>
      isDir <- os_Stat_IsDir expandedPath ;;
      let expandedPath :=
        if isDir then Filepath.Join [expandedPath; ".envrc"] else expandedPath in
      err <- os_MkdirAll e (Filepath.Dir expandedPath) 493 ;;
      match err with
      | Some m => ret (Some ("error creating directory for .envrc: " ++ m))
      | None =>
          fileExists <- os_Stat expandedPath ;;
          (* lines 778-792: an existing file that has the assignment is left alone *)
          already <-
            (if fileExists then
               content <- os_ReadFile e expandedPath ;;
               match content with
               | Err m => ret (Err ("error reading existing .envrc file: " ++ m))
               | Ok content => ret (Ok (Strings.Contains content "GOROOT="))
               end
             else ret (Ok false)) ;;
          match already with
          | Err m => ret (Some m)
          | Ok true =>
              print ("Go environment variables already exist in " ++ expandedPath) ;;
              print "Not modifying the existing .envrc file" ;;
              ret None
          | Ok false =>
              (* lines 794-821: open for appending, or create *)
              opened <-
                (if fileExists then
                   err <- os_OpenFile_append e expandedPath ;;
                   match err with
                   | Some m => ret (Some ("error opening .envrc file: " ++ m))
                   | None =>
                       content <- os_ReadFile e expandedPath ;;
                       match content with
                       | Err m => ret (Some ("error reading .envrc file: " ++ m))
                       | Ok content =>
                           if (0 <? Z.of_nat (String.length content))
                              && negb (Strings.HasSuffix content nl) then
                             err <- file_Write e expandedPath nl ;;
                             match err with
                             | Some m =>
                                 ret (Some ("error writing to .envrc file: " ++ m))
                             | None => ret None
                             end
                           else ret None
                       end
                   end
                 else
                   err <- os_OpenFile_create e expandedPath 420 ;;
                   match err with
                   | Some m => ret (Some ("error creating .envrc file: " ++ m))
                   | None => ret None
                   end) ;;
              match opened with
              | Some m => ret (Some m)
              | None =>
                  let q := if String.eqb (GOOS e) "windows" then dq else "" in
                  err <- write_lines expandedPath
                           [ added_by_getgo;
                             "export GOROOT=" ++ q ++ goroot ++ q ++ nl;
                             "export GOPATH=" ++ q ++ gopath ++ q ++ nl;
                             "export PATH=" ++ q ++ "$PATH:$GOPATH/bin:$GOROOT/bin"
                               ++ q ++ nl ] ;;
                  match err with
                  | Some m => ret (Some ("error writing to .envrc file: " ++ m))
                  | None =>
                      (if fileExists then
                         print ("Appended Go environment variables to existing .envrc file at "
                                  ++ expandedPath)
                       else
                         print ("Created new .envrc file with Go environment variables at "
                                  ++ expandedPath)) ;;
                      ret None
                  end
              end
          end
      end
  end.

(** [setupEnvrcIfRequested] (lines 744-754). *)
Definition setupEnvrcIfRequested (envrcFlag goroot gopath : string) : M unit :=
  if negb (String.eqb envrcFlag "") then
    err <- setupEnvrcFile envrcFlag goroot gopath ;;
    match err with
    | Some m => print ("Error setting up .envrc file: " ++ m)
    | None => print "Run 'direnv allow' to enable the environment variables"
    end
  else ret tt.

(** ** The command line and [main] (lines 124-319) *)

Record Flags := {
  helpFlag : bool;
  hFlag : bool;
  unattendedFlag : bool;
  uFlag : bool;
  gopathFlag : string;
  gopathShortFlag : string;
  envrcFlag : string;
  args : list string                      (* flag.Args() *)
}.

Definition isUnattendedMode (fl : Flags) : bool := unattendedFlag fl || uFlag fl.

Definition isHelpRequested (fl : Flags) : bool := helpFlag fl || hFlag fl.

Definition getCustomGOPATH (fl : Flags) : string :=
  let customPath := gopathFlag fl in
  if String.eqb customPath "" then gopathShortFlag fl else customPath.

(** [expandPathOrExit] (lines 734-742). *)
Definition expandPathOrExit (path : string) : M string :=
  match expandPath (paths e) path with
  | Err m => print m ;; os_Exit 1
  | Ok expandedPath => ret expandedPath
  end.

(** [printUsage] (lines 102-122). *)
Definition printUsage : M unit :=
  print_all
    [ "Usage: getgo [options] [version] [install_path]";
      "Examples:";
      "  getgo                  # Latest version in current directory";
      "  getgo -                # Latest version in current directory";
      "  getgo latest           # Latest version in current directory";
      "  getgo 1.23.1           # Specific version in current directory";
      "  getgo latest ~/.go     # Latest version in ~/.go";
      "  getgo 1.23.1 /usr/local/go  # Specific version in /usr/local/go";
      "  getgo --path ~/custom/gopath # Custom GOPATH";
      nl ++ "Options:";
      "  -h, --help         Show this help message";
      "  -u, --unattended   Automatically set up environment variables (default: disabled)";
      "  -p, --path PATH    Set custom GOPATH (default is $HOME/go)";
      "  --envrc PATH       Create a .envrc file with Go environment variables at the specified path" ].

(** What lines 143-215 of [main] settle before the presence check. *)
Record Setup := {
  version : string;
  installPath : string;
  osName : string;
  arch : string;
  archiveExt : string;
  downloadURL : string;
  versionedGoDir : string;
  gopath : string
}.

(** Lines 137-215. *)
Definition main_setup (fl : Flags) : M Setup :=
  (if isHelpRequested fl then printUsage ;; os_Exit 0 else ret tt) ;;
  va <- match args fl with
        | [] => ret ("latest", ".")
        | [a0] => ret (a0, ".")
        | [a0; a1] => ret (a0, a1)
        | _ => printUsage ;; os_Exit 1
        end ;;
  let versionArg := fst va in
  installPath <- expandPathOrExit (snd va) ;;
  version <-
    (if String.eqb versionArg "latest" || String.eqb versionArg "-" then
       print "Fetching latest Go version..." ;;
       r <- getLatestGoVersion ;;
       match r with
       | Err m => print ("Error getting latest Go version: " ++ m) ;; os_Exit 1
       | Ok v => print ("Latest Go version is " ++ v) ;; ret v
       end
     else ret versionArg) ;;
  let osName := GOOS e in
  let arch := GOARCH e in
  let archiveExt := if String.eqb osName "windows" then "zip" else "tar.gz" in
  let downloadURL :=
    "https://go.dev/dl/go" ++ version ++ "." ++ osName ++ "-" ++ arch ++ "."
      ++ archiveExt in
  let versionedGoDir := Filepath.Join [installPath; "go" ++ version] in
  versionedGoDir <- expandPathOrExit versionedGoDir ;;
  usr <- match user_Current (paths e) with
         | Err m => print ("Error getting current user: " ++ m) ;; os_Exit 1
         | Ok usr => ret usr
         end ;;
  let gopath := Filepath.Join [HomeDir usr; "go"] in
  let customPath := getCustomGOPATH fl in
  gopath <- (if negb (String.eqb customPath "") then expandPathOrExit customPath
             else ret gopath) ;;
  ret {| version := version; installPath := installPath; osName := osName;
         arch := arch; archiveExt := archiveExt; downloadURL := downloadURL;
         versionedGoDir := versionedGoDir; gopath := gopath |}.

(** Lines 220-229 and 309-318: print the variables and configure what
    the flags ask for. *)
Definition configure (fl : Flags) (goroot gopath : string) : M unit :=
  printEnvVars goroot gopath ;;
  (if isUnattendedMode fl then setupEnvironmentVariables goroot gopath
   else ret tt) ;;
  setupEnvrcIfRequested (envrcFlag fl) goroot gopath.

(** Lines 277-302: move the extracted [go] directory into place. *)
Definition main_promote (s : Setup) (tempDir : string) : M string :=
  let extractedGoDir := Filepath.Join [tempDir; "go"] in
  let versionedGoDir := Filepath.Join [installPath s; "go" ++ version s] in
  versionedGoDir <- expandPathOrExit versionedGoDir ;;
  found <- os_Stat versionedGoDir ;;
  (if found then
     err <- os_RemoveAll e versionedGoDir ;;
     match err with
     | Some m => print ("Error removing existing directory: " ++ m) ;; os_Exit 1
     | None => ret tt
     end
   else ret tt) ;;
  err <- os_MkdirAll e (Filepath.Dir versionedGoDir) 493 ;;
  match err with
  | Some m => print ("Error creating parent directory: " ++ m) ;; os_Exit 1
  | None =>
      err <- os_Rename e extractedGoDir versionedGoDir ;;
      match err with
      | Some m => print ("Error moving extracted directory: " ++ m) ;; os_Exit 1
      | None => ret versionedGoDir
      end
  end.

Definition archivePath_of (s : Setup) : string :=
  Filepath.Join [os_TempDir e;
                 "go" ++ version s ++ "." ++ osName s ++ "-" ++ arch s ++ "."
                   ++ archiveExt s].

(** Lines 234-319: download, extract, promote, clean up, configure. *)
Definition main_install (fl : Flags) (s : Setup) : M unit :=
  err <- os_MkdirAll e (installPath s) 493 ;;
  match err with
  | Some m => print ("Error creating installation directory: " ++ m) ;; os_Exit 1
  | None =>
      print ("Downloading Go " ++ version s ++ " for " ++ osName s ++ "/"
               ++ arch s ++ "...") ;;
      let archivePath := archivePath_of s in
      err <- downloadFileWithProgress (downloadURL s) archivePath ;;
      match err with
      | Some m =>
          (if Strings.Contains m "404" then
             print ("Error: Go version " ++ version s ++ " not found for "
                      ++ osName s ++ "/" ++ arch s) ;;
             print "Please check that the version exists at https://go.dev/dl/"
           else print ("Error downloading Go archive: " ++ m)) ;;
          os_Exit 1
      | None =>
          print "" ;;
          print ("Extracting to " ++ installPath s ++ " ...") ;;
          tempDir <- os_MkdirTemp e "getgo-extract" ;;
          match tempDir with
          | Err m => print ("Error creating temporary directory: " ++ m) ;; os_Exit 1
          | Ok tempDir =>
              defer_ (DeferRemoveAll tempDir) ;;
              err <- (if String.eqb (osName s) "windows"
                      then unzip archivePath tempDir
                      else untargz archivePath tempDir) ;;
              match err with
              | Some m => print ("Error extracting archive: " ++ m) ;; os_Exit 1
              | None =>
                  versionedGoDir <- main_promote s tempDir ;;
                  os_Remove e archivePath ;;
                  print ("Go " ++ version s ++ " has been successfully installed to "
                           ++ versionedGoDir) ;;
                  configure fl versionedGoDir (gopath s)
              end
          end
      end
  end.

(** The body of [main]. *)
Definition main_body (fl : Flags) : M unit :=
  s <- main_setup fl ;;
  found <- os_Stat (versionedGoDir s) ;;
  if found then
    print ("Go version " ++ version s ++ " already exists at " ++ versionedGoDir s) ;;
    configure fl (versionedGoDir s) (gopath s) ;;
    os_Exit 0
  else main_install fl s.

Definition run_deferred_call (d : Deferred) : M unit :=
  match d with
  | DeferRemoveAll p => os_RemoveAll e p ;; ret tt
  end.

Fixpoint run_deferred (ds : list Deferred) : M unit :=
  match ds with
  | [] => ret tt
  | d :: rest => run_deferred_call d ;; run_deferred rest
  end.

(** A run of the program: the exit code and the world it leaves.  The
    deferred calls run when [main] returns, and not when it is left
    through [os.Exit]. *)
Definition main (fl : Flags) (w : World) : Z * World :=
  match main_body fl w with
  | Exited code w' => (code, w')
  | Done _ w' =>
      match run_deferred (deferred w') w' with
      | Exited code w'' => (code, w'')
      | Done _ w'' => (0, w'')
      end
  end.

End Program.

(** ** Notions used to state the properties *)

(** A path made absolute against the working directory, the way the last
    step of [expandPath] does. *)
Definition absolutize (e : PathEnv) (path : string) : result string :=
  if Filepath.IsAbs path then Ok path
  else match os_Getwd e with
       | Err m => Err ("error resolving absolute path: " ++ m)
       | Ok wd => Ok (Filepath.Join [wd; path])
       end.

(** The world an outcome leaves. *)
Definition world_of {A} (o : Outcome A) : World :=
  match o with
  | Done _ w => w
  | Exited _ w => w
  end.

(** What a stretch of the trace shows on the console. *)
Fixpoint prints (evs : list Event) : list string :=
  match evs with
  | [] => []
  | EvPrint s :: rest => s :: prints rest
  | _ :: rest => prints rest
  end.

Definition chunk_len (c : Chunk) : Z := Z.of_nat (String.length (data c)).

(** The number of bytes all the reads of a body return. *)
Definition body_length (b : Body) : Z :=
  fold_right Z.add 0 (map chunk_len (reads b)) + chunk_len (final b).

(** The calls that create, open for writing or write a file. *)
Definition is_write (ev : Event) : bool :=
  match ev with
  | EvSys (OpCreate _) | EvSys (OpOpenFile _) | EvSys (OpWrite _) => true
  | _ => false
  end.

(** A plain name: one path element, with no separator in it, that is
    neither empty nor [.] nor [..]. *)
Definition plain_name (c : string) : bool :=
  negb (Filepath.has_sep c)
  && negb (String.eqb c "") && negb (String.eqb c ".") && negb (String.eqb c "..").

(** The version the command line asks for, and whether it has to be
    looked up. *)
Definition versionArg (fl : Flags) : string :=
  match args fl with
  | [] => "latest"
  | a0 :: _ => a0
  end.

Definition wants_latest (fl : Flags) : bool :=
  String.eqb (versionArg fl) "latest" || String.eqb (versionArg fl) "-".

Definition versions_url : string := "https://go.dev/dl/?mode=json".

Definition is_network (ev : Event) : bool :=
  match ev with
  | EvHttp _ _ => true
  | _ => false
  end.

(** The calls only the download, the extraction and the promotion make:
    requests, reading an archive, the temporary directory, changes of mode,
    renames and removals. *)
Definition is_install_work (ev : Event) : bool :=
  match ev with
  | EvHttp _ _ => true
  | EvSys (OpOpen _) | EvSys (OpMkdir _) | EvSys (OpChmod _)
  | EvSys (OpRename _ _) | EvSys (OpRemoveAll _) | EvSys (OpRemove _) => true
  | _ => false
  end.

(** A computation that, from any world, adds to the trace only events
    that satisfy [Q], and leaves the deferred calls alone. *)
Definition emits_only {A} (Q : Event -> bool) (m : M A) : Prop :=
  forall w, exists evs,
    trace (world_of (m w)) = (trace w ++ evs)%list
    /\ forallb Q evs = true
    /\ deferred (world_of (m w)) = deferred w.

(** A computation that never leaves through [os.Exit]. *)
Definition returns {A} (m : M A) : Prop :=
  forall w, exists a w', m w = Done a w'.

(** The events of the setup phase: lines on the console and requests. *)
Definition setup_event (ev : Event) : bool :=
  match ev with
  | EvPrint _ | EvHttp _ _ => true
  | _ => false
  end.

(** The events that are neither a request nor install work. *)
Definition quiet (ev : Event) : bool := negb (is_install_work ev).

Definition sum_len (cs : list Chunk) : Z := fold_right Z.add 0 (map chunk_len cs).

(** The rooted path with the given elements. *)
Definition rooted_path (es : list string) : string :=
  ("/" ++ String.concat "/" es)%string.

(** A computation that keeps a property of the tree, and leaves the
    deferred calls alone. *)
Definition preserves {A} (P : FS.node -> Prop) (m : M A) : Prop :=
  forall w, P (fs w) ->
    P (fs (world_of (m w))) /\ deferred (world_of (m w)) = deferred w
    /\ exists evs, trace (world_of (m w)) = (trace w ++ evs)%list.

(** An outcome that meets [Qd] when the computation returned and [Qe]
    when it left through [os.Exit]. *)
Definition ends_in {A} (Qd : A -> World -> Prop) (Qe : Z -> World -> Prop)
  (o : Outcome A) : Prop :=
  match o with
  | Done a w => Qd a w
  | Exited c w => Qe c w
  end.

(** [f] puts nothing below the path it is applied at. *)
Definition leaf_like (f : option FS.node -> result (option FS.node)) : Prop :=
  forall o c r, f o = Ok (Some c) -> r <> [] ->
    FS.lookup r c = match o with Some c0 => FS.lookup r c0 | None => None end.

(** The name [os.MkdirTemp] gives the extraction directory for the
    random part [r]. *)
Definition tempdir_name (e : Env) (r : string) : string :=
  (os_TempDir e ++ "/" ++ "getgo-extract" ++ r)%string.

(** A usual environment: the working directory and the directory for
    temporary files are absolute paths, and the names of the system, of the
    architecture and of temporary directories hold no separator. *)
Definition usual (e : Env) : Prop :=
  (forall wd, os_Getwd (paths e) = Ok wd -> Filepath.IsAbs wd = true)
  /\ Filepath.IsAbs (os_TempDir e) = true
  /\ Filepath.has_sep (GOOS e) = false
  /\ Filepath.has_sep (GOARCH e) = false
  /\ Forall (fun r => Filepath.has_sep r = false) (temp_names e).

(** Every entry of every archive the readers deliver is extracted to a
    path inside the extraction directory. *)
Definition contained (e : Env) : Prop :=
  forall r, In r (temp_names e) ->
    (forall bytes ts h,
        targz_Reader e bytes = Ok ts -> In h (tar_entries ts) ->
        FS.is_prefix (Filepath.elements (tempdir_name e r))
          (Filepath.elements (Filepath.Join [tempdir_name e r; Name h])) = true)
    /\ (forall bytes files f,
        zip_Reader e bytes = Ok files -> In f files ->
        FS.is_prefix (Filepath.elements (tempdir_name e r))
          (Filepath.elements (Filepath.Join [tempdir_name e r; zName f])) = true).

(** The extraction [main] runs for the system at hand (lines 267-271). *)
Definition extraction (e : Env) (s : Setup) (tempDir : string) : M (option string) :=
  if String.eqb (osName s) "windows" then unzip e (archivePath_of e s) tempDir
  else untargz e (archivePath_of e s) tempDir.



(** The name of the downloaded archive (line 243). *)
Definition archive_name (s : Setup) : string :=
  ("go" ++ version s ++ "." ++ osName s ++ "-" ++ arch s ++ "." ++ archiveExt s)%string.

(** Properties of the tree kept by the creation of, and the writes to, the
    file at a path; by the making of the directories of a path; by a change
    of mode at a path; by all the calls for an entry extracted to a path. *)
Definition file_ok (P : FS.node -> Prop) (path : string) : Prop :=
  (forall mode n n', FS.create mode (Filepath.elements path) n = Ok n' -> P n -> P n')
  /\ (forall d n n', FS.append d (Filepath.elements path) n = Ok n' -> P n -> P n').

Definition dir_ok (P : FS.node -> Prop) (path : string) : Prop :=
  forall mode n n', FS.mkdirAll mode (Filepath.elements path) n = Ok n' -> P n -> P n'.

Definition chmod_ok (P : FS.node -> Prop) (path : string) : Prop :=
  forall mode n n', FS.chmod mode (Filepath.elements path) n = Ok n' -> P n -> P n'.

Definition entry_ok (P : FS.node -> Prop) (path : string) : Prop :=
  dir_ok P path /\ dir_ok P (Filepath.Dir path) /\ file_ok P path /\ chmod_ok P path.

(** The versioned directory is absent from a tree; and absent while the
    installation directory is there. *)
Definition absent (s : Setup) (n : FS.node) : Prop :=
  FS.lookup (Filepath.elements (versionedGoDir s)) n = None.

Definition ready (s : Setup) (n : FS.node) : Prop :=
  absent s n /\ FS.lookup (Filepath.elements (installPath s)) n <> None.

(** The extraction directory named with [r] lies beside the versioned
    directory: neither is inside the other. *)
Definition beside (e : Env) (s : Setup) (r : string) : Prop :=
  In r (temp_names e)
  /\ FS.is_prefix (Filepath.elements (tempdir_name e r))
       (Filepath.elements (versionedGoDir s)) = false
  /\ FS.is_prefix (Filepath.elements (versionedGoDir s))
       (Filepath.elements (tempdir_name e r)) = false.



(** How often a character occurs in a string. *)
Fixpoint count_char (c : ascii) (s : string) : nat :=
  match s with
  | EmptyString => O
  | String a r => (if Ascii.eqb a c then 1 else 0) + count_char c r
  end.

(** The file at [out] holds [d], with mode [m], and all that is neither
    above nor below [out] is as in [n0]. *)
Definition holds (out : string) (n0 : FS.node) (m : Z) (d : string) (n : FS.node)
  : Prop :=
  FS.lookup (Filepath.elements out) n = Some (FS.File m d)
  /\ forall q, FS.is_prefix q (Filepath.elements out) = false ->
               FS.is_prefix (Filepath.elements out) q = false ->
               FS.lookup q n = FS.lookup q n0.

(** The kinds of entries [untargz] extracts: directories and regular
    files. *)
Definition extracted_kind (h : TarEntry) : bool :=
  Ascii.eqb (Typeflag h) TypeDir || Ascii.eqb (Typeflag h) TypeReg.

(** The PowerShell commands a stretch of the trace ran. *)
Fixpoint execs (evs : list Event) : list string :=
  match evs with
  | [] => []
  | EvExec c :: rest => c :: execs rest
  | _ :: rest => execs rest
  end.

(** The commands that set [GOROOT] and [GOPATH] for the user. *)
Definition set_variable_command (name value : string) : string :=
  ("[Environment]::SetEnvironmentVariable('" ++ name ++ "', '" ++ value
     ++ "', 'User')")%string.

(** ** Scenarios: concrete machines, archives and command lines *)

Module Scenario.

Definition chunk (s : string) (t : Z) : Chunk :=
  {| data := s; t_since := t; t_now := t |}.

(** Ten bytes in three reads, then the end of the stream. *)
Definition archive_body : Body :=
  {| t_open := 0;
     reads := [chunk "aaaa" 50000000; chunk "bbbb" 150000000; chunk "cc" 400000000];
     final := chunk "" 500000000;
     final_err := EOF |}.

Definition ok_response : Response :=
  {| StatusCode := 200; reason := "OK"; ContentLength := 10; body := archive_body |}.



Definition tar_dir (name : string) : TarEntry :=
  {| Name := name; Typeflag := "5"%char; Mode := 493; content := "";
     content_err := None |}.

Definition tar_file (name : string) (mode : Z) (bytes : string) : TarEntry :=
  {| Name := name; Typeflag := "0"%char; Mode := mode; content := bytes;
     content_err := None |}.

(** [go/], [go/bin/go] with mode 0755, [go/VERSION] with mode 0644. *)
Definition go_tar : TarStream :=
  {| tar_entries := [tar_dir "go/"; tar_file "go/bin/go" 493 "ELF";
                     tar_file "go/VERSION" 420 "go1.23.1"];
     tar_end := None |}.

Definition zip_dir (name : string) : ZipFile :=
  {| zName := name; zMode := 2 ^ 31 + 493; zOpen_err := None; zContent := "";
     zContent_err := None |}.

Definition zip_file (name : string) (mode : Z) (bytes : string) : ZipFile :=
  {| zName := name; zMode := mode; zOpen_err := None; zContent := bytes;
     zContent_err := None |}.

Definition go_zip : list ZipFile :=
  [zip_dir "go/"; zip_file "go/bin/go" 493 "ELF"; zip_file "go/VERSION" 420 "go1.23.1"].

Definition profile_text : string := "export GOROOT=/old/go" ++ nl.

(** [/tmp], [/opt], [/work/dir] and a home directory whose [.profile]
    already sets [GOROOT]. *)
Definition tree : FS.node :=
  FS.Dir 493
    [("tmp", FS.Dir 511 []);
     ("opt", FS.Dir 493 []);
     ("work", FS.Dir 493 [("dir", FS.Dir 493 [(".envrc", FS.File 420 profile_text)])]);
     ("home", FS.Dir 493
        [("gopher", FS.Dir 493 [(".profile", FS.File 420 profile_text)])])].

(** The same with Go 1.23.1 installed under [/opt/go]. *)
Definition installed_tree : FS.node :=
  FS.Dir 493
    [("tmp", FS.Dir 511 []);
     ("opt", FS.Dir 493
        [("go", FS.Dir 493
            [("go1.23.1", FS.Dir 493 [("VERSION", FS.File 420 "go1.23.1")])])]);
     ("work", FS.Dir 493 [("dir", FS.Dir 493 [])]);
     ("home", FS.Dir 493 [("gopher", FS.Dir 493 [])])].

(** A machine: its system, mask, faults, server and the archive its
    readers find in the downloaded file. *)
Definition machine (goos : string) (mask : Z) (faults : Op -> bool)
  (head get : result Response) (tar : result TarStream)
  (zip : result (list ZipFile)) : Env :=
  {| GOOS := goos; GOARCH := "amd64"; paths := demoPathEnv; SHELL := "/bin/sh";
     os_TempDir := "/tmp"; temp_names := ["123456"]; umask := mask;
     fault := faults;
     http_Head := fun _ => head; http_Get := fun _ => get;
     json_Decode := fun _ => Ok [ {| Version := "go1.23.1"; Stable := true |} ];
     targz_Reader := fun _ => tar; zip_Reader := fun _ => zip;
     conversion := Float64.amd64; powershell := fun _ => None |}.

Definition no_fault : Op -> bool := fun _ => false.

Definition linux : Env :=
  machine "linux" 18 no_fault (Ok ok_response) (Ok ok_response) (Ok go_tar)
    (Err "zip: not a valid zip file").

Definition flags (a : list string) : Flags :=
  {| helpFlag := false; hFlag := false; unattendedFlag := false; uFlag := false;
     gopathFlag := ""; gopathShortFlag := ""; envrcFlag := ""; args := a |}.

Definition start (n : FS.node) : World :=
  {| fs := n; trace := []; deferred := [] |}.

(** What [main_setup] settles on [linux] for a version and an
    installation directory given on the command line. *)
Definition setup (v ip : string) : Setup :=
  {| version := v; installPath := ip; osName := "linux"; arch := "amd64";
     archiveExt := "tar.gz";
     downloadURL := "https://go.dev/dl/go" ++ v ++ ".linux-amd64.tar.gz";
     versionedGoDir := ip ++ "/go" ++ v; gopath := "/home/gopher/go" |}.

(** The archive of [go_tar] cut short after its second entry. *)
Definition truncated_tar : TarStream :=
  {| tar_entries := [tar_dir "go/"; tar_file "go/VERSION" 420 "go1.23.1"];
     tar_end := Some "unexpected EOF" |}.

Definition linux_truncated : Env :=
  machine "linux" 18 no_fault (Ok ok_response) (Ok ok_response) (Ok truncated_tar)
    (Err "zip: not a valid zip file").




(** A downloaded archive [/tmp/a] and an empty directory [/tmp/x] to
    extract it to. *)
Definition archive_tree : FS.node :=
  FS.Dir 493 [("tmp", FS.Dir 511 [("a", FS.File 420 "PK"); ("x", FS.Dir 448 [])])].

Definition with_zip (mask : Z) (files : list ZipFile) : Env :=
  machine "windows" mask no_fault (Ok ok_response) (Ok ok_response)
    (Err "gzip: invalid header") (Ok files).

Definition with_tar (mask : Z) (entries : list TarEntry) : Env :=
  machine "linux" mask no_fault (Ok ok_response) (Ok ok_response)
    (Ok {| tar_entries := entries; tar_end := None |}) (Err "zip: not a valid zip file").

(** [linux] with a server whose list of versions is [vs]. *)
Definition with_versions (vs : list GoVersion) : Env :=
  {| GOOS := "linux"; GOARCH := "amd64"; paths := demoPathEnv; SHELL := "/bin/sh";
     os_TempDir := "/tmp"; temp_names := ["123456"]; umask := 18;
     fault := no_fault;
     http_Head := fun _ => Ok ok_response; http_Get := fun _ => Ok ok_response;
     json_Decode := fun _ => Ok vs;
     targz_Reader := fun _ => Ok go_tar;
     zip_Reader := fun _ => Err "zip: not a valid zip file";
     conversion := Float64.amd64; powershell := fun _ => None |}.

End Scenario.

(** * Part II: properties *)

Unset Implicit Arguments.
Local Open Scope list_scope.

(** * Properties of the path helpers *)

Section PathFacts.

Lemma IsAbs_cons (s : string) :
  Filepath.IsAbs s = true -> exists r, s = String "/"%char r.
Proof.
  unfold Filepath.IsAbs.
  destruct s as [|c r]; cbn [Strings.HasPrefix]; [intros; discriminate|].
  destruct (Ascii.eqb_spec "/"%char c) as [<-|]; [eauto|intros; discriminate].
Qed.

Lemma IsAbs_Clean (s : string) :
  Filepath.IsAbs s = true -> Filepath.IsAbs (Filepath.Clean s) = true.
Proof.
  intros H. destruct (IsAbs_cons _ H) as [r ->].
  unfold Filepath.Clean. rewrite H.
  replace (String.eqb (String "/"%char r) "") with false by reflexivity.
  reflexivity.
Qed.

Lemma IsAbs_Join (wd p : string) :
  Filepath.IsAbs wd = true -> Filepath.IsAbs (Filepath.Join [wd; p]) = true.
Proof.
  intros H. destruct (IsAbs_cons _ H) as [r ->].
  unfold Filepath.Join. simpl Filepath.drop_empty. cbv iota.
  apply IsAbs_Clean. reflexivity.
Qed.

Lemma absolutize_IsAbs (e : PathEnv) (p q : string) :
  (forall wd, os_Getwd e = Ok wd -> Filepath.IsAbs wd = true) ->
  absolutize e p = Ok q -> Filepath.IsAbs q = true.
Proof.
  intros Hwd. unfold absolutize.
  destruct (Filepath.IsAbs p) eqn:Ha.
  - intros [= <-]. exact Ha.
  - destruct (os_Getwd e) as [wd|m] eqn:Hg; [|discriminate].
    intros [= <-]. apply IsAbs_Join. now apply Hwd.
Qed.

Lemma expandPath_absolutize (e : PathEnv) (p : string) :
  match (if negb (Filepath.IsAbs p) then
           match filepath_Abs e p with
           | Err m => Err ("error resolving absolute path: " ++ m)%string
           | Ok absPath => Ok absPath
           end
         else Ok p) with
  | Ok q => Ok q
  | Err m => Err m
  end = absolutize e p.
Proof.
  unfold absolutize, filepath_Abs.
  destruct (Filepath.IsAbs p); simpl; [reflexivity|].
  destruct (os_Getwd e); reflexivity.
Qed.

(** [expandPath] is the tilde step followed by [absolutize]. *)
Lemma expandPath_eq (e : PathEnv) (path : string) :
  expandPath e path =
    match (if String.eqb path "~" || Strings.HasPrefix path "~/" then
             match user_Current e with
             | Err m => Err ("error getting current user: " ++ m)%string
             | Ok usr =>
                 if String.eqb path "~" then Ok (HomeDir usr)
                 else Ok (Filepath.Join [HomeDir usr; Strings.drop 2 path])
             end
           else Ok path) with
    | Err m => Err m
    | Ok p => absolutize e p
    end.
Proof.
  unfold expandPath.
  destruct (String.eqb path "~" || Strings.HasPrefix path "~/").
  - destruct (user_Current e) as [usr|m]; [|reflexivity].
    destruct (String.eqb path "~"); rewrite <- expandPath_absolutize;
      match goal with |- context [if ?b then _ else _] => destruct b end;
      try reflexivity;
      match goal with |- context [filepath_Abs ?a ?b] => destruct (filepath_Abs a b) end;
      reflexivity.
  - rewrite <- expandPath_absolutize.
    destruct (negb (Filepath.IsAbs path)); [|reflexivity].
    destruct (filepath_Abs e path); reflexivity.
Qed.

Lemma expandPath_IsAbs (e : PathEnv) (path p : string) :
  (forall wd, os_Getwd e = Ok wd -> Filepath.IsAbs wd = true) ->
  expandPath e path = Ok p -> Filepath.IsAbs p = true.
Proof.
  intros Hwd. rewrite expandPath_eq.
  destruct (String.eqb path "~" || Strings.HasPrefix path "~/").
  - destruct (user_Current e) as [usr|m]; [|discriminate].
    destruct (String.eqb path "~"); apply absolutize_IsAbs; assumption.
  - apply absolutize_IsAbs; assumption.
Qed.

End PathFacts.

(** C10. [expandPath] returns an error or an absolute path; only the input
    [~] and inputs that begin with [~/] have the tilde replaced by the home
    directory; every other input is made absolute against the working
    directory with its tildes in place, whoever the user is. *)
Theorem expandPath_absolute_tilde (e : PathEnv) (path : string) :
  (forall wd, os_Getwd e = Ok wd -> Filepath.IsAbs wd = true) ->
  (forall p, expandPath e path = Ok p -> Filepath.IsAbs p = true)
  /\ (path = "~" ->
      expandPath e path =
        match user_Current e with
        | Err m => Err ("error getting current user: " ++ m)%string
        | Ok usr => absolutize e (HomeDir usr)
        end)
  /\ (forall rest, path = ("~/" ++ rest)%string ->
      expandPath e path =
        match user_Current e with
        | Err m => Err ("error getting current user: " ++ m)%string
        | Ok usr => absolutize e (Filepath.Join [HomeDir usr; rest])
        end)
  /\ (path <> "~" -> Strings.HasPrefix path "~/" = false ->
      expandPath e path = absolutize e path).
Proof.
  intros Hwd. pose proof (expandPath_eq e path) as Hgen.
  repeat split.
  - intros p. apply expandPath_IsAbs. exact Hwd.
  - intros ->. rewrite Hgen. simpl.
    destruct (user_Current e); reflexivity.
  - intros rest ->. rewrite Hgen. simpl.
    destruct (user_Current e); reflexivity.
  - intros Hne Hpre. rewrite Hgen.
    apply String.eqb_neq in Hne. rewrite Hne, Hpre. reflexivity.
Qed.

(** The condition of C10 is met by [demoPathEnv], whose working directory
    is [/work/dir]. *)
Lemma expandPath_absolute_tilde_witness :
  (forall p, expandPath demoPathEnv "~user/x" = Ok p -> Filepath.IsAbs p = true)
  /\ expandPath demoPathEnv "~user/x" = Ok "/work/dir/~user/x"
  /\ expandPath demoPathEnv "~/x" = Ok "/home/gopher/x".
Proof.
  assert (Hwd : forall wd, os_Getwd demoPathEnv = Ok wd -> Filepath.IsAbs wd = true).
  { intros wd [= <-]. reflexivity. }
  destruct (expandPath_absolute_tilde demoPathEnv "~user/x" Hwd) as (H1 & _ & _ & H4).
  destruct (expandPath_absolute_tilde demoPathEnv "~/x" Hwd) as (_ & _ & H3 & _).
  split; [exact H1|]. split.
  - rewrite H4; [reflexivity| discriminate | reflexivity].
  - rewrite (H3 "x" eq_refl). reflexivity.
Defined.

(** * Rounding to binary64 is monotone *)

Module Float64Facts.
Import Float64.
Local Open Scope Q_scope.

Lemma two_pow_pos e : 0 < two_pow e.
Proof. apply Qpower_0_lt. reflexivity. Qed.

Lemma two_pow_add a b : two_pow (a + b) == two_pow a * two_pow b.
Proof. apply Qpower_plus. discriminate. Qed.

Lemma two_pow_le a b : (a <= b)%Z -> two_pow a <= two_pow b.
Proof. intros H. apply Qpower_le_compat_l; [exact H|discriminate]. Qed.

Lemma two_pow_lt a b : (a < b)%Z -> two_pow a < two_pow b.
Proof. intros H. apply Qpower_lt_compat_l; [exact H|reflexivity]. Qed.

Lemma two_pow_succ a : two_pow (a + 1) == 2 * two_pow a.
Proof. rewrite two_pow_add. change (two_pow 1) with 2. ring. Qed.

Lemma two_pow_Z n : (0 <= n)%Z -> two_pow n == inject_Z (2 ^ n).
Proof. intros H. unfold two_pow. rewrite Zpower_Qpower by exact H. reflexivity. Qed.

Lemma log2_bounds (n : Z) :
  (0 < n)%Z ->
  two_pow (Z.log2 n) <= inject_Z n /\ inject_Z n < 2 * two_pow (Z.log2 n).
Proof.
  intros Hn. pose proof (Z.log2_spec n Hn) as [H1 H2].
  pose proof (Z.log2_nonneg n) as H0.
  split.
  - rewrite two_pow_Z by exact H0. rewrite <- Zle_Qle. exact H1.
  - rewrite <- two_pow_succ. rewrite two_pow_Z by lia.
    rewrite <- Zlt_Qlt. exact H2.
Qed.

Lemma normal_exp_spec x :
  0 < x ->
  two_pow (52 + normal_exp x) <= x /\ x < two_pow (53 + normal_exp x).
Proof.
  intros Hx. destruct x as [n d]. unfold normal_exp. cbn [Qnum Qden].
  assert (Hn : (0 < n)%Z).
  { unfold Qlt in Hx. simpl in Hx. lia. }
  destruct (log2_bounds n Hn) as [Ha1 Ha2].
  destruct (log2_bounds (Zpos d) eq_refl) as [Hb1 Hb2].
  set (a := Z.log2 n) in *. set (b := Z.log2 (Zpos d)) in *.
  pose proof (two_pow_add (a - b) b) as HT.
  replace (a - b + b)%Z with a in HT by lia.
  pose proof (two_pow_pos (a - b)) as HTpos.
  pose proof (two_pow_pos b) as HBpos.
  assert (Hxd : (n # d) * inject_Z (Zpos d) == inject_Z n).
  { rewrite (Qmake_Qdiv n d). field. intros H. rewrite H in Hb1.
    apply (Qlt_not_le _ _ HBpos). exact Hb1. }
  set (x := n # d) in *. set (N := inject_Z n) in *.
  set (D := inject_Z (Zpos d)) in *.
  set (A := two_pow a) in *. set (B := two_pow b) in *.
  set (T := two_pow (a - b)) in *.
  assert (Hlo : T < 2 * x) by nra.
  assert (Hhi : x < 2 * T) by nra.
  destruct (Qle_bool T x) eqn:Hq.
  - apply Qle_bool_iff in Hq.
    replace (52 + (a - b - 52))%Z with (a - b)%Z by lia.
    replace (53 + (a - b - 52))%Z with (a - b + 1)%Z by lia.
    rewrite two_pow_succ. fold T. split; [exact Hq|exact Hhi].
  - assert (Hq' : x < T).
    { apply Qnot_le_lt. intros H. apply Qle_bool_iff in H. congruence. }
    replace (53 + (a - b - 53))%Z with (a - b)%Z by lia.
    pose proof (two_pow_succ (52 + (a - b - 53))) as Hs.
    replace (52 + (a - b - 53) + 1)%Z with (a - b)%Z in Hs by lia.
    fold T in Hs. fold T.
    split; [|exact Hq'].
    set (U := two_pow (52 + (a - b - 53))) in *. lra.
Qed.

Lemma Qlt_bool_iff a b : Qlt_bool a b = true <-> a < b.
Proof.
  unfold Qlt_bool. rewrite negb_true_iff. split.
  - intros H. apply Qnot_le_lt. intros H'. apply Qle_bool_iff in H'. congruence.
  - intros H. destruct (Qle_bool b a) eqn:E; [|reflexivity].
    apply Qle_bool_iff in E. exfalso. apply (Qlt_not_le _ _ H E).
Qed.

Lemma normal_exp_mono x y :
  0 < x -> x <= y -> (normal_exp x <= normal_exp y)%Z.
Proof.
  intros Hx Hxy.
  assert (Hy : 0 < y) by (eapply Qlt_le_trans; eauto).
  destruct (normal_exp_spec x Hx) as [Hx1 _].
  destruct (normal_exp_spec y Hy) as [_ Hy2].
  destruct (Z_le_gt_dec (normal_exp x) (normal_exp y)) as [H|H]; [exact H|].
  exfalso.
  assert (Hp : two_pow (53 + normal_exp y) <= two_pow (52 + normal_exp x))
    by (apply two_pow_le; lia).
  lra.
Qed.

Lemma ulp_exp_mono x y : 0 < x -> x <= y -> (ulp_exp x <= ulp_exp y)%Z.
Proof.
  intros Hx Hxy. unfold ulp_exp.
  pose proof (normal_exp_mono x y Hx Hxy). lia.
Qed.

(** The scaled value [x / 2^e] lies below [2^53]. *)
Lemma scaled_lt x : 0 < x -> x / two_pow (ulp_exp x) < two_pow 53.
Proof.
  intros Hx. destruct (normal_exp_spec x Hx) as [_ H2].
  pose proof (two_pow_pos (ulp_exp x)) as HP.
  apply Qlt_shift_div_r; [exact HP|].
  rewrite <- two_pow_add.
  eapply Qlt_le_trans; [exact H2|]. apply two_pow_le. unfold ulp_exp. lia.
Qed.

Lemma floor_scaled_lt x :
  0 < x -> (Qfloor (x / two_pow (ulp_exp x)) + 1 <= 2 ^ 53)%Z.
Proof.
  intros Hx. pose proof (scaled_lt x Hx) as H.
  pose proof (Qfloor_le (x / two_pow (ulp_exp x))) as Hf.
  assert (Hlt : inject_Z (Qfloor (x / two_pow (ulp_exp x))) < inject_Z (2 ^ 53)).
  { rewrite <- two_pow_Z by lia. lra. }
  rewrite <- Zlt_Qlt in Hlt. lia.
Qed.

(** The mantissa chosen by [round_pos]. *)
Lemma round_pos_eq x :
  exists m : Z,
    round_pos x = inject_Z m * two_pow (ulp_exp x)
    /\ (Qfloor (x / two_pow (ulp_exp x)) <= m
        <= Qfloor (x / two_pow (ulp_exp x)) + 1)%Z.
Proof.
  unfold round_pos.
  match goal with |- context [if ?b then _ else _] => destruct b end;
    eexists; (split; [reflexivity|lia]).
Qed.

Lemma round_pos_mono x y : 0 < x -> x <= y -> round_pos x <= round_pos y.
Proof.
  intros Hx Hxy.
  assert (Hy : 0 < y) by (eapply Qlt_le_trans; eauto).
  pose proof (ulp_exp_mono x y Hx Hxy) as He.
  pose proof (two_pow_pos (ulp_exp x)) as HPx.
  pose proof (two_pow_pos (ulp_exp y)) as HPy.
  destruct (Z.eq_dec (ulp_exp x) (ulp_exp y)) as [Heq|Hne].
  - (* same exponent *)
    unfold round_pos. rewrite <- Heq.
    set (P := two_pow (ulp_exp x)) in *.
    assert (Hs : x / P <= y / P).
    { apply Qle_shift_div_l; [exact HPx|].
      setoid_replace (x / P * P) with x by (field; lra). exact Hxy. }
    set (sx := x / P) in *. set (sy := y / P) in *.
    pose proof (Qfloor_resp_le _ _ Hs) as Hm.
    pose proof (Qfloor_le sx) as Hfx. pose proof (Qlt_floor sx) as Hfx'.
    pose proof (Qfloor_le sy) as Hfy. pose proof (Qlt_floor sy) as Hfy'.
    set (mx := Qfloor sx) in *. set (my := Qfloor sy) in *.
    apply Qmult_le_compat_r; [|lra].
    rewrite <- Zle_Qle.
    destruct (Z.eq_dec mx my) as [Hmm|Hmm].
    + rewrite <- Hmm.
      destruct (Qlt_bool (1 # 2) (sx - inject_Z mx)
                || Qeq_bool (sx - inject_Z mx) (1 # 2) && Z.odd mx) eqn:Hup.
      * assert (Hup' : Qlt_bool (1 # 2) (sy - inject_Z mx)
                || Qeq_bool (sy - inject_Z mx) (1 # 2) && Z.odd mx = true).
        { apply orb_true_iff in Hup. destruct Hup as [Hup|Hup].
          - apply Qlt_bool_iff in Hup. apply orb_true_iff. left.
            apply Qlt_bool_iff. lra.
          - apply andb_true_iff in Hup. destruct Hup as [Hup Hodd].
            apply Qeq_bool_iff in Hup. rewrite Hodd, andb_true_r.
            destruct (Qlt_le_dec (1 # 2) (sy - inject_Z mx)) as [Hc|Hc].
            + apply orb_true_iff. left. apply Qlt_bool_iff. exact Hc.
            + apply orb_true_iff. right. apply Qeq_bool_iff. lra. }
        rewrite Hup'. lia.
      * destruct (Qlt_bool (1 # 2) (sy - inject_Z mx)
                  || Qeq_bool (sy - inject_Z mx) (1 # 2) && Z.odd mx); lia.
    + assert (mx + 1 <= my)%Z by lia.
      destruct (Qlt_bool (1 # 2) (sx - inject_Z mx)
                || Qeq_bool (sx - inject_Z mx) (1 # 2) && Z.odd mx);
      destruct (Qlt_bool (1 # 2) (sy - inject_Z my)
                || Qeq_bool (sy - inject_Z my) (1 # 2) && Z.odd my); lia.
  - (* a larger exponent: [y] is normal *)
    assert (Hlt : (ulp_exp x < ulp_exp y)%Z) by lia.
    assert (Hny : ulp_exp y = normal_exp y).
    { unfold ulp_exp in *. lia. }
    destruct (round_pos_eq x) as (mx & -> & Hmx).
    destruct (round_pos_eq y) as (my & -> & Hmy).
    pose proof (floor_scaled_lt x Hx) as Hbx.
    destruct (normal_exp_spec y Hy) as [Hy1 _]. rewrite <- Hny in Hy1.
    rewrite two_pow_add in Hy1.
    assert (Hsy : two_pow 52 <= y / two_pow (ulp_exp y)).
    { apply Qle_shift_div_l; [exact HPy|exact Hy1]. }
    apply Qfloor_resp_le in Hsy.
    assert (Hf52 : Qfloor (two_pow 52) = (2 ^ 52)%Z).
    { rewrite (Qfloor_comp _ _ (two_pow_Z 52 ltac:(lia))). apply Qfloor_Z. }
    rewrite Hf52 in Hsy.
    assert (H1 : inject_Z mx <= inject_Z (2 ^ 53)) by (rewrite <- Zle_Qle; lia).
    assert (H2 : inject_Z (2 ^ 52) <= inject_Z my) by (rewrite <- Zle_Qle; lia).
    rewrite <- !two_pow_Z in H1, H2 by lia.
    assert (H3 : two_pow (53 + ulp_exp x) <= two_pow (52 + ulp_exp y))
      by (apply two_pow_le; lia).
    rewrite !two_pow_add in H3.
    set (Px := two_pow (ulp_exp x)) in *. set (Py := two_pow (ulp_exp y)) in *.
    set (A := two_pow 53) in *. set (B := two_pow 52) in *.
    assert (HB : 0 < B) by apply two_pow_pos.
    assert (inject_Z mx * Px <= A * Px) by nra.
    assert (B * Py <= inject_Z my * Py) by nra.
    lra.
Qed.

Lemma round_pos_nonneg x : 0 < x -> 0 <= round_pos x.
Proof.
  intros Hx. destruct (round_pos_eq x) as (m & -> & Hm).
  pose proof (two_pow_pos (ulp_exp x)) as HP.
  assert (Hs : 0 <= x / two_pow (ulp_exp x)).
  { apply Qle_shift_div_l; [exact HP|]. lra. }
  apply Qfloor_resp_le in Hs. change (Qfloor 0) with 0%Z in Hs.
  assert (H0 : inject_Z 0 <= inject_Z m) by (rewrite <- Zle_Qle; lia).
  change (inject_Z 0) with 0 in H0.
  apply Qmult_le_0_compat; lra.
Qed.

(** [round] on a positive value that does not overflow. *)
Lemma round_pos_case x :
  0 < x ->
  round x = if Qle_bool overflow_threshold (round_pos x) then Inf false
            else Fin (round_pos x).
Proof.
  intros Hx. unfold round.
  destruct (Qeq_bool x 0) eqn:E0.
  - apply Qeq_bool_iff in E0. lra.
  - destruct (Qlt_bool 0 x) eqn:E1; [reflexivity|].
    apply Qlt_bool_iff in Hx. congruence.
Qed.

Lemma round_zero_case x : x == 0 -> round x = Fin 0.
Proof.
  intros Hx. unfold round. apply Qeq_bool_iff in Hx. rewrite Hx. reflexivity.
Qed.

Lemma round_Fin_pos B vB :
  0 < B -> round B = Fin vB ->
  vB = round_pos B /\ Qle_bool overflow_threshold (round_pos B) = false.
Proof.
  intros HB. rewrite (round_pos_case B HB).
  destruct (Qle_bool overflow_threshold (round_pos B)); [discriminate|].
  intros [= <-]. split; reflexivity.
Qed.

(** Rounding is monotone on the non-negative values below a bound that
    does not overflow, and yields finite values there. *)
Lemma round_mono x y B vB :
  0 <= x -> x <= y -> y <= B -> round B = Fin vB ->
  exists vx vy,
    round x = Fin vx /\ round y = Fin vy /\ 0 <= vx /\ vx <= vy /\ vy <= vB.
Proof.
  intros Hx Hxy HyB HB.
  assert (Hfin : forall z, 0 < z -> z <= B ->
             round z = Fin (round_pos z) /\ round_pos z <= vB).
  { intros z Hz HzB.
    assert (HBpos : 0 < B) by lra.
    destruct (round_Fin_pos B vB HBpos HB) as [-> Hov].
    pose proof (round_pos_mono z B Hz HzB) as Hm.
    rewrite (round_pos_case z Hz).
    destruct (Qle_bool overflow_threshold (round_pos z)) eqn:E.
    - apply Qle_bool_iff in E.
      assert (E' : Qle_bool overflow_threshold (round_pos B) = true)
        by (apply Qle_bool_iff; lra).
      congruence.
    - split; [reflexivity|exact Hm]. }
  destruct (Qlt_le_dec 0 x) as [Hx0|Hx0].
  - assert (Hy0 : 0 < y) by lra.
    destruct (Hfin x Hx0 ltac:(lra)) as [Ex _].
    destruct (Hfin y Hy0 HyB) as [Ey Hyb].
    exists (round_pos x), (round_pos y).
    repeat split; try assumption.
    + apply round_pos_nonneg; exact Hx0.
    + apply round_pos_mono; assumption.
  - assert (Hxz : x == 0) by lra.
    destruct (Qlt_le_dec 0 y) as [Hy0|Hy0].
    + destruct (Hfin y Hy0 HyB) as [Ey Hyb].
      exists 0, (round_pos y). repeat split; try assumption.
      * apply round_zero_case; exact Hxz.
      * lra.
      * apply round_pos_nonneg; exact Hy0.
    + assert (Hyz : y == 0) by lra.
      exists 0, 0. repeat split; try (apply round_zero_case; assumption); try lra.
      destruct (Qlt_le_dec 0 B) as [HB0|HB0].
      * destruct (round_Fin_pos B vB HB0 HB) as [-> _].
        apply round_pos_nonneg; exact HB0.
      * assert (HBz : B == 0) by lra.
        rewrite (round_zero_case B HBz) in HB. injection HB as <-. lra.
Qed.


Lemma round_two63 : round two63 = Fin (round_pos two63) /\ round_pos two63 == two63.
Proof. split; vm_compute; reflexivity. Qed.

Lemma round_one : round 1 = Fin (round_pos 1) /\ round_pos 1 == 1.
Proof. split; vm_compute; reflexivity. Qed.

Lemma round_hundred : round 100 = Fin (round_pos 100) /\ round_pos 100 == 100.
Proof. split; vm_compute; reflexivity. Qed.

Lemma of_int_hundred : of_int 100 = Fin (round_pos 100).
Proof. vm_compute. reflexivity. Qed.

(** The percentage of [read] out of [total], for
    [0 <= read <= total], [0 < total <= MaxInt64]: the rational the
    three operations produce, before the conversion to [int]. *)
Lemma percentage_float r1 r2 t :
  (0 <= r1)%Z -> (r1 <= r2)%Z -> (r2 <= t)%Z -> (0 < t)%Z -> (t <= MaxInt64)%Z ->
  exists p1 p2,
    mul (div (of_int r1) (of_int t)) (of_int 100) = Fin p1
    /\ mul (div (of_int r2) (of_int t)) (of_int 100) = Fin p2
    /\ 0 <= p1 /\ p1 <= p2 /\ p2 <= 100.
Proof.
  intros H0 H12 H2t Ht Hmax.
  destruct round_two63 as [E63 V63]. destruct round_one as [E1 V1].
  destruct round_hundred as [E100 V100].
  assert (Hinj : forall a b, (a <= b)%Z -> inject_Z a <= inject_Z b)
    by (intros; rewrite <- Zle_Qle; assumption).
  assert (Ht63 : inject_Z t <= two63).
  { apply Hinj. unfold MaxInt64 in Hmax. lia. }
  (* the three conversions *)
  destruct (round_mono (inject_Z r1) (inject_Z r2) two63 _
              ltac:(apply (Hinj 0%Z); lia) ltac:(apply Hinj; lia)
              ltac:(pose proof (Hinj r2 t H2t); lra) E63)
    as (a1 & a2 & Ea1 & Ea2 & Ha1 & Ha12 & _).
  destruct (round_mono (inject_Z r2) (inject_Z t) two63 _
              ltac:(apply (Hinj 0%Z); lia) ltac:(apply Hinj; lia) Ht63 E63)
    as (a2' & b & Ea2' & Eb & _ & Ha2b & _).
  rewrite Ea2 in Ea2'. injection Ea2' as <-.
  destruct (round_mono 1 (inject_Z t) two63 _
              ltac:(lra) ltac:(apply (Hinj 1%Z); lia) Ht63 E63)
    as (one & b' & Eone & Eb' & _ & H1b & _).
  rewrite Eb in Eb'. injection Eb' as <-.
  rewrite E1 in Eone. injection Eone as <-.
  assert (Hb : 0 < b) by lra.
  unfold of_int. rewrite Ea1, Ea2, Eb.
  change (round (inject_Z 100)) with (of_int 100). rewrite of_int_hundred.
  unfold div.
  assert (Eb0 : Qeq_bool b 0 = false).
  { destruct (Qeq_bool b 0) eqn:E; [|reflexivity].
    apply Qeq_bool_iff in E. lra. }
  rewrite Eb0.
  (* the quotients *)
  assert (Hq1 : 0 <= a1 / b) by (apply Qle_shift_div_l; lra).
  assert (Hq12 : a1 / b <= a2 / b).
  { apply Qle_shift_div_l; [exact Hb|].
    setoid_replace (a1 / b * b) with a1 by (field; lra). exact Ha12. }
  assert (Hq2 : a2 / b <= 1) by (apply Qle_shift_div_r; lra).
  destruct (round_mono (a1 / b) (a2 / b) 1 _ Hq1 Hq12 Hq2 E1)
    as (q1 & q2 & Eq1 & Eq2 & Hq1' & Hq12' & Hq2').
  rewrite Eq1, Eq2. unfold mul.
  (* the products *)
  set (c := round_pos 100) in *.
  destruct (round_mono (q1 * c) (q2 * c) 100 _
              ltac:(nra) ltac:(nra) ltac:(nra) E100)
    as (p1 & p2 & Ep1 & Ep2 & Hp1 & Hp12 & Hp2).
  exists p1, p2. repeat split; try assumption. lra.
Qed.

Lemma to_int_small c p :
  0 <= p -> p <= 100 -> to_int c (Fin p) = Qfloor p /\ (0 <= Qfloor p <= 100)%Z.
Proof.
  intros H0 H100. unfold to_int, truncate.
  assert (E : Qle_bool 0 p = true) by (apply Qle_bool_iff; exact H0).
  rewrite E.
  pose proof (Qfloor_resp_le _ _ H0) as Hf0. change (Qfloor 0) with 0%Z in Hf0.
  pose proof (Qfloor_resp_le _ _ H100) as Hf1.
  change (Qfloor 100) with 100%Z in Hf1.
  assert (E1 : (MaxInt64 <? Qfloor p)%Z = false)
    by (apply Z.ltb_ge; unfold MaxInt64; lia).
  assert (E2 : (Qfloor p <? MinInt64)%Z = false)
    by (apply Z.ltb_ge; unfold MinInt64; lia).
  rewrite E1, E2. split; [reflexivity|lia].
Qed.

End Float64Facts.

(** The percentage computed by the reader is monotone in the bytes read
    and stays between 0 and 100 while no more than the total was read. *)
Lemma percentage_of_mono c r1 r2 t :
  (0 <= r1)%Z -> (r1 <= r2)%Z -> (r2 <= t)%Z -> (0 < t)%Z ->
  (t <= Float64.MaxInt64)%Z ->
  (0 <= percentage_of c r1 t)%Z
  /\ (percentage_of c r1 t <= percentage_of c r2 t)%Z
  /\ (percentage_of c r2 t <= 100)%Z.
Proof.
  intros H0 H12 H2t Ht Hmax.
  destruct (Float64Facts.percentage_float r1 r2 t H0 H12 H2t Ht Hmax)
    as (p1 & p2 & E1 & E2 & Hp1 & Hp12 & Hp2).
  unfold percentage_of. rewrite E1, E2.
  destruct (Float64Facts.to_int_small c p1 Hp1 ltac:(lra)) as [-> B1].
  destruct (Float64Facts.to_int_small c p2 ltac:(lra) Hp2) as [-> B2].
  pose proof (Qfloor_resp_le _ _ Hp12). lia.
Qed.

(** * Stepping through the world *)

Section Steps.

Variable e : Env.

Lemma bind_Done {A B} (m : M A) (k : A -> M B) w a w1 :
  m w = Done a w1 -> bind m k w = k a w1.
Proof. unfold bind. intros ->. reflexivity. Qed.

Lemma bind_Exited {A B} (m : M A) (k : A -> M B) w c w1 :
  m w = Exited c w1 -> bind m k w = Exited c w1.
Proof. unfold bind. intros ->. reflexivity. Qed.

Lemma prints_app l1 l2 : prints (l1 ++ l2) = (prints l1 ++ prints l2)%list.
Proof.
  induction l1 as [|ev l1 IH]; [reflexivity|].
  destruct ev; simpl; rewrite IH; reflexivity.
Qed.

(** A call on the tree returns, and logs itself and nothing else. *)
Lemma sys_spec op name p f w :
  exists r n',
    sys e op name p f w
    = Done r {| fs := n'; trace := trace w ++ [EvSys op]; deferred := deferred w |}
    /\ ((r = None /\ fault e op = false /\ f (fs w) = Ok n')
        \/ (r <> None /\ n' = fs w)).
Proof.
  unfold sys, bind, emit, ret, get_fs, put_fs. cbn [fs trace deferred].
  destruct (fault e op) eqn:Hf.
  - eexists _, _. split; [reflexivity|]. right. split; [discriminate|reflexivity].
  - cbn [fs trace deferred]. destruct (f (fs w)) as [n'|x] eqn:Hfs.
    + eexists _, _. split; [reflexivity|]. left. auto.
    + eexists _, _. split; [reflexivity|]. right. split; [discriminate|reflexivity].
Qed.

Lemma print_all_spec l w :
  print_all l w
  = Done tt {| fs := fs w; trace := trace w ++ map EvPrint l; deferred := deferred w |}.
Proof.
  revert w. induction l as [|s l IH]; intros w.
  - simpl. unfold ret. rewrite app_nil_r. destruct w; reflexivity.
  - simpl. unfold bind, print, emit. rewrite IH. cbn [fs trace deferred].
    rewrite <- app_assoc. reflexivity.
Qed.

Lemma prints_map_EvPrint l : prints (map EvPrint l) = l.
Proof. induction l; simpl; congruence. Qed.

End Steps.

(** * The progress reader *)

Lemma wrap64_small z : - 2 ^ 63 <= z < 2 ^ 63 -> wrap64 z = z.
Proof. intros H. unfold wrap64. rewrite Z.mod_small; lia. Qed.

Lemma chunk_len_nonneg ch : 0 <= chunk_len ch.
Proof. unfold chunk_len. lia. Qed.

(** One read, while the bytes read stay within the total. *)
Lemma progressReader_Read_spec c pr ch :
  0 < totalBytes pr <= Float64.MaxInt64 ->
  0 <= readBytes pr ->
  readBytes pr + chunk_len ch <= totalBytes pr ->
  exists pr' out,
    progressReader_Read c pr ch = (pr', out)
    /\ totalBytes pr' = totalBytes pr
    /\ readBytes pr' = readBytes pr + chunk_len ch
    /\ (out = []
        \/ out = [renderProgressBar (percentage_of c (readBytes pr') (totalBytes pr))]).
Proof.
  intros Ht H0 Hsum. pose proof (chunk_len_nonneg ch) as Hn.
  unfold progressReader_Read. fold (chunk_len ch). cbn [totalBytes readBytes lastPercentage lastUpdateTime].
  assert (Hw : wrap64 (readBytes pr + chunk_len ch) = readBytes pr + chunk_len ch).
  { apply wrap64_small. unfold Float64.MaxInt64 in Ht. lia. }
  rewrite Hw.
  destruct (100 * Millisecond <? t_since ch - lastUpdateTime pr).
  - destruct (negb (percentage_of c (readBytes pr + chunk_len ch) (totalBytes pr)
                    =? lastPercentage pr)
              && (percentage_of c (readBytes pr + chunk_len ch) (totalBytes pr) <=? 100)).
    + eexists _, _. split; [reflexivity|]. cbn. auto.
    + eexists _, _. split; [reflexivity|]. cbn. auto.
  - eexists _, _. split; [reflexivity|]. cbn. auto.
Qed.


Lemma sum_len_nonneg cs : 0 <= sum_len cs.
Proof.
  induction cs as [|ch cs IH]; unfold sum_len in *; simpl; [lia|].
  pose proof (chunk_len_nonneg ch). lia.
Qed.

Section Copy.

Variable e : Env.
Variable out : string.

Let pct (pr : progressReader) : Z :=
  percentage_of (conversion e) (readBytes pr) (totalBytes pr).

(** The rounds of a copy print bars whose percentages rise from the one
    of the bytes read before to the one of the bytes read after. *)
Lemma copy_rounds_spec cs : forall pr w k,
  0 < totalBytes pr <= Float64.MaxInt64 ->
  0 <= readBytes pr ->
  0 <= k ->
  readBytes pr + sum_len cs + k <= totalBytes pr ->
  exists pr' err w' evs ps,
    copy_rounds e out pr cs w = Done (pr', err) w'
    /\ trace w' = (trace w ++ evs)%list
    /\ prints evs = map renderProgressBar ps
    /\ StronglySorted Z.le ps
    /\ Forall (fun p => pct pr <= p <= pct pr') ps
    /\ totalBytes pr' = totalBytes pr
    /\ readBytes pr <= readBytes pr'
    /\ readBytes pr' + k <= totalBytes pr.
Proof.
  induction cs as [|ch cs IH]; intros pr w k Ht H0 Hk Hsum.
  - exists pr, None, w, [], []. simpl. unfold ret.
    rewrite app_nil_r. unfold sum_len in Hsum. simpl in Hsum.
    repeat split; try constructor; lia.
  - unfold sum_len in Hsum. simpl in Hsum. fold (sum_len cs) in Hsum.
    pose proof (sum_len_nonneg cs) as Hcs.
    pose proof (chunk_len_nonneg ch) as Hch.
    destruct (progressReader_Read_spec (conversion e) pr ch Ht H0 ltac:(lia))
      as (pr1 & printed & ERead & Ht1 & Hr1 & Hout).
    cbn [copy_rounds]. rewrite ERead.
    assert (Hmono : pct pr <= pct pr1 <= 100 /\ 0 <= pct pr).
    { unfold pct. rewrite Ht1.
      destruct (percentage_of_mono (conversion e) (readBytes pr) (readBytes pr1)
                  (totalBytes pr)) as (Ha & Hb & Hc); lia. }
    erewrite bind_Done by apply print_all_spec.
    set (w1 := {| fs := fs w; trace := trace w ++ map EvPrint printed;
                  deferred := deferred w |}).
    assert (Hwrite : exists ew w2,
               (if 0 <? Z.of_nat (String.length (data ch))
                then file_Write e out (data ch) else ret None) w1 = Done ew w2
               /\ exists evw, trace w2 = (trace w1 ++ evw)%list /\ prints evw = []).
    { destruct (0 <? Z.of_nat (String.length (data ch))).
      - unfold file_Write.
        destruct (sys_spec e (OpWrite out) "write" out
                    (FS.append (data ch) (Filepath.elements out)) w1)
          as (r & n' & -> & _).
        eexists _, _. split; [reflexivity|]. eexists. split; [reflexivity|reflexivity].
      - exists None, w1. split; [reflexivity|]. exists []. rewrite app_nil_r. auto. }
    destruct Hwrite as (ew & w2 & EW & evw & Htr2 & Hpw).
    erewrite bind_Done by exact EW.
    assert (Hps1 : exists ps1, printed = map renderProgressBar ps1
               /\ Forall (fun p => pct pr <= p <= pct pr1) ps1
               /\ StronglySorted Z.le ps1).
    { destruct Hout as [->| ->].
      - exists []. repeat constructor.
      - exists [percentage_of (conversion e) (readBytes pr1) (totalBytes pr)].
        split; [reflexivity|]. split.
        + constructor; [|constructor]. unfold pct in *. rewrite Ht1 in *. lia.
        + repeat constructor. }
    destruct Hps1 as (ps1 & -> & Hb1 & Hs1).
    destruct ew as [m|].
    + (* the write failed: the copy stops *)
      exists pr1, (Some m), w2, (map EvPrint (map renderProgressBar ps1) ++ evw), ps1.
      unfold ret. split; [reflexivity|].
      rewrite Htr2. unfold w1. cbn [trace]. rewrite app_assoc.
      split; [reflexivity|].
      rewrite prints_app, prints_map_EvPrint, Hpw, app_nil_r.
      repeat split; try assumption; lia.
    + destruct (IH pr1 w2 k ltac:(lia) ltac:(lia) Hk ltac:(lia))
        as (pr' & err & w' & evs & ps & ERest & Htr & Hpr & Hsorted & Hb & Ht' & Hr' & Hk').
      exists pr', err, w', (map EvPrint (map renderProgressBar ps1) ++ evw ++ evs),
        (ps1 ++ ps).
      split; [exact ERest|].
      split.
      { rewrite Htr, Htr2. unfold w1. cbn [trace]. rewrite <- !app_assoc. reflexivity. }
      split.
      { rewrite !prints_app, prints_map_EvPrint, Hpw, Hpr, map_app. reflexivity. }
      assert (Hpct1 : pct pr1 <= pct pr').
      { unfold pct. rewrite Ht', Ht1.
        destruct (percentage_of_mono (conversion e) (readBytes pr1) (readBytes pr')
                    (totalBytes pr)) as (Ha & Hb' & Hc); lia. }
      split.
      { clear - Hs1 Hsorted Hb1 Hb.
        induction ps1 as [|p ps1 IHp]; [exact Hsorted|].
        simpl. inversion Hs1; subst. inversion Hb1; subst.
        constructor; [apply IHp; assumption|].
        apply Forall_app. split; [assumption|].
        eapply Forall_impl; [|exact Hb]. simpl. intros a Ha. lia. }
      split.
      { apply Forall_app. split.
        - eapply Forall_impl; [|exact Hb1]. simpl. intros a Ha. lia.
        - eapply Forall_impl; [|exact Hb]. simpl. intros a Ha. lia. }
      repeat split; lia.
Qed.

End Copy.

Section Download.

Variable e : Env.

Lemma http_request_spec method url w :
  http_request e method url w
  = Done (if String.eqb method "HEAD" then http_Head e url else http_Get e url)
      {| fs := fs w; trace := trace w ++ [EvHttp method url]; deferred := deferred w |}.
Proof. reflexivity. Qed.

Lemma print_spec s w :
  print s w
  = Done tt {| fs := fs w; trace := trace w ++ [EvPrint s]; deferred := deferred w |}.
Proof. reflexivity. Qed.

(** A whole copy through the progress reader: the bars it prints show
    percentages that never fall, all between 0 and 100. *)
Lemma io_Copy_progress_spec out total t0 b w :
  0 < total <= Float64.MaxInt64 ->
  body_length b = total ->
  exists err w' evs ps,
    io_Copy_progress e out (newProgressReader total t0) b w = Done err w'
    /\ trace w' = trace w ++ evs
    /\ prints evs = map renderProgressBar ps
    /\ StronglySorted Z.le ps
    /\ Forall (fun p => 0 <= p <= 100) ps.
Proof.
  intros Ht Hlen. unfold body_length in Hlen. fold (sum_len (reads b)) in Hlen.
  pose proof (chunk_len_nonneg (final b)) as Hfin.
  set (pr0 := newProgressReader total t0).
  destruct (copy_rounds_spec e out (reads b) pr0 w (chunk_len (final b)))
    as (pr1 & err & w1 & evs1 & ps1 & ECopy & Htr1 & Hpr1 & Hs1 & Hb1 & Ht1 & Hr1 & Hk1);
    try (cbn [pr0 newProgressReader totalBytes readBytes]; lia).
  cbn [pr0 newProgressReader totalBytes readBytes] in *.
  assert (Hlo : 0 <= percentage_of (conversion e) 0 total).
  { destruct (percentage_of_mono (conversion e) 0 0 total) as (Ha & _ & _); lia. }
  assert (Hhi : forall r, 0 <= r <= total -> percentage_of (conversion e) 0 total
                              <= percentage_of (conversion e) r total <= 100).
  { intros r Hr.
    destruct (percentage_of_mono (conversion e) 0 r total) as (Ha & Hb & Hc); lia. }
  unfold io_Copy_progress. erewrite bind_Done by exact ECopy.
  destruct err as [m|].
  - exists (Some m), w1, evs1, ps1. unfold ret.
    repeat split; try assumption.
    eapply Forall_impl; [|exact Hb1]. cbn. intros a Ha.
    rewrite Ht1 in Ha. specialize (Hhi (readBytes pr1) ltac:(lia)). lia.
  - destruct (progressReader_Read_spec (conversion e) pr1 (final b))
      as (pr2 & printed & ERead & Ht2 & Hr2 & Hout); try lia.
    rewrite ERead. erewrite bind_Done by apply print_all_spec.
    set (w2 := {| fs := fs w1; trace := trace w1 ++ map EvPrint printed;
                  deferred := deferred w1 |}).
    assert (Hps2 : exists ps2, printed = map renderProgressBar ps2
               /\ Forall (fun p => percentage_of (conversion e) (readBytes pr1) total
                                   <= p <= 100) ps2
               /\ StronglySorted Z.le ps2).
    { destruct Hout as [->| ->].
      - exists []. repeat constructor.
      - rewrite Ht1.
        exists [percentage_of (conversion e) (readBytes pr2) total].
        split; [reflexivity|]. split; [|repeat constructor].
        constructor; [|constructor].
        destruct (percentage_of_mono (conversion e) (readBytes pr1) (readBytes pr2)
                    total) as (Ha & Hb & Hc); lia. }
    destruct Hps2 as (ps2 & -> & Hb2 & Hs2).
    assert (Hwrite : exists ew w3,
               (if 0 <? Z.of_nat (String.length (data (final b)))
                then file_Write e out (data (final b)) else ret None) w2 = Done ew w3
               /\ exists evw, trace w3 = trace w2 ++ evw /\ prints evw = []).
    { destruct (0 <? Z.of_nat (String.length (data (final b)))).
      - unfold file_Write.
        destruct (sys_spec e (OpWrite out) "write" out
                    (FS.append (data (final b)) (Filepath.elements out)) w2)
          as (r & n' & -> & _).
        eexists _, _. split; [reflexivity|]. eexists. split; reflexivity.
      - exists None, w2. split; [reflexivity|]. exists []. rewrite app_nil_r. auto. }
    destruct Hwrite as (ew & w3 & EW & evw & Htr3 & Hpw).
    erewrite bind_Done by exact EW.
    exists (match ew with Some m => Some m | None => goerr_to_error (final_err b) end),
      w3, (evs1 ++ map EvPrint (map renderProgressBar ps2) ++ evw), (ps1 ++ ps2).
    split; [destruct ew; reflexivity|].
    split.
    { rewrite Htr3. unfold w2. cbn [trace]. rewrite Htr1, <- !app_assoc. reflexivity. }
    split.
    { rewrite !prints_app, prints_map_EvPrint, Hpw, Hpr1, map_app, app_nil_r.
      reflexivity. }
    assert (Hb1' : Forall (fun p => p <= percentage_of (conversion e) (readBytes pr1) total) ps1).
    { eapply Forall_impl; [|exact Hb1]. cbn. intros a Ha. rewrite Ht1 in Ha. lia. }
    split.
    { clear - Hs1 Hs2 Hb1' Hb2.
      set (q := percentage_of (conversion e) (readBytes pr1) total) in *.
      clearbody q.
      induction ps1 as [|p ps1 IHp]; [exact Hs2|].
      simpl. inversion Hs1 as [|? ? Hs1' Hall]; subst.
      inversion Hb1' as [|? ? Hp Hrest]; subst.
      constructor; [apply IHp; assumption|].
      apply Forall_app. split; [assumption|].
      eapply Forall_impl; [|exact Hb2]. cbn. intros a Ha. lia. }
    apply Forall_app. split.
    + eapply Forall_impl; [|exact Hb1]. cbn. intros a Ha.
      rewrite Ht1 in Ha. specialize (Hhi (readBytes pr1) ltac:(lia)). lia.
    + eapply Forall_impl; [|exact Hb2]. cbn. intros a Ha.
      specialize (Hhi (readBytes pr1) ltac:(lia)). lia.
Qed.

End Download.

Lemma sorted_snoc_100 ps :
  StronglySorted Z.le ps -> Forall (fun p => 0 <= p <= 100) ps ->
  Sorted Z.le (ps ++ [100]).
Proof.
  intros Hs Hb. apply StronglySorted_Sorted.
  induction ps as [|p ps IH]; simpl.
  - repeat constructor.
  - inversion Hs; subst. inversion Hb; subst.
    constructor; [apply IH; assumption|].
    apply Forall_app. split; [assumption|]. constructor; [lia|constructor].
Qed.

Lemma last_snoc {A} (l : list A) (a d : A) : last (l ++ [a]) d = a.
Proof.
  induction l as [|x l IH]; [reflexivity|].
  simpl. destruct (l ++ [a]) eqn:E; [destruct l; discriminate|exact IH].
Qed.

(** C5. Whatever the reads of the body, as long as their byte counts sum
    to the announced positive total, the bars [downloadFileWithProgress]
    prints show percentages that never fall, all within 0..100; once the
    file was opened, and so whenever the download succeeds, the last bar
    shows exactly 100. *)
Theorem progress_bars_rise_to_100 (e : Env) (url path : string) (w : World) :
  (forall hr r, http_Head e url = Ok hr -> http_Get e url = Ok r ->
     0 < ContentLength hr <= Float64.MaxInt64
     /\ body_length (body r) = ContentLength hr) ->
  exists err w' evs ps,
    downloadFileWithProgress e url path w = Done err w'
    /\ trace w' = trace w ++ evs
    /\ prints evs = map renderProgressBar ps
    /\ Sorted Z.le ps
    /\ Forall (fun p => 0 <= p <= 100) ps
    /\ (ps <> [] -> last ps 0 = 100)
    /\ (err = None -> ps <> []).
Proof.
  intros Hbody. unfold downloadFileWithProgress.
  rewrite (bind_Done _ _ _ _ _ (http_request_spec e "HEAD" url w)).
  cbn [String.eqb Ascii.eqb Bool.eqb andb].
  destruct (http_Head e url) as [hr|m] eqn:EH.
  2:{ eexists (Some m), _, [EvHttp "HEAD" url], []. unfold ret. cbn.
      repeat split; try constructor; congruence. }
  destruct (negb (StatusCode hr =? StatusOK)).
  { eexists (Some _), _, [EvHttp "HEAD" url], []. unfold ret. cbn.
    repeat split; try constructor; congruence. }
  erewrite bind_Done by apply http_request_spec.
  cbn [String.eqb Ascii.eqb Bool.eqb andb].
  destruct (http_Get e url) as [r|m] eqn:EG.
  2:{ eexists (Some m), _, [EvHttp "HEAD" url; EvHttp "GET" url], []. unfold ret.
      cbn [trace]. rewrite <- app_assoc.
      repeat split; try constructor; congruence. }
  destruct (negb (StatusCode r =? StatusOK)).
  { eexists (Some _), _, [EvHttp "HEAD" url; EvHttp "GET" url], []. unfold ret.
    cbn [trace]. rewrite <- app_assoc.
    repeat split; try constructor; congruence. }
  destruct (Hbody hr r eq_refl eq_refl) as [Htot Hlen].
  unfold os_Create.
  match goal with |- context [sys e ?op ?nm ?p ?f] =>
    destruct (sys_spec e op nm p f
                {| fs := fs w;
                   trace := (trace w ++ [EvHttp "HEAD" url]) ++ [EvHttp "GET" url];
                   deferred := deferred w |}) as (oerr & n1 & ECreate & _)
  end.
  erewrite bind_Done by exact ECreate.
  destruct oerr as [m|].
  { eexists (Some m), _,
      [EvHttp "HEAD" url; EvHttp "GET" url; EvSys (OpCreate path)], [].
    unfold ret. cbn [trace]. rewrite <- !app_assoc.
    repeat split; try constructor; congruence. }
  match goal with |- context [io_Copy_progress e path ?pr ?b] =>
    destruct (io_Copy_progress_spec e path (ContentLength hr) (t_open (body r))
                (body r)
                {| fs := n1;
                   trace := ((trace w ++ [EvHttp "HEAD" url]) ++ [EvHttp "GET" url])
                              ++ [EvSys (OpCreate path)];
                   deferred := deferred w |} Htot Hlen)
      as (err & w1 & evs & ps & ECopy & Htr & Hpr & Hs & Hb)
  end.
  erewrite bind_Done by exact ECopy.
  erewrite bind_Done by apply print_spec.
  eexists err, _,
    ([EvHttp "HEAD" url; EvHttp "GET" url; EvSys (OpCreate path)] ++ evs
       ++ [EvPrint (renderProgressBar 100)]),
    (ps ++ [100]).
  unfold ret. split; [reflexivity|].
  split.
  { cbn [trace]. rewrite Htr. cbn [trace]. rewrite <- !app_assoc. reflexivity. }
  split.
  { rewrite !prints_app, Hpr, map_app. reflexivity. }
  split; [apply sorted_snoc_100; assumption|].
  split.
  { apply Forall_app. split; [assumption|]. constructor; [lia|constructor]. }
  split.
  - intros _. apply last_snoc.
  - intros _ H. destruct ps; discriminate.
Qed.

(** * A total of zero *)

Module ZeroTotal.
Import Float64 Float64Facts.
Local Open Scope Q_scope.

Lemma of_int_zero : of_int 0 = Fin 0.
Proof. reflexivity. Qed.

Lemma inject_Z_le a b : (a <= b)%Z -> inject_Z a <= inject_Z b.
Proof. intros H. rewrite <- Zle_Qle. exact H. Qed.

(** The conversion of a positive [int64]: finite and positive. *)
Lemma of_int_pos r :
  (0 < r)%Z -> (r <= 2 ^ 63)%Z -> exists v, of_int r = Fin v /\ 0 < v.
Proof.
  intros H0 H1. destruct round_two63 as [E63 V63]. destruct round_one as [E1 V1].
  destruct (round_mono 1 (inject_Z r) two63 _ ltac:(lra)
              ltac:(apply (inject_Z_le 1); lia)
              ltac:(apply inject_Z_le; lia) E63)
    as (one & v & Eone & Ev & _ & Hle & _).
  rewrite E1 in Eone. injection Eone as <-.
  exists v. split; [exact Ev|lra].
Qed.

(** The conversion of a negative [int64]: finite and negative. *)
Lemma of_int_neg r :
  (r < 0)%Z -> (- 2 ^ 63 <= r)%Z -> exists v, of_int r = Fin v /\ v < 0.
Proof.
  intros H0 H1.
  destruct (of_int_pos (- r) ltac:(lia) ltac:(lia)) as (v & Ev & Hv).
  assert (Hx : inject_Z r < 0) by (change 0 with (inject_Z 0); rewrite <- Zlt_Qlt; lia).
  unfold of_int in *.
  rewrite (round_pos_case (inject_Z (- r))) in Ev
    by (rewrite inject_Z_opp; lra).
  unfold round.
  destruct (Qeq_bool (inject_Z r) 0) eqn:E0.
  { apply Qeq_bool_iff in E0. lra. }
  destruct (Qlt_bool 0 (inject_Z r)) eqn:E1.
  { apply Qlt_bool_iff in E1. lra. }
  assert (Hrp : round_pos (- inject_Z r) = round_pos (inject_Z (- r))).
  { f_equal. }
  rewrite Hrp.
  destruct (Qle_bool overflow_threshold (round_pos (inject_Z (- r))));
    [discriminate|].
  injection Ev as <-. eexists. split; [reflexivity|]. lra.
Qed.

Lemma Qeq_bool_false x : ~ x == 0 -> Qeq_bool x 0 = false.
Proof.
  intros H. destruct (Qeq_bool x 0) eqn:E; [|reflexivity].
  apply Qeq_bool_iff in E. contradiction.
Qed.

Lemma is_neg_true v : v < 0 -> is_neg v = true.
Proof. intros H. apply Qlt_bool_iff. exact H. Qed.

Lemma is_neg_false v : 0 < v -> is_neg v = false.
Proof.
  intros H. unfold is_neg. destruct (Qlt_bool v 0) eqn:E; [|reflexivity].
  apply Qlt_bool_iff in E. lra.
Qed.

(** The quotient by a zero total: NaN for no bytes, an infinity of the
    sign of the bytes otherwise. *)
Lemma div_by_zero_total r :
  (- 2 ^ 63 <= r < 2 ^ 63)%Z ->
  div (of_int r) (of_int 0)
  = if (r =? 0)%Z then NaN else Inf (r <? 0)%Z.
Proof.
  intros Hr. rewrite of_int_zero.
  destruct (Z.eqb_spec r 0) as [->|Hne]; [reflexivity|].
  destruct (Z.ltb_spec r 0) as [Hneg|Hpos].
  - destruct (of_int_neg r Hneg ltac:(lia)) as (v & -> & Hv).
    cbn [div]. change (Qeq_bool 0 0) with true. cbv iota.
    rewrite Qeq_bool_false by lra. rewrite is_neg_true by exact Hv. reflexivity.
  - destruct (of_int_pos r ltac:(lia) ltac:(lia)) as (v & -> & Hv).
    cbn [div]. change (Qeq_bool 0 0) with true. cbv iota.
    rewrite Qeq_bool_false by lra. rewrite is_neg_false by exact Hv. reflexivity.
Qed.

End ZeroTotal.

(** The percentage for a total of zero is what the machine makes of a NaN
    or an infinity. *)
Lemma percentage_of_zero_total c r :
  - 2 ^ 63 <= r < 2 ^ 63 ->
  percentage_of c r 0
  = if r =? 0 then Float64.conv_nan c
    else if r <? 0 then Float64.conv_too_small c
    else Float64.conv_too_large c.
Proof.
  intros Hr. unfold percentage_of. rewrite (ZeroTotal.div_by_zero_total r Hr).
  destruct (r =? 0); [reflexivity|].
  destruct (r <? 0); vm_compute; reflexivity.
Qed.

Lemma wrap64_range z : - 2 ^ 63 <= wrap64 z < 2 ^ 63.
Proof.
  unfold wrap64. pose proof (Z.mod_pos_bound (z + 2 ^ 63) (2 ^ 64) ltac:(lia)). lia.
Qed.

(** C6, as the code has it.  With a total of zero the read still divides:
    in floating point, where the quotient is a NaN or an infinity and
    nothing faults.  What integer the conversion of that value gives is
    left to the machine; with it the read goes on as for any percentage:
    the bytes are accounted, and a bar is printed when the throttle
    interval has passed and the integer differs from the last percentage
    and is at most 100. *)
Theorem read_with_zero_total (c : Float64.Conversion) (pr : progressReader) (ch : Chunk) :
  totalBytes pr = 0 ->
  let r := wrap64 (readBytes pr + chunk_len ch) in
  let p := if r =? 0 then Float64.conv_nan c
           else if r <? 0 then Float64.conv_too_small c
           else Float64.conv_too_large c in
  Float64.div (Float64.of_int r) (Float64.of_int (totalBytes pr))
    = (if r =? 0 then Float64.NaN else Float64.Inf (r <? 0))
  /\ progressReader_Read c pr ch
     = if (100 * Millisecond <? t_since ch - lastUpdateTime pr)
          && negb (p =? lastPercentage pr) && (p <=? 100)
       then ({| totalBytes := 0; readBytes := r; lastPercentage := p;
                lastUpdateTime := t_now ch |}, [renderProgressBar p])
       else ({| totalBytes := 0; readBytes := r;
                lastPercentage := lastPercentage pr;
                lastUpdateTime := lastUpdateTime pr |}, []).
Proof.
  intros Ht r p. pose proof (wrap64_range (readBytes pr + chunk_len ch)) as Hr.
  fold r in Hr. split.
  - rewrite Ht. apply ZeroTotal.div_by_zero_total. exact Hr.
  - unfold progressReader_Read. fold (chunk_len ch). fold r.
    cbn [totalBytes readBytes lastPercentage lastUpdateTime]. rewrite Ht.
    rewrite (percentage_of_zero_total c r Hr). fold p.
    destruct (100 * Millisecond <? t_since ch - lastUpdateTime pr); [|reflexivity].
    cbn [andb].
    destruct (negb (p =? lastPercentage pr)); [|reflexivity].
    cbn [andb]. destruct (p <=? 100); reflexivity.
Qed.

(** The condition of C6 is met by a reader made with a total of zero; on
    arm64 its first read of four bytes prints nothing. *)
Lemma read_with_zero_total_witness :
  let pr := newProgressReader 0 0 in
  let ch := {| data := "abcd"; t_since := 200000000; t_now := 200000001 |} in
  totalBytes pr = 0
  /\ progressReader_Read Float64.arm64 pr ch
     = ({| totalBytes := 0; readBytes := 4; lastPercentage := 0; lastUpdateTime := 0 |},
        []).
Proof.
  intros pr ch. split; [reflexivity|].
  destruct (read_with_zero_total Float64.arm64 pr ch eq_refl) as [_ H].
  rewrite H. reflexivity.
Defined.

(** C6 does not hold as stated: on amd64 a read of four bytes with a total
    of zero computes a percentage, stores it and prints a bar for it. *)
Lemma read_with_zero_total_counterexample :
  let pr := newProgressReader 0 0 in
  let ch := {| data := "abcd"; t_since := 200000000; t_now := 200000001 |} in
  totalBytes pr = 0
  /\ lastPercentage (fst (progressReader_Read Float64.amd64 pr ch)) = - 2 ^ 63
  /\ snd (progressReader_Read Float64.amd64 pr ch)
     = [(cr ++ "Downloading: [                                                  ]   0%")%string].
Proof. vm_compute. repeat split; reflexivity. Qed.

(** * The tree *)

Module FSFacts.
Import FS.

Lemma assoc_set_child_eq k c es : assoc k (set_child k c es) = Some c.
Proof.
  induction es as [|[k' c'] es IH]; simpl.
  - rewrite String.eqb_refl. reflexivity.
  - destruct (String.eqb k k') eqn:E; simpl.
    + rewrite String.eqb_refl. reflexivity.
    + rewrite E. exact IH.
Qed.

Lemma assoc_set_child_neq j k c es :
  j <> k -> assoc j (set_child k c es) = assoc j es.
Proof.
  intros Hne. induction es as [|[k' c'] es IH]; simpl.
  - apply String.eqb_neq in Hne. rewrite Hne. reflexivity.
  - destruct (String.eqb k k') eqn:E; simpl.
    + apply String.eqb_eq in E. subst k'.
      apply String.eqb_neq in Hne. rewrite Hne. reflexivity.
    + destruct (String.eqb j k'); [reflexivity|exact IH].
Qed.

Lemma assoc_remove_child_eq k es : assoc k (remove_child k es) = None.
Proof.
  induction es as [|[k' c'] es IH]; simpl; [reflexivity|].
  destruct (String.eqb k k') eqn:E; simpl; [exact IH|].
  rewrite E. exact IH.
Qed.

Lemma assoc_remove_child_neq j k es :
  j <> k -> assoc j (remove_child k es) = assoc j es.
Proof.
  intros Hne. induction es as [|[k' c'] es IH]; simpl; [reflexivity|].
  destruct (String.eqb k k') eqn:E; simpl.
  - apply String.eqb_eq in E. subst k'.
    apply String.eqb_neq in Hne. rewrite Hne. exact IH.
  - destruct (String.eqb j k'); [reflexivity|exact IH].
Qed.

Lemma set_child_same k c es : assoc k es = Some c -> set_child k c es = es.
Proof.
  induction es as [|[k' c'] es IH]; simpl; [discriminate|].
  rewrite (String.eqb_sym k k').
  destruct (String.eqb k' k) eqn:E.
  - apply String.eqb_eq in E. subst k'. intros [= ->]. reflexivity.
  - intros H. rewrite (IH H). reflexivity.
Qed.

Lemma lookup_child k q m es :
  lookup (k :: q) (Dir m es)
  = match assoc k es with Some c => lookup q c | None => None end.
Proof. reflexivity. Qed.

Lemma lookup_File_cons k q m d : lookup (k :: q) (File m d) = None.
Proof. reflexivity. Qed.

(** What lies below a missing path is missing. *)
Lemma lookup_prefix_None p : forall q n,
  lookup p n = None -> lookup (p ++ q) n = None.
Proof.
  induction p as [|k p IH]; intros q n; simpl; [discriminate|].
  destruct n as [m d|m es]; [reflexivity|].
  destruct (assoc k es); [apply IH|reflexivity].
Qed.

Lemma lookup_app p : forall q n,
  lookup (p ++ q) n
  = match lookup p n with Some c => lookup q c | None => None end.
Proof.
  induction p as [|k p IH]; intros q n; simpl; [reflexivity|].
  destruct n as [m d|m es]; [reflexivity|].
  destruct (assoc k es); [apply IH|reflexivity].
Qed.

Lemma is_prefix_app a b : is_prefix a b = true -> exists r, b = a ++ r.
Proof.
  revert b. induction a as [|x a IH]; intros b; simpl.
  - eauto.
  - destruct b as [|y b]; [discriminate|].
    intros H. apply andb_true_iff in H. destruct H as [Hxy H].
    apply String.eqb_eq in Hxy. subst y.
    destruct (IH b H) as [r ->]. eauto.
Qed.

Lemma is_prefix_app_true a r : is_prefix a (a ++ r) = true.
Proof.
  induction a as [|x a IH]; simpl; [reflexivity|].
  rewrite String.eqb_refl. exact IH.
Qed.

Lemma is_prefix_refl a : is_prefix a a = true.
Proof. rewrite <- (app_nil_r a) at 2. apply is_prefix_app_true. Qed.

(** ** [mkdirAll] *)

(** [mkdirAll] leaves every file as it is. *)
Lemma mkdirAll_file mode p : forall n n' q m d,
  mkdirAll mode p n = Ok n' ->
  lookup q n = Some (File m d) -> lookup q n' = Some (File m d).
Proof.
  induction p as [|k p IH]; intros n n' q m d.
  - destruct n; simpl; [discriminate|]. intros [= <-]. auto.
  - destruct n as [m0 d0|m0 es]; cbn [mkdirAll]; [discriminate|].
    destruct (mkdirAll mode p
                match assoc k es with Some c => c | None => Dir mode [] end)
      as [c'|x] eqn:E; [|discriminate].
    intros [= <-]. destruct q as [|j q]; [simpl; discriminate|].
    rewrite !lookup_child.
    destruct (String.eqb_spec j k) as [->|Hne].
    + rewrite assoc_set_child_eq.
      destruct (assoc k es) as [c0|]; [|discriminate].
      apply (IH _ _ _ _ _ E).
    + rewrite (assoc_set_child_neq _ _ _ _ Hne). auto.
Qed.

(** [mkdirAll p] makes nothing that is not on the way to [p]. *)
Lemma mkdirAll_absent mode p : forall n n' q,
  mkdirAll mode p n = Ok n' ->
  lookup q n = None -> is_prefix q p = false -> lookup q n' = None.
Proof.
  induction p as [|k p IH]; intros n n' q.
  - destruct n; simpl; [discriminate|]. intros [= <-]. auto.
  - destruct n as [m0 d0|m0 es]; cbn [mkdirAll]; [discriminate|].
    destruct (mkdirAll mode p
                match assoc k es with Some c => c | None => Dir mode [] end)
      as [c'|x] eqn:E; [|discriminate].
    intros [= <-]. destruct q as [|j q]; [simpl; discriminate|].
    rewrite !lookup_child. cbn [is_prefix].
    destruct (String.eqb_spec j k) as [->|Hne].
    + rewrite assoc_set_child_eq. cbn [andb]. intros Hl Hp.
      apply (IH _ _ _ E); [|exact Hp].
      destruct (assoc k es) as [c0|]; [exact Hl|].
      destruct q; [discriminate Hp|reflexivity].
    + rewrite (assoc_set_child_neq _ _ _ _ Hne). auto.
Qed.

(** [mkdirAll] on a directory that exists changes nothing. *)
Lemma mkdirAll_existing mode p : forall n m es,
  lookup p n = Some (Dir m es) -> mkdirAll mode p n = Ok n.
Proof.
  induction p as [|k p IH]; intros n m es.
  - simpl. intros [= ->]. reflexivity.
  - destruct n as [m0 d0|m0 es0]; [simpl; discriminate|].
    rewrite lookup_child. cbn [mkdirAll].
    destruct (assoc k es0) as [c0|] eqn:Ea; [|discriminate].
    intros H. rewrite (IH _ _ _ H). rewrite (set_child_same _ _ _ Ea). reflexivity.
Qed.

(** After [mkdirAll p], [p] is a directory. *)
Lemma mkdirAll_is_dir mode p : forall n n',
  mkdirAll mode p n = Ok n' -> exists m es, lookup p n' = Some (Dir m es).
Proof.
  induction p as [|k p IH]; intros n n'.
  - destruct n; simpl; [discriminate|]. intros [= <-]. eauto.
  - destruct n as [m0 d0|m0 es]; cbn [mkdirAll]; [discriminate|].
    destruct (mkdirAll mode p
                match assoc k es with Some c => c | None => Dir mode [] end)
      as [c'|x] eqn:E; [|discriminate].
    intros [= <-]. rewrite lookup_child, assoc_set_child_eq. eauto.
Qed.

End FSFacts.

(** * Frames: what a change at one path leaves alone at another *)

Module Frame.
Import FS FSFacts.

Lemma is_prefix_nil_r a : is_prefix a [] = true -> a = [].
Proof. destruct a; [reflexivity|discriminate]. Qed.

Lemma is_prefix_trans a b c :
  is_prefix a b = true -> is_prefix b c = true -> is_prefix a c = true.
Proof.
  intros H1 H2. destruct (is_prefix_app _ _ H1) as [r ->].
  destruct (is_prefix_app _ _ H2) as [r' ->].
  rewrite <- app_assoc. apply is_prefix_app_true.
Qed.

(** Two prefixes of one path are comparable. *)
Lemma is_prefix_comparable a : forall b q,
  is_prefix a q = true -> is_prefix b q = true ->
  is_prefix a b = true \/ is_prefix b a = true.
Proof.
  induction a as [|x a IH]; intros b q Ha Hb; [left; reflexivity|].
  destruct b as [|y b]; [right; reflexivity|].
  destruct q as [|z q]; [discriminate|].
  simpl in *. apply andb_true_iff in Ha, Hb.
  destruct Ha as [Hxz Ha], Hb as [Hyz Hb].
  apply String.eqb_eq in Hxz, Hyz. subst.
  rewrite String.eqb_refl. simpl. eapply IH; eauto.
Qed.

Lemma is_prefix_antisym a : forall b,
  is_prefix a b = true -> is_prefix b a = true -> a = b.
Proof.
  induction a as [|x a IH]; intros b H1 H2.
  - symmetry. apply is_prefix_nil_r. exact H2.
  - destruct b as [|y b]; [discriminate|]. simpl in *.
    apply andb_true_iff in H1, H2. destruct H1 as [Hxy H1], H2 as [_ H2].
    apply String.eqb_eq in Hxy. subst. f_equal. apply IH; assumption.
Qed.

(** What exists has all its prefixes. *)
Lemma lookup_prefix_exists a b n :
  is_prefix a b = true -> lookup b n <> None -> lookup a n <> None.
Proof.
  intros H Hb Ha. destruct (is_prefix_app _ _ H) as [r ->].
  apply Hb. apply lookup_prefix_None. exact Ha.
Qed.


(** ** Changes made with [update] *)

Lemma update_absent f p : forall n n' V,
  leaf_like f -> update f p n = Ok n' ->
  lookup V n = None -> V <> p -> lookup V n' = None.
Proof.
  induction p as [|k p IH]; intros n n' V Hleaf; [simpl; discriminate|].
  destruct n as [m0 d0|m0 es]; cbn [update]; [discriminate|].
  destruct V as [|j V]; [simpl; discriminate|].
  destruct p as [|k2 p2].
  - destruct (f (assoc k es)) as [[c|]|x] eqn:Ef; [| |discriminate];
      intros [= <-]; rewrite !lookup_child;
      destruct (String.eqb_spec j k) as [->|Hne].
    + rewrite assoc_set_child_eq. intros Hl HV.
      assert (HVne : V <> []) by (intros ->; apply HV; reflexivity).
      rewrite (Hleaf _ _ _ Ef HVne). destruct (assoc k es); assumption.
    + rewrite (assoc_set_child_neq _ _ _ _ Hne). auto.
    + rewrite assoc_remove_child_eq. reflexivity.
    + rewrite (assoc_remove_child_neq _ _ _ Hne). auto.
  - destruct (assoc k es) as [c0|] eqn:Ea; [|discriminate].
    destruct (update f (k2 :: p2) c0) as [c0'|x] eqn:Eu; [|discriminate].
    intros [= <-]. rewrite !lookup_child.
    destruct (String.eqb_spec j k) as [->|Hne].
    + rewrite assoc_set_child_eq, Ea. intros Hl HV.
      apply (IH _ _ _ Hleaf Eu Hl). congruence.
    + rewrite (assoc_set_child_neq _ _ _ _ Hne). auto.
Qed.

(** An [update] that removes nothing keeps what exists. *)
Lemma update_present f p : forall n n' q,
  leaf_like f -> (forall o, f o <> Ok None) -> update f p n = Ok n' ->
  lookup q n <> None -> lookup q n' <> None.
Proof.
  induction p as [|k p IH]; intros n n' q Hleaf Hkeep; [simpl; discriminate|].
  destruct n as [m0 d0|m0 es]; cbn [update]; [discriminate|].
  destruct p as [|k2 p2].
  - destruct (f (assoc k es)) as [[c|]|x] eqn:Ef; [| |discriminate].
    2:{ exfalso. exact (Hkeep _ Ef). }
    intros [= <-]. destruct q as [|j q]; [simpl; discriminate|].
    rewrite !lookup_child.
    destruct (String.eqb_spec j k) as [->|Hne].
    + rewrite assoc_set_child_eq. destruct q as [|j2 q2]; [simpl; discriminate|].
      rewrite (Hleaf _ _ (j2 :: q2) Ef ltac:(discriminate)).
      destruct (assoc k es); auto.
    + rewrite (assoc_set_child_neq _ _ _ _ Hne). auto.
  - destruct (assoc k es) as [c0|] eqn:Ea; [|discriminate].
    destruct (update f (k2 :: p2) c0) as [c0'|x] eqn:Eu; [|discriminate].
    intros [= <-]. destruct q as [|j q]; [simpl; discriminate|].
    rewrite !lookup_child.
    destruct (String.eqb_spec j k) as [->|Hne].
    + rewrite assoc_set_child_eq, Ea. apply (IH _ _ _ Hleaf Hkeep Eu).
    + rewrite (assoc_set_child_neq _ _ _ _ Hne). auto.
Qed.

(** An [update] at [p] changes nothing at a path that neither lies on the
    way to [p] nor below it. *)
Lemma update_frame f p : forall n n' q,
  update f p n = Ok n' ->
  is_prefix q p = false -> is_prefix p q = false -> lookup q n' = lookup q n.
Proof.
  induction p as [|k p IH]; intros n n' q; [simpl; discriminate|].
  destruct n as [m0 d0|m0 es]; cbn [update]; [discriminate|].
  destruct q as [|j q]; [simpl; discriminate|].
  cbn [is_prefix].
  destruct p as [|k2 p2].
  - destruct (f (assoc k es)) as [[c|]|x] eqn:Ef; [| |discriminate];
      intros [= <-]; rewrite !lookup_child;
      destruct (String.eqb_spec j k) as [->|Hne].
    + rewrite String.eqb_refl. simpl. discriminate.
    + rewrite (assoc_set_child_neq _ _ _ _ Hne). auto.
    + rewrite String.eqb_refl. simpl. discriminate.
    + rewrite (assoc_remove_child_neq _ _ _ Hne). auto.
  - destruct (assoc k es) as [c0|] eqn:Ea; [|discriminate].
    destruct (update f (k2 :: p2) c0) as [c0'|x] eqn:Eu; [|discriminate].
    intros [= <-]. rewrite !lookup_child.
    destruct (String.eqb_spec j k) as [->|Hne].
    + rewrite String.eqb_refl. cbn [andb]. rewrite assoc_set_child_eq, Ea.
      apply (IH _ _ _ Eu).
    + rewrite (assoc_set_child_neq _ _ _ _ Hne). auto.
Qed.

(** What an [update] leaves at the path itself. *)
Lemma update_at f p : forall n n',
  update f p n = Ok n' ->
  exists o, f (lookup p n) = Ok o /\ lookup p n' = o.
Proof.
  induction p as [|k p IH]; intros n n'; [simpl; discriminate|].
  destruct n as [m0 d0|m0 es]; cbn [update]; [discriminate|].
  destruct p as [|k2 p2].
  - rewrite lookup_child.
    assert (Hl : match assoc k es with Some c => lookup [] c | None => None end
                 = assoc k es) by (destruct (assoc k es); reflexivity).
    rewrite Hl.
    destruct (f (assoc k es)) as [[c|]|x] eqn:Ef; [| |discriminate];
      intros [= <-]; eexists; (split; [reflexivity|]); rewrite lookup_child.
    + rewrite assoc_set_child_eq. reflexivity.
    + rewrite assoc_remove_child_eq. reflexivity.
  - destruct (assoc k es) as [c0|] eqn:Ea; [|discriminate].
    destruct (update f (k2 :: p2) c0) as [c0'|x] eqn:Eu; [|discriminate].
    intros [= <-]. rewrite !lookup_child, assoc_set_child_eq, Ea.
    apply (IH _ _ Eu).
Qed.

(** An [update] succeeds only below directories that exist. *)
Lemma update_parent_exists f p : forall n n' q,
  update f p n = Ok n' -> is_prefix q p = true -> q <> p -> lookup q n <> None.
Proof.
  induction p as [|k p IH]; intros n n' q; [simpl; discriminate|].
  destruct n as [m0 d0|m0 es]; cbn [update]; [discriminate|].
  destruct q as [|j q]; [simpl; discriminate|].
  cbn [is_prefix]. destruct p as [|k2 p2].
  - intros _ H Hne. apply andb_true_iff in H. destruct H as [Hj Hq].
    apply String.eqb_eq in Hj. apply is_prefix_nil_r in Hq. subst. congruence.
  - destruct (assoc k es) as [c0|] eqn:Ea; [|discriminate].
    destruct (update f (k2 :: p2) c0) as [c0'|x] eqn:Eu; [|discriminate].
    intros _ H Hne. apply andb_true_iff in H. destruct H as [Hj Hq].
    apply String.eqb_eq in Hj. subst j. rewrite lookup_child, Ea.
    apply (IH _ _ _ Eu Hq). congruence.
Qed.

(** ** The functions made with [update] *)

Lemma leaf_like_create mode :
  leaf_like (fun o => match o with
                      | None => Ok (Some (File mode ""))
                      | Some (File m _) => Ok (Some (File m ""))
                      | Some (Dir _ _) => Err EISDIR
                      end).
Proof.
  intros o c r H Hr. destruct r as [|j r]; [congruence|].
  destruct o as [[m d|m es]|]; try discriminate; injection H as <-; reflexivity.
Qed.

Lemma leaf_like_append data :
  leaf_like (fun o => match o with
                      | Some (File m d) => Ok (Some (File m (d ++ data)))
                      | Some (Dir _ _) => Err EISDIR
                      | None => Err ENOENT
                      end).
Proof.
  intros o c r H Hr. destruct r as [|j r]; [congruence|].
  destruct o as [[m d|m es]|]; try discriminate; injection H as <-; reflexivity.
Qed.

Lemma leaf_like_chmod mode :
  leaf_like (fun o => match o with
                      | Some (File _ d) => Ok (Some (File mode d))
                      | Some (Dir _ es) => Ok (Some (Dir mode es))
                      | None => Err ENOENT
                      end).
Proof.
  intros o c r H Hr. destruct r as [|j r]; [congruence|].
  destruct o as [[m d|m es]|]; try discriminate; injection H as <-; reflexivity.
Qed.

Lemma leaf_like_mkdir mode :
  leaf_like (fun o => match o with
                      | None => Ok (Some (Dir mode []))
                      | Some _ => Err EEXIST
                      end).
Proof.
  intros o c r H Hr. destruct r as [|j r]; [congruence|].
  destruct o as [[m d|m es]|]; try discriminate; injection H as <-; reflexivity.
Qed.

Lemma leaf_like_remove :
  leaf_like (fun o => match o with
                      | None => Err ENOENT
                      | Some (Dir _ (_ :: _)) => Err ENOTEMPTY
                      | Some _ => Ok None
                      end).
Proof.
  intros o c r H Hr. destruct o as [[m d|m [|x es]]|]; discriminate.
Qed.

(** ** [removeAll] *)

Lemma removeAll_absent p : forall n n' V,
  removeAll p n = Ok n' -> lookup V n = None -> lookup V n' = None.
Proof.
  induction p as [|k p IH]; intros n n' V; [simpl; discriminate|].
  destruct n as [m0 d0|m0 es]; cbn [removeAll]; [discriminate|].
  destruct V as [|j V]; [simpl; discriminate|].
  destruct p as [|k2 p2].
  - intros [= <-]. rewrite !lookup_child.
    destruct (String.eqb_spec j k) as [->|Hne].
    + rewrite assoc_remove_child_eq. reflexivity.
    + rewrite (assoc_remove_child_neq _ _ _ Hne). auto.
  - destruct (assoc k es) as [c0|] eqn:Ea; [|intros [= <-]; auto].
    destruct (removeAll (k2 :: p2) c0) as [c0'|x] eqn:Eu; [|discriminate].
    intros [= <-]. rewrite !lookup_child.
    destruct (String.eqb_spec j k) as [->|Hne].
    + rewrite assoc_set_child_eq, Ea. apply (IH _ _ _ Eu).
    + rewrite (assoc_set_child_neq _ _ _ _ Hne). auto.
Qed.

Lemma removeAll_frame p : forall n n' q,
  removeAll p n = Ok n' ->
  is_prefix q p = false -> is_prefix p q = false -> lookup q n' = lookup q n.
Proof.
  induction p as [|k p IH]; intros n n' q; [simpl; discriminate|].
  destruct n as [m0 d0|m0 es]; cbn [removeAll]; [discriminate|].
  destruct q as [|j q]; [simpl; discriminate|].
  cbn [is_prefix].
  destruct p as [|k2 p2].
  - intros [= <-]. rewrite !lookup_child.
    destruct (String.eqb_spec j k) as [->|Hne].
    + rewrite String.eqb_refl. simpl. discriminate.
    + rewrite (assoc_remove_child_neq _ _ _ Hne). auto.
  - destruct (assoc k es) as [c0|] eqn:Ea; [|intros [= <-]; auto].
    destruct (removeAll (k2 :: p2) c0) as [c0'|x] eqn:Eu; [|discriminate].
    intros [= <-]. rewrite !lookup_child.
    destruct (String.eqb_spec j k) as [->|Hne].
    + rewrite String.eqb_refl. cbn [andb]. rewrite assoc_set_child_eq, Ea.
      apply (IH _ _ _ Eu).
    + rewrite (assoc_set_child_neq _ _ _ _ Hne). auto.
Qed.

(** After [removeAll p] nothing lies at [p]. *)
Lemma removeAll_gone p : forall n n',
  removeAll p n = Ok n' -> lookup p n' = None.
Proof.
  induction p as [|k p IH]; intros n n'; [simpl; discriminate|].
  destruct n as [m0 d0|m0 es]; cbn [removeAll]; [discriminate|].
  destruct p as [|k2 p2].
  - intros [= <-]. rewrite lookup_child, assoc_remove_child_eq. reflexivity.
  - destruct (assoc k es) as [c0|] eqn:Ea.
    + destruct (removeAll (k2 :: p2) c0) as [c0'|x] eqn:Eu; [|discriminate].
      intros [= <-]. rewrite lookup_child, assoc_set_child_eq. apply (IH _ _ Eu).
    + intros [= <-]. rewrite lookup_child, Ea. reflexivity.
Qed.

(** ** [rename] *)

(** A rename that succeeds puts at the new path what lay at the old. *)
Lemma rename_moved a b n n' :
  rename a b n = Ok n' -> lookup b n' = lookup a n.
Proof.
  unfold rename. destruct (lookup a n) as [src|] eqn:Ea; [|discriminate].
  destruct (is_prefix a b) eqn:Eab.
  - destruct (is_prefix b a) eqn:Eba; [|discriminate].
    intros [= <-]. rewrite (is_prefix_antisym _ _ Eba Eab). exact Ea.
  - destruct (match lookup b n with
              | Some (File _ _) => match src with File _ _ => Ok tt | Dir _ _ => Err ENOTDIR end
              | Some (Dir _ []) => match src with File _ _ => Err EISDIR | Dir _ _ => Ok tt end
              | Some (Dir _ (_ :: _)) =>
                  match src with File _ _ => Err EISDIR | Dir _ _ => Err ENOTEMPTY end
              | None => Ok tt
              end) as [[]|x]; [|discriminate].
    destruct (removeAll a n) as [n1|x] eqn:Er; [|discriminate].
    intros Hu. destruct (update_at _ _ _ _ Hu) as (o & Ho & Hl).
    injection Ho as <-. exact Hl.
Qed.

End Frame.

(** * Calls of package [os], step by step *)

Section OsSteps.

Variable e : Env.

Lemma os_Stat_spec p w :
  os_Stat p w
  = Done (FS.exists_ (Filepath.elements p) (fs w))
      {| fs := fs w; trace := trace w ++ [EvStat p]; deferred := deferred w |}.
Proof. reflexivity. Qed.

Lemma os_Stat_IsNotExist_spec p w :
  os_Stat_IsNotExist p w
  = Done (FS.not_exist (Filepath.elements p) (fs w))
      {| fs := fs w; trace := trace w ++ [EvStat p]; deferred := deferred w |}.
Proof. reflexivity. Qed.

Lemma not_exist_present p : forall n c,
  FS.lookup p n = Some c -> FS.not_exist p n = false.
Proof.
  induction p as [|k p IH]; intros n c H; [reflexivity|].
  destruct n as [m d|m es]; [reflexivity|]. cbn [FS.lookup FS.not_exist] in *.
  destruct (FS.assoc k es) as [c0|]; [eauto|discriminate].
Qed.

Lemma os_Stat_IsDir_spec p w :
  os_Stat_IsDir p w
  = Done (FS.is_dir (Filepath.elements p) (fs w))
      {| fs := fs w; trace := trace w ++ [EvStat p]; deferred := deferred w |}.
Proof. reflexivity. Qed.

(** Reading a file changes nothing; without a fault it returns what
    the tree holds. *)
Lemma os_ReadFile_spec p w :
  exists r,
    os_ReadFile e p w
    = Done r {| fs := fs w; trace := trace w ++ [EvSys (OpReadFile p)];
                deferred := deferred w |}
    /\ (forall m d, FS.lookup (Filepath.elements p) (fs w) = Some (FS.File m d) ->
        r = Ok d \/ exists x, r = Err x).
Proof.
  unfold os_ReadFile, bind, emit, ret, get_fs. cbn [fs trace deferred].
  destruct (fault e (OpReadFile p)).
  - eexists. split; [reflexivity|]. intros. right. eauto.
  - cbn [fs trace deferred]. unfold FS.readFile.
    destruct (FS.lookup (Filepath.elements p) (fs w)) as [[m d|m es]|].
    + eexists. split; [reflexivity|]. intros ? ? [= _ <-]. left. reflexivity.
    + eexists. split; [reflexivity|]. intros ? ? [=].
    + eexists. split; [reflexivity|]. intros ? ? [=].
Qed.

Lemma os_MkdirAll_spec p perm w :
  exists r n',
    os_MkdirAll e p perm w
    = Done r {| fs := n'; trace := trace w ++ [EvSys (OpMkdirAll p)];
                deferred := deferred w |}
    /\ ((r = None /\ fault e (OpMkdirAll p) = false
         /\ FS.mkdirAll (masked e perm) (Filepath.elements p) (fs w) = Ok n')
        \/ (r <> None /\ n' = fs w)).
Proof. apply sys_spec. Qed.

(** [os.MkdirAll] leaves every file as it is, whatever its outcome. *)
Lemma os_MkdirAll_file p perm w :
  exists r n',
    os_MkdirAll e p perm w
    = Done r {| fs := n'; trace := trace w ++ [EvSys (OpMkdirAll p)];
                deferred := deferred w |}
    /\ forall q m d, FS.lookup q (fs w) = Some (FS.File m d) ->
                     FS.lookup q n' = Some (FS.File m d).
Proof.
  destruct (os_MkdirAll_spec p perm w) as (r & n' & E & [(_ & _ & H)|(_ & ->)]).
  - exists r, n'. split; [exact E|]. intros q m d.
    apply (FSFacts.mkdirAll_file _ _ _ _ _ _ _ H).
  - eexists _, _. split; [exact E|auto].
Qed.

End OsSteps.

Lemma Forall_is_write_app l1 l2 :
  Forall (fun ev => is_write ev = false) l1 ->
  Forall (fun ev => is_write ev = false) l2 ->
  Forall (fun ev => is_write ev = false) (l1 ++ l2).
Proof. intros. apply Forall_app. auto. Qed.

Lemma Forall_is_write_prints l :
  Forall (fun ev => is_write ev = false) (map EvPrint l).
Proof. induction l; simpl; constructor; auto. Qed.

Section EnvFiles.

Variable e : Env.

(** The file [getShellConfigFile] names: a file that exists stays as it
    is, and nothing is written. *)
Lemma getShellConfigFile_spec w :
  exists t w1 evs,
    getShellConfigFile e w = Done t w1
    /\ trace w1 = trace w ++ evs
    /\ deferred w1 = deferred w
    /\ Forall (fun ev => is_write ev = false) evs
    /\ forall q m d, FS.lookup q (fs w) = Some (FS.File m d) ->
                     FS.lookup q (fs w1) = Some (FS.File m d).
Proof.
  unfold getShellConfigFile.
  destruct (user_Current (paths e)) as [usr|m].
  2:{ exists "", w, []. unfold ret. rewrite app_nil_r. repeat split; auto. }
  destruct (Strings.Contains (SHELL e) "zsh").
  { eexists _, w, []. unfold ret. rewrite app_nil_r. repeat split; auto. }
  destruct (Strings.Contains (SHELL e) "bash").
  { destruct (String.eqb (GOOS e) "darwin").
    - rewrite (bind_Done _ _ _ _ _ (os_Stat_spec _ w)).
      destruct (FS.exists_ _ _); eexists _, _, [_]; unfold ret;
        (split; [reflexivity|]); cbn [trace fs deferred];
        repeat split; auto; repeat constructor.
    - unfold bind, ret. eexists _, w, []. rewrite app_nil_r. repeat split; auto. }
  destruct (Strings.Contains (SHELL e) "fish").
  { match goal with |- context [bind (os_MkdirAll e ?p ?perm) _ _] =>
      destruct (os_MkdirAll_file e p perm w) as (r & n' & E & Hfile) end.
    erewrite bind_Done by exact E.
    eexists _, _, [_]. unfold ret. split; [reflexivity|]. cbn [trace fs deferred].
    repeat split; auto; repeat constructor. }
  (* the four candidates, each checked with a Stat *)
  assert (Htry : forall files w0,
    exists t w1 evs,
      (fix try (files : list string) : M string :=
         match files with
         | [] => ret (Filepath.Join [HomeDir usr; ".profile"])
         | file :: rest =>
             bind (os_Stat (Filepath.Join [HomeDir usr; file]))
               (fun found => if found then ret (Filepath.Join [HomeDir usr; file])
                             else try rest)
         end) files w0 = Done t w1
      /\ trace w1 = trace w0 ++ evs /\ deferred w1 = deferred w0
      /\ Forall (fun ev => is_write ev = false) evs
      /\ fs w1 = fs w0).
  { induction files as [|file rest IH]; intros w0.
    - eexists _, w0, []. unfold ret. rewrite app_nil_r. repeat split; auto.
    - rewrite (bind_Done _ _ _ _ _ (os_Stat_spec _ w0)).
      destruct (FS.exists_ _ _).
      + eexists _, _, [_]. unfold ret. split; [reflexivity|].
        cbn [trace fs deferred]. repeat split; auto; repeat constructor.
      + match goal with |- context [?f rest ?w1] =>
          destruct (IH w1) as (t & w2 & evs & E & Htr & Hd & Hw & Hfs) end.
        exists t, w2, (EvStat (Filepath.Join [HomeDir usr; file]) :: evs).
        split; [exact E|]. rewrite Htr, Hd, Hfs. cbn [trace fs deferred].
        rewrite <- app_assoc. repeat split; auto; constructor; auto. }
  destruct (Htry [".profile"; ".bashrc"; ".bash_profile"; ".zshrc"] w)
    as (t & w1 & evs & E & Htr & Hd & Hw & Hfs).
  exists t, w1, evs. split; [exact E|]. rewrite Hfs. repeat split; auto.
Qed.

End EnvFiles.

Ltac no_writes :=
  repeat first
    [ apply Forall_is_write_app
    | apply Forall_is_write_prints
    | apply Forall_nil
    | apply Forall_cons; [reflexivity|]
    | assumption ].

(** C9. An environment file that already holds [GOROOT=] is left as it
    is, byte for byte and with its mode, by both editors, and no file is
    created, opened for writing or written: by [setupUnixEnvironment] for
    the shell configuration file it settles on, and by [setupEnvrcFile]
    for the [.envrc] file the given path leads to. *)
Theorem env_file_with_GOROOT_untouched (e : Env) (goroot gopath : string) (w : World) :
  (forall t w1 m d,
     getShellConfigFile e w = Done t w1 ->
     FS.lookup (Filepath.elements t) (fs w) = Some (FS.File m d) ->
     Strings.Contains d "GOROOT=" = true ->
     exists w' evs,
       setupUnixEnvironment e goroot gopath w = Done tt w'
       /\ trace w' = trace w ++ evs
       /\ Forall (fun ev => is_write ev = false) evs
       /\ fs w' = fs w1
       /\ FS.lookup (Filepath.elements t) (fs w') = Some (FS.File m d))
  /\ (forall envrcPath p t m d,
     expandPath (paths e) envrcPath = Ok p ->
     t = (if FS.is_dir (Filepath.elements p) (fs w)
          then Filepath.Join [p; ".envrc"] else p) ->
     FS.lookup (Filepath.elements t) (fs w) = Some (FS.File m d) ->
     Strings.Contains d "GOROOT=" = true ->
     exists r w' evs,
       setupEnvrcFile e envrcPath goroot gopath w = Done r w'
       /\ trace w' = trace w ++ evs
       /\ Forall (fun ev => is_write ev = false) evs
       /\ FS.lookup (Filepath.elements t) (fs w') = Some (FS.File m d)).
Proof.
  split.
  - intros t w1 m d Hget Hfile Hcontains.
    destruct (getShellConfigFile_spec e w)
      as (t' & w1' & evs0 & Hget' & Htr0 & Hd0 & Hw0 & Hkeep).
    rewrite Hget in Hget'. injection Hget' as <- <-.
    specialize (Hkeep _ _ _ Hfile).
    unfold setupUnixEnvironment. erewrite bind_Done by exact Hget.
    destruct (String.eqb t "").
    { rewrite print_spec. eexists _, (evs0 ++ [_]). split; [reflexivity|].
      cbn [trace fs deferred]. rewrite Htr0, <- app_assoc.
      repeat split; auto. no_writes. }
    erewrite bind_Done by apply os_Stat_IsNotExist_spec.
    cbn [fs]. rewrite (not_exist_present _ _ _ Hkeep).
    erewrite bind_Done by reflexivity.
    match goal with |- context [bind (os_ReadFile e t) _ ?w0] =>
      destruct (os_ReadFile_spec e t w0) as (r & ERead & Hr) end.
    erewrite bind_Done by exact ERead.
    destruct (Hr _ _ Hkeep) as [->|[x ->]].
    + rewrite Hcontains.
      erewrite bind_Done by apply print_spec.
      erewrite bind_Done by apply print_spec.
      rewrite print_all_spec.
      eexists _, (evs0 ++ [_] ++ [_] ++ [_] ++ [_] ++ map EvPrint _).
      split; [reflexivity|]. cbn [trace fs deferred].
      rewrite Htr0, <- !app_assoc. repeat split; auto. no_writes.
    + rewrite print_spec. eexists _, (evs0 ++ [_] ++ [_] ++ [_]).
      split; [reflexivity|]. cbn [trace fs deferred].
      rewrite Htr0, <- !app_assoc. repeat split; auto. no_writes.
  - intros envrcPath p t m d Hexp Ht Hfile Hcontains.
    unfold setupEnvrcFile. rewrite Hexp.
    erewrite bind_Done by apply os_Stat_IsDir_spec.
    rewrite <- Ht.
    match goal with |- context [bind (os_MkdirAll e ?q ?perm) _ ?w0] =>
      destruct (os_MkdirAll_file e q perm w0) as (r & n' & EMk & Hkeep) end.
    erewrite bind_Done by exact EMk.
    cbn [fs] in Hkeep. specialize (Hkeep _ _ _ Hfile).
    destruct r as [x|].
    { eexists _, _, ([_] ++ [_]). unfold ret. split; [reflexivity|].
      cbn [trace fs deferred]. rewrite <- !app_assoc.
      repeat split; auto. no_writes. }
    erewrite bind_Done by apply os_Stat_spec.
    unfold FS.exists_. cbn [fs]. rewrite Hkeep.
    match goal with |- context [bind (bind (os_ReadFile e t) _) _ ?w0] =>
      destruct (os_ReadFile_spec e t w0) as (r & ERead & Hr) end.
    cbn [fs] in Hr.
    destruct (Hr _ _ Hkeep) as [->|[x ->]].
    + erewrite bind_Done
        by (erewrite bind_Done by exact ERead; unfold ret; reflexivity).
      rewrite Hcontains.
      erewrite bind_Done by apply print_spec.
      erewrite bind_Done by apply print_spec.
      eexists _, _, ([_] ++ [_] ++ [_] ++ [_] ++ [_] ++ [_]).
      unfold ret. split; [reflexivity|]. cbn [trace fs deferred].
      rewrite <- !app_assoc. repeat split; auto. no_writes.
    + erewrite bind_Done
        by (erewrite bind_Done by exact ERead; unfold ret; reflexivity).
      eexists _, _, ([_] ++ [_] ++ [_] ++ [_]).
      unfold ret. split; [reflexivity|]. cbn [trace fs deferred].
      rewrite <- !app_assoc. repeat split; auto. no_writes.
Qed.

(** * Paths as lists of elements *)

Module PathFacts.
Import Filepath.

Lemma append_assoc (a b c : string) : ((a ++ b) ++ c = a ++ (b ++ c))%string.
Proof. induction a; simpl; congruence. Qed.

Lemma append_nil_r (a : string) : (a ++ "")%string = a.
Proof. induction a; simpl; congruence. Qed.

Lemma split_nonempty s : Strings.split Separator s <> [].
Proof.
  destruct s as [|c r]; simpl; [discriminate|].
  destruct (Ascii.eqb c Separator); [discriminate|].
  destruct (Strings.split Separator r); discriminate.
Qed.

Lemma split_plain c : has_sep c = false -> Strings.split Separator c = [c].
Proof.
  induction c as [|a c IH]; simpl; [reflexivity|].
  destruct (Ascii.eqb a Separator); simpl; [discriminate|].
  intros H. rewrite (IH H). reflexivity.
Qed.

Lemma split_app_sep a b :
  Strings.split Separator (a ++ String Separator b)%string
  = Strings.split Separator a ++ Strings.split Separator b.
Proof.
  induction a as [|x a IH]; simpl.
  - reflexivity.
  - rewrite IH. destruct (Ascii.eqb x Separator); [reflexivity|].
    destruct (Strings.split Separator a) eqn:E; [|reflexivity].
    exfalso. exact (split_nonempty a E).
Qed.

Lemma split_sep_free s : Forall (fun c => has_sep c = false) (Strings.split Separator s).
Proof.
  induction s as [|x s IH]; simpl.
  - repeat constructor.
  - destruct (Ascii.eqb x Separator) eqn:E.
    + constructor; [reflexivity|exact IH].
    + destruct (Strings.split Separator s) as [|y ys]; inversion IH; subst.
      * repeat constructor. simpl. rewrite E. reflexivity.
      * constructor; [|assumption]. simpl. rewrite E. assumption.
Qed.

(** [clean_elems] is a fold: it can be stopped and taken up again. *)
Lemma clean_elems_app rooted l1 : forall st l2,
  clean_elems rooted st (l1 ++ l2)
  = clean_elems rooted (rev (clean_elems rooted st l1)) l2.
Proof.
  induction l1 as [|x l1 IH]; intros st l2; simpl.
  - rewrite rev_involutive. reflexivity.
  - destruct (String.eqb x "" || String.eqb x "."); [apply IH|].
    destruct (String.eqb x "..").
    + destruct st as [|top rest].
      * destruct rooted; apply IH.
      * destruct (String.eqb top ".."); apply IH.
    + apply IH.
Qed.

Lemma plain_name_spec c :
  plain_name c = true ->
  has_sep c = false /\ String.eqb c "" = false /\ String.eqb c "." = false
  /\ String.eqb c ".." = false.
Proof.
  unfold plain_name. intros H.
  repeat (apply andb_true_iff in H; destruct H as [H ?]).
  repeat match goal with H : negb _ = true |- _ => apply negb_true_iff in H end.
  auto.
Qed.

Lemma clean_elems_plain rooted st c :
  plain_name c = true -> clean_elems rooted st [c] = rev st ++ [c].
Proof.
  intros H. apply plain_name_spec in H. destruct H as (_ & H1 & H2 & H3).
  simpl. rewrite H1, H2, H3. reflexivity.
Qed.

Lemma clean_elems_all_plain es : forall st,
  Forall (fun c => plain_name c = true) es ->
  clean_elems true st es = rev st ++ es.
Proof.
  induction es as [|c es IH]; intros st H; simpl.
  - rewrite app_nil_r. reflexivity.
  - inversion H as [|? ? Hc Hes]; subst.
    apply plain_name_spec in Hc. destruct Hc as (_ & H1 & H2 & H3).
    rewrite H1, H2, H3. simpl. rewrite (IH _ Hes). simpl.
    rewrite <- app_assoc. reflexivity.
Qed.

(** A rooted path cleans to plain names. *)
Lemma clean_elems_true_plain es : forall st,
  Forall (fun c => has_sep c = false) es ->
  Forall (fun c => plain_name c = true) st ->
  Forall (fun c => plain_name c = true) (clean_elems true st es).
Proof.
  induction es as [|c es IH]; intros st Hes Hst; simpl.
  - apply Forall_rev. exact Hst.
  - inversion Hes as [|? ? Hc Hes']; subst.
    destruct (String.eqb c "") eqn:E1; [apply IH; assumption|].
    destruct (String.eqb c ".") eqn:E2; [apply IH; assumption|].
    simpl. destruct (String.eqb c "..") eqn:E3.
    + destruct st as [|top rest]; [apply IH; assumption|].
      inversion Hst as [|? ? Htop Hrest]; subst.
      destruct (String.eqb top "..") eqn:E4.
      * apply plain_name_spec in Htop. destruct Htop as (_ & _ & _ & Htop).
        congruence.
      * apply IH; assumption.
    + apply IH; [assumption|]. constructor; [|assumption].
      unfold plain_name. rewrite Hc, E1, E2, E3. reflexivity.
Qed.

Lemma elements_plain s : Forall (fun c => plain_name c = true) (elements s).
Proof.
  unfold elements. apply clean_elems_true_plain; [apply split_sep_free|constructor].
Qed.

Lemma concat_cons_app c es :
  es <> [] ->
  String.concat "/" (c :: es) = (c ++ String Separator (String.concat "/" es))%string.
Proof. destruct es; [congruence|reflexivity]. Qed.

Lemma split_concat es :
  es <> [] -> Forall (fun c => has_sep c = false) es ->
  Strings.split Separator (String.concat "/" es) = es.
Proof.
  induction es as [|c es IH]; [congruence|]. intros _ H.
  inversion H as [|? ? Hc Hes]; subst.
  destruct es as [|c' es'].
  - simpl. apply split_plain. exact Hc.
  - rewrite concat_cons_app by discriminate. rewrite split_app_sep.
    rewrite (split_plain _ Hc). rewrite IH; [reflexivity|discriminate|exact Hes].
Qed.

Lemma plain_sep_free es :
  Forall (fun c => plain_name c = true) es -> Forall (fun c => has_sep c = false) es.
Proof.
  intros H. eapply Forall_impl; [|exact H]. intros c Hc.
  apply plain_name_spec in Hc. tauto.
Qed.


Lemma elements_rooted_path es :
  Forall (fun c => plain_name c = true) es -> elements (rooted_path es) = es.
Proof.
  intros H. unfold elements, rooted_path. cbn [String.append Strings.split].
  change (Ascii.eqb "/" Separator) with true. cbv iota.
  destruct es as [|c es'] eqn:E; [reflexivity|]. rewrite <- E in *.
  rewrite split_concat; [|subst; discriminate|apply plain_sep_free; exact H].
  cbn [clean_elems String.eqb orb]. apply (clean_elems_all_plain es [] H).
Qed.

Lemma Clean_rooted s :
  IsAbs s = true -> Clean s = rooted_path (elements s).
Proof.
  intros H. destruct (IsAbs_cons _ H) as [r ->].
  unfold Clean. rewrite H. reflexivity.
Qed.

Lemma elements_Clean s : IsAbs s = true -> elements (Clean s) = elements s.
Proof.
  intros H. rewrite (Clean_rooted _ H). apply elements_rooted_path, elements_plain.
Qed.

Lemma Join2 a c :
  IsAbs a = true -> Join [a; c] = Clean (a ++ String Separator c).
Proof.
  intros H. destruct (IsAbs_cons _ H) as [r ->]. reflexivity.
Qed.

Lemma IsAbs_app a b : IsAbs a = true -> IsAbs (a ++ b) = true.
Proof. intros H. destruct (IsAbs_cons _ H) as [r ->]. reflexivity. Qed.

(** The elements of a joined path, for any second part. *)
Lemma elements_Join_gen a b :
  IsAbs a = true ->
  elements (Join [a; b])
  = clean_elems true (rev (elements a)) (Strings.split Separator b).
Proof.
  intros H. rewrite (Join2 _ _ H).
  rewrite elements_Clean by (apply IsAbs_app; exact H).
  unfold elements. rewrite split_app_sep. apply clean_elems_app.
Qed.

(** Joining a plain name adds it as the last element. *)
Lemma elements_Join a c :
  IsAbs a = true -> plain_name c = true ->
  elements (Join [a; c]) = elements a ++ [c].
Proof.
  intros H Hc. rewrite (elements_Join_gen _ _ H).
  destruct (plain_name_spec _ Hc) as (Hs & _).
  rewrite (split_plain _ Hs). rewrite (clean_elems_plain _ _ _ Hc).
  rewrite rev_involutive. reflexivity.
Qed.

Lemma Join_rooted a c :
  IsAbs a = true -> plain_name c = true ->
  Join [a; c] = rooted_path (elements a ++ [c]).
Proof.
  intros H Hc. rewrite (Join2 _ _ H).
  rewrite Clean_rooted by (apply IsAbs_app; exact H). f_equal.
  rewrite <- elements_Clean by (apply IsAbs_app; exact H).
  rewrite <- (Join2 _ _ H). apply elements_Join; assumption.
Qed.

Lemma has_sep_app_sep a b : has_sep (a ++ String Separator b) = true.
Proof.
  induction a as [|x a IH]; simpl.
  - reflexivity.
  - rewrite IH. apply orb_true_r.
Qed.

Lemma through_last_sep_app a c :
  has_sep c = false ->
  through_last_sep (a ++ String Separator c) = (a ++ "/")%string.
Proof.
  intros Hc. induction a as [|x a IH]; simpl.
  - rewrite Hc. reflexivity.
  - rewrite has_sep_app_sep. rewrite IH. reflexivity.
Qed.

Lemma concat_snoc es c :
  es <> [] ->
  String.concat "/" (es ++ [c])
  = (String.concat "/" es ++ String Separator c)%string.
Proof.
  induction es as [|x es IH]; [congruence|]. intros _.
  destruct es as [|y es'].
  - reflexivity.
  - change ((x :: y :: es') ++ [c]) with (x :: ((y :: es') ++ [c])).
    rewrite concat_cons_app by (simpl; discriminate).
    rewrite IH by discriminate.
    rewrite (concat_cons_app x (y :: es')) by discriminate.
    rewrite append_assoc. reflexivity.
Qed.

(** The directory of a path that ends in a plain name. *)
Lemma elements_Dir_rooted es c :
  Forall (fun x => plain_name x = true) es -> plain_name c = true ->
  elements (Dir (rooted_path (es ++ [c]))) = es.
Proof.
  intros Hes Hc. destruct (plain_name_spec _ Hc) as (Hs & _).
  unfold Dir, rooted_path.
  destruct es as [|x es'] eqn:E.
  - cbn [app String.concat]. change ("/" ++ c)%string with ("" ++ String Separator c)%string.
    rewrite (through_last_sep_app _ _ Hs). reflexivity.
  - rewrite <- E in *. rewrite concat_snoc by (subst; discriminate).
    change ("/" ++ (String.concat "/" es ++ String Separator c))%string
      with (("/" ++ String.concat "/" es) ++ String Separator c)%string.
    rewrite (through_last_sep_app _ _ Hs).
    rewrite elements_Clean by reflexivity.
    fold (rooted_path es).
    change (rooted_path es ++ "/")%string
      with (rooted_path es ++ String Separator "")%string.
    unfold elements at 1. rewrite split_app_sep, clean_elems_app.
    fold (elements (rooted_path es)).
    rewrite (elements_rooted_path _ Hes). simpl. apply rev_involutive.
Qed.

Lemma elements_Dir_Join a c :
  IsAbs a = true -> plain_name c = true ->
  elements (Dir (Join [a; c])) = elements a.
Proof.
  intros H Hc. rewrite (Join_rooted _ _ H Hc).
  apply elements_Dir_rooted; [apply elements_plain|exact Hc].
Qed.

Lemma IsAbs_Join2 a c : IsAbs a = true -> IsAbs (Join [a; c]) = true.
Proof. apply IsAbs_Join. Qed.

End PathFacts.

(** * What a computation adds to the trace *)

Section Emits.

Variable e : Env.
Variable Q : Event -> bool.

Lemma emits_only_ret {A} (a : A) : emits_only Q (ret a).
Proof. intros w. exists []. simpl. rewrite app_nil_r. auto. Qed.

Lemma emits_only_exit {A} c : emits_only Q (@os_Exit A c).
Proof. intros w. exists []. simpl. rewrite app_nil_r. auto. Qed.

Lemma emits_only_bind {A B} (m : M A) (k : A -> M B) :
  emits_only Q m -> (forall a, emits_only Q (k a)) -> emits_only Q (bind m k).
Proof.
  intros Hm Hk w. destruct (Hm w) as (evs1 & Ht1 & Hq1 & Hd1).
  unfold bind. destruct (m w) as [a w1|c w1]; simpl in *.
  - destruct (Hk a w1) as (evs2 & Ht2 & Hq2 & Hd2).
    exists (evs1 ++ evs2). rewrite Ht2, Ht1, Hd2, Hd1, app_assoc, forallb_app, Hq1, Hq2.
    auto.
  - exists evs1. auto.
Qed.

Lemma emits_only_emit ev : Q ev = true -> emits_only Q (emit ev).
Proof. intros H w. exists [ev]. simpl. rewrite H. auto. Qed.

Lemma emits_only_print s : Q (EvPrint s) = true -> emits_only Q (print s).
Proof. apply emits_only_emit. Qed.

Lemma emits_only_get_fs : emits_only Q get_fs.
Proof. intros w. exists []. simpl. rewrite app_nil_r. auto. Qed.

Lemma emits_only_put_fs n : emits_only Q (put_fs n).
Proof. intros w. exists []. simpl. rewrite app_nil_r. auto. Qed.

Lemma emits_only_sys op name p f :
  Q (EvSys op) = true -> emits_only Q (sys e op name p f).
Proof.
  intros H w. destruct (sys_spec e op name p f w) as (r & n' & -> & _).
  exists [EvSys op]. simpl. rewrite H. auto.
Qed.

Lemma emits_only_Stat p : Q (EvStat p) = true -> emits_only Q (os_Stat p).
Proof. intros H w. exists [EvStat p]. simpl. rewrite H. auto. Qed.

Lemma emits_only_Stat_IsDir p : Q (EvStat p) = true -> emits_only Q (os_Stat_IsDir p).
Proof. intros H w. exists [EvStat p]. simpl. rewrite H. auto. Qed.

Lemma emits_only_Stat_IsNotExist p :
  Q (EvStat p) = true -> emits_only Q (os_Stat_IsNotExist p).
Proof. intros H w. exists [EvStat p]. simpl. rewrite H. auto. Qed.

Lemma emits_only_ReadFile p :
  Q (EvSys (OpReadFile p)) = true -> emits_only Q (os_ReadFile e p).
Proof.
  intros H w. destruct (os_ReadFile_spec e p w) as (r & -> & _).
  exists [EvSys (OpReadFile p)]. simpl. rewrite H. auto.
Qed.

Lemma emits_only_print_all l :
  (forall s, Q (EvPrint s) = true) -> emits_only Q (print_all l).
Proof.
  intros H w. rewrite print_all_spec. exists (map EvPrint l). simpl.
  repeat split. induction l; simpl; [reflexivity|]. rewrite H. assumption.
Qed.

Lemma emits_only_write_lines f lines :
  Q (EvSys (OpWrite f)) = true -> emits_only Q (write_lines e f lines).
Proof.
  intros H. induction lines as [|l rest IH]; simpl.
  - apply emits_only_ret.
  - apply emits_only_bind; [apply emits_only_sys; exact H|].
    intros [m|]; [apply emits_only_ret|exact IH].
Qed.

Lemma emits_only_run_powershell cmd :
  Q (EvExec cmd) = true -> emits_only Q (run_powershell e cmd).
Proof.
  intros H. unfold run_powershell.
  apply emits_only_bind; [apply emits_only_emit; exact H|].
  intros _. apply emits_only_ret.
Qed.

End Emits.

(** One step of the search for what a computation emits. *)
Ltac emits_step :=
  first
    [ apply emits_only_ret
    | apply emits_only_exit
    | apply emits_only_print; reflexivity
    | apply emits_only_print_all; reflexivity
    | apply emits_only_emit; reflexivity
    | apply emits_only_Stat; reflexivity
    | apply emits_only_Stat_IsDir; reflexivity
    | apply emits_only_Stat_IsNotExist; reflexivity
    | apply emits_only_ReadFile; reflexivity
    | apply emits_only_write_lines; reflexivity
    | apply emits_only_run_powershell; reflexivity
    | apply emits_only_sys; reflexivity
    | apply emits_only_bind; [|intros ?]
    | match goal with
      | |- emits_only _ (if ?b then _ else _) => destruct b
      | |- emits_only _ (match ?x with _ => _ end) => destruct x
      | |- emits_only _ (let (_, _) := ?x in _) => destruct x
      end ].

Ltac emits := repeat emits_step.


Section Configure.

Variable e : Env.

Lemma getShellConfigFile_quiet : emits_only quiet (getShellConfigFile e).
Proof.
  unfold getShellConfigFile.
  destruct (user_Current (paths e)) as [usr|m]; [|emits].
  destruct (Strings.Contains (SHELL e) "zsh"); [emits|].
  destruct (Strings.Contains (SHELL e) "bash"); [unfold os_MkdirAll; emits|].
  destruct (Strings.Contains (SHELL e) "fish"); [unfold os_MkdirAll; emits|].
  emits.
Qed.

Lemma setupUnixEnvironment_quiet goroot gopath :
  emits_only quiet (setupUnixEnvironment e goroot gopath).
Proof.
  unfold setupUnixEnvironment.
  apply emits_only_bind; [apply getShellConfigFile_quiet|]. intros t.
  unfold os_Create, os_OpenFile_append. emits.
Qed.

Lemma setupWindowsEnvironment_quiet goroot gopath :
  emits_only quiet (setupWindowsEnvironment e goroot gopath).
Proof. unfold setupWindowsEnvironment. emits. Qed.

Lemma setupEnvrcFile_quiet envrcPath goroot gopath :
  emits_only quiet (setupEnvrcFile e envrcPath goroot gopath).
Proof.
  unfold setupEnvrcFile, os_MkdirAll, os_OpenFile_append, os_OpenFile_create,
    file_Write.
  emits.
Qed.

Lemma configure_quiet fl goroot gopath :
  emits_only quiet (configure e fl goroot gopath).
Proof.
  unfold configure, printEnvVars, setupEnvironmentVariables, setupEnvrcIfRequested.
  repeat first
    [ apply setupUnixEnvironment_quiet
    | apply setupWindowsEnvironment_quiet
    | apply setupEnvrcFile_quiet
    | emits_step ].
Qed.

End Configure.

(** * Computations that return *)

Section Returns.

Variable e : Env.

Lemma returns_ret {A} (a : A) : returns (ret a).
Proof. intros w. eexists _, _. reflexivity. Qed.

Lemma returns_bind {A B} (m : M A) (k : A -> M B) :
  returns m -> (forall a, returns (k a)) -> returns (bind m k).
Proof.
  intros Hm Hk w. destruct (Hm w) as (a & w1 & E).
  unfold bind. rewrite E. apply Hk.
Qed.

Lemma returns_emit ev : returns (emit ev).
Proof. intros w. eexists _, _. reflexivity. Qed.

Lemma returns_print s : returns (print s).
Proof. apply returns_emit. Qed.

Lemma returns_sys op name p f : returns (sys e op name p f).
Proof.
  intros w. destruct (sys_spec e op name p f w) as (r & n' & -> & _). eauto.
Qed.

Lemma returns_Stat p : returns (os_Stat p).
Proof. intros w. eexists _, _. reflexivity. Qed.

Lemma returns_Stat_IsDir p : returns (os_Stat_IsDir p).
Proof. intros w. eexists _, _. reflexivity. Qed.

Lemma returns_Stat_IsNotExist p : returns (os_Stat_IsNotExist p).
Proof. intros w. eexists _, _. reflexivity. Qed.

Lemma returns_ReadFile p : returns (os_ReadFile e p).
Proof. intros w. destruct (os_ReadFile_spec e p w) as (r & -> & _). eauto. Qed.

Lemma returns_print_all l : returns (print_all l).
Proof. intros w. rewrite print_all_spec. eauto. Qed.

Lemma returns_write_lines f lines : returns (write_lines e f lines).
Proof.
  induction lines as [|l rest IH]; simpl.
  - apply returns_ret.
  - apply returns_bind; [apply returns_sys|].
    intros [m|]; [apply returns_ret|exact IH].
Qed.

Lemma returns_run_powershell cmd : returns (run_powershell e cmd).
Proof.
  unfold run_powershell. apply returns_bind; [apply returns_emit|].
  intros _. apply returns_ret.
Qed.

End Returns.

Ltac returns_step :=
  first
    [ apply returns_ret
    | apply returns_print
    | apply returns_print_all
    | apply returns_emit
    | apply returns_Stat
    | apply returns_Stat_IsDir
    | apply returns_Stat_IsNotExist
    | apply returns_ReadFile
    | apply returns_write_lines
    | apply returns_run_powershell
    | apply returns_sys
    | apply returns_bind; [|intros ?]
    | match goal with
      | |- returns (if ?b then _ else _) => destruct b
      | |- returns (match ?x with _ => _ end) => destruct x
      | |- returns (let (_, _) := ?x in _) => destruct x
      end ].

Section ConfigureReturns.

Variable e : Env.

Lemma getShellConfigFile_returns : returns (getShellConfigFile e).
Proof.
  unfold getShellConfigFile.
  destruct (user_Current (paths e)) as [usr|m]; [|repeat returns_step].
  destruct (Strings.Contains (SHELL e) "zsh"); [repeat returns_step|].
  destruct (Strings.Contains (SHELL e) "bash");
    [unfold os_MkdirAll; repeat returns_step|].
  destruct (Strings.Contains (SHELL e) "fish");
    [unfold os_MkdirAll; repeat returns_step|].
  repeat returns_step.
Qed.

Lemma configure_returns fl goroot gopath : returns (configure e fl goroot gopath).
Proof.
  unfold configure, printEnvVars, setupEnvironmentVariables, setupEnvrcIfRequested,
    setupUnixEnvironment, setupWindowsEnvironment, setupEnvrcFile,
    os_MkdirAll, os_OpenFile_append, os_OpenFile_create, os_Create, file_Write.
  repeat first [ apply getShellConfigFile_returns | returns_step ].
Qed.

End ConfigureReturns.

(** * The setup phase of [main] *)

Lemma bind_inv {A B} (m : M A) (k : A -> M B) w b w2 :
  bind m k w = Done b w2 -> exists a w1, m w = Done a w1 /\ k a w1 = Done b w2.
Proof.
  unfold bind. destruct (m w) as [a w1|c w1]; [eauto|discriminate].
Qed.

Lemma expandPath_abs pe p : Filepath.IsAbs p = true -> expandPath pe p = Ok p.
Proof.
  intros H. destruct (IsAbs_cons _ H) as [r ->]. reflexivity.
Qed.

Section Setup.

Variable e : Env.

Lemma expandPathOrExit_inv p w q w1 :
  expandPathOrExit e p w = Done q w1 ->
  expandPath (paths e) p = Ok q /\ w1 = w.
Proof.
  unfold expandPathOrExit. destruct (expandPath (paths e) p) as [q'|m].
  - unfold ret. intros [= <- <-]. auto.
  - unfold bind, print, emit, os_Exit. discriminate.
Qed.

Lemma expandPathOrExit_ok p w q :
  expandPath (paths e) p = Ok q -> expandPathOrExit e p w = Done q w.
Proof. unfold expandPathOrExit. intros ->. reflexivity. Qed.


(** The version lookup sends one request and changes nothing else. *)
Lemma getLatestGoVersion_spec w :
  exists r,
    getLatestGoVersion e w
    = Done r {| fs := fs w; trace := trace w ++ [EvHttp "GET" versions_url];
                deferred := deferred w |}.
Proof.
  unfold getLatestGoVersion.
  rewrite (bind_Done _ _ _ _ _ (http_request_spec e "GET" _ w)).
  cbn [String.eqb Ascii.eqb Bool.eqb andb].
  destruct (http_Get e "https://go.dev/dl/?mode=json") as [resp|m];
    [|eexists; reflexivity].
  destruct (match final_err (body resp) with
            | EOF => json_Decode e (body_bytes (body resp))
            | Failure m => Err m
            end) as [versions|m]; [|eexists; reflexivity].
  destruct versions as [|first rest]; [eexists; reflexivity|].
  destruct (find Stable (first :: rest)); eexists; reflexivity.
Qed.

Lemma main_setup_spec fl w s w1 :
  main_setup e fl w = Done s w1 ->
  fs w1 = fs w /\ deferred w1 = deferred w
  /\ (exists evs,
        trace w1 = trace w ++ evs
        /\ filter is_network evs
           = (if wants_latest fl then [EvHttp "GET" versions_url] else [])
        /\ forallb setup_event evs = true)
  /\ osName s = GOOS e /\ arch s = GOARCH e
  /\ archiveExt s = (if String.eqb (GOOS e) "windows" then "zip" else "tar.gz")
  /\ downloadURL s
     = ("https://go.dev/dl/go" ++ version s ++ "." ++ GOOS e ++ "-" ++ GOARCH e
          ++ "." ++ archiveExt s)%string
  /\ (exists arg, expandPath (paths e) arg = Ok (installPath s))
  /\ expandPath (paths e) (Filepath.Join [installPath s; ("go" ++ version s)%string])
     = Ok (versionedGoDir s)
  /\ (List.length (args fl) <= 2)%nat.
Proof.
  unfold main_setup. intros H.
  apply bind_inv in H. destruct H as ([] & w2 & Hhelp & H).
  assert (Hw2 : w2 = w).
  { destruct (isHelpRequested fl).
    - unfold bind in Hhelp. unfold printUsage in Hhelp.
      rewrite print_all_spec in Hhelp. discriminate.
    - injection Hhelp as <-. reflexivity. }
  subst w2. clear Hhelp.
  apply bind_inv in H. destruct H as (va & w2 & Hargs & H).
  assert (Hva : w2 = w /\ fst va = versionArg fl /\ (List.length (args fl) <= 2)%nat).
  { unfold versionArg. destruct (args fl) as [|a0 [|a1 [|a2 rest]]];
      try (injection Hargs as <- <-; simpl; repeat split; lia).
    unfold bind in Hargs. unfold printUsage in Hargs.
    rewrite print_all_spec in Hargs. discriminate. }
  destruct Hva as (-> & Hver & Hlen). clear Hargs.
  apply bind_inv in H. destruct H as (ip & w2 & Hip & H).
  apply expandPathOrExit_inv in Hip. destruct Hip as [Hip ->].
  apply bind_inv in H. destruct H as (v & w2 & Hv & H).
  assert (Htr : fs w2 = fs w /\ deferred w2 = deferred w
                /\ exists evs, trace w2 = trace w ++ evs
                     /\ filter is_network evs
                        = (if wants_latest fl then [EvHttp "GET" versions_url] else [])
                     /\ forallb setup_event evs = true).
  { unfold wants_latest. rewrite <- Hver.
    destruct (String.eqb (fst va) "latest" || String.eqb (fst va) "-").
    - apply bind_inv in Hv. destruct Hv as ([] & w3 & Hp & Hv).
      rewrite print_spec in Hp. injection Hp as <-.
      apply bind_inv in Hv. destruct Hv as (r & w4 & Hget & Hv).
      match type of Hget with getLatestGoVersion e ?w0 = _ =>
        destruct (getLatestGoVersion_spec w0) as (r' & Hget') end.
      rewrite Hget' in Hget. injection Hget as <- <-.
      destruct r' as [v'|m].
      + apply bind_inv in Hv. destruct Hv as ([] & w5 & Hp & Hv).
        rewrite print_spec in Hp. injection Hp as <-.
        injection Hv as <- <-. cbn [fs trace deferred].
        repeat split. eexists [_; _; _]. rewrite <- !app_assoc.
        split; [reflexivity|]. split; reflexivity.
      + unfold bind, print, emit, os_Exit in Hv. discriminate.
    - injection Hv as <- <-. repeat split. exists []. rewrite app_nil_r. auto. }
  clear Hv. destruct Htr as (Hfs & Hdef & Hevs).
  apply bind_inv in H. destruct H as (vd & w3 & Hvd & H).
  apply expandPathOrExit_inv in Hvd. destruct Hvd as [Hvd ->].
  apply bind_inv in H. destruct H as (usr & w3 & Husr & H).
  assert (w3 = w2).
  { destruct (user_Current (paths e)).
    - injection Husr as <- <-. reflexivity.
    - unfold bind, print, emit, os_Exit in Husr. discriminate. }
  subst w3. clear Husr.
  apply bind_inv in H. destruct H as (gp & w3 & Hgp & H).
  assert (w3 = w2).
  { destruct (negb (String.eqb (getCustomGOPATH fl) "")).
    - apply expandPathOrExit_inv in Hgp. tauto.
    - injection Hgp as <- <-. reflexivity. }
  subst w3. clear Hgp.
  injection H as <- <-. cbn [version installPath osName arch archiveExt
                              downloadURL versionedGoDir gopath].
  repeat split; auto; try lia. eauto.
Qed.

End Setup.

(** * An installed version is not installed again *)

(** C2, as the code has it.  When the setup phase completes (at most two
    arguments, no help flag, the paths expand, the user is known and, if
    asked for, the version lookup succeeds) and the versioned directory
    exists, the run exits with code 0 and neither downloads nor extracts:
    from the presence check on, no request is sent and no archive is read,
    no temporary directory made, nothing renamed or removed.  Before the
    check nothing touches the file system; with a version given on the
    command line no request is sent at all, and with [latest] or [-] one
    request, for the list of versions, is sent before the check. *)
Theorem installed_version_short_circuits
  (e : Env) (fl : Flags) (w : World) (s : Setup) (w1 : World) :
  main_setup e fl w = Done s w1 ->
  FS.exists_ (Filepath.elements (versionedGoDir s)) (fs w) = true ->
  exists w' evs_setup evs_after,
    main e fl w = (0, w')
    /\ trace w' = trace w ++ evs_setup ++ [EvStat (versionedGoDir s)] ++ evs_after
    /\ forallb setup_event evs_setup = true
    /\ filter is_network evs_setup
       = (if wants_latest fl then [EvHttp "GET" versions_url] else [])
    /\ forallb quiet evs_after = true.
Proof.
  intros Hsetup Hexists.
  destruct (main_setup_spec e fl w s w1 Hsetup)
    as (Hfs & Hdef & (evs & Htr & Hnet & Hev) & _).
  unfold main, main_body. rewrite (bind_Done _ _ _ _ _ Hsetup).
  erewrite bind_Done by apply os_Stat_spec.
  rewrite Hfs, Hexists.
  set (w2 := {| fs := fs w; trace := trace w1 ++ [EvStat (versionedGoDir s)];
                deferred := deferred w1 |}).
  destruct (emits_only_print quiet
              ("Go version " ++ version s ++ " already exists at "
                 ++ versionedGoDir s)%string eq_refl w2) as (evp & Htp & Hqp & _).
  rewrite print_spec in Htp. erewrite bind_Done by apply print_spec.
  match goal with |- context [bind (configure e fl ?a ?b) _ ?w0] =>
    destruct (configure_returns e fl a b w0) as ([] & w3 & Ec);
    destruct (configure_quiet e fl a b w0) as (evc & Htc & Hqc & _)
  end.
  rewrite Ec in Htc. cbn [world_of trace] in Htc.
  erewrite bind_Done by exact Ec. unfold os_Exit.
  exists w3, evs, (EvPrint ("Go version " ++ version s ++ " already exists at "
                              ++ versionedGoDir s)%string :: evc).
  split; [reflexivity|]. split.
  { rewrite Htc. unfold w2. cbn [trace]. rewrite Htr, <- !app_assoc. reflexivity. }
  split; [exact Hev|]. split; [exact Hnet|].
  cbn [forallb]. rewrite Hqc. reflexivity.
Qed.

(** * The versioned directory of a run *)

Lemma plain_go v : Filepath.has_sep v = false -> plain_name ("go" ++ v) = true.
Proof.
  intros H. unfold plain_name. cbn [String.append Filepath.has_sep].
  rewrite H. reflexivity.
Qed.

Lemma is_prefix_snoc_false (a : list string) c : FS.is_prefix (a ++ [c]) a = false.
Proof.
  induction a as [|x a IH]; simpl; [reflexivity|].
  rewrite IH. apply andb_false_r.
Qed.

Section Versioned.

Variable e : Env.
Hypothesis Hwd : forall wd, os_Getwd (paths e) = Ok wd -> Filepath.IsAbs wd = true.

Lemma setup_versioned fl w s w1 :
  main_setup e fl w = Done s w1 ->
  Filepath.has_sep (version s) = false ->
  Filepath.IsAbs (installPath s) = true
  /\ versionedGoDir s = Filepath.Join [installPath s; ("go" ++ version s)%string]
  /\ Filepath.elements (versionedGoDir s)
     = Filepath.elements (installPath s) ++ [("go" ++ version s)%string]
  /\ Filepath.elements (Filepath.Dir (versionedGoDir s))
     = Filepath.elements (installPath s).
Proof.
  intros Hsetup Hv.
  destruct (main_setup_spec e fl w s w1 Hsetup)
    as (_ & _ & _ & _ & _ & _ & _ & (arg & Harg) & Hvd & _).
  pose proof (expandPath_IsAbs _ _ _ Hwd Harg) as Hip.
  pose proof (plain_go _ Hv) as Hc.
  rewrite expandPath_abs in Hvd by (apply PathFacts.IsAbs_Join2; exact Hip).
  injection Hvd as Hvd. rewrite <- Hvd.
  repeat split; auto.
  - apply PathFacts.elements_Join; assumption.
  - apply PathFacts.elements_Dir_Join; assumption.
Qed.

End Versioned.



Section NotFound.

Variable e : Env.



End NotFound.

Lemma sys_ok e op name p f w n' :
  fault e op = false -> f (fs w) = Ok n' ->
  sys e op name p f w
  = Done None {| fs := n'; trace := trace w ++ [EvSys op]; deferred := deferred w |}.
Proof.
  intros Hf Hn. unfold sys, bind, emit, ret, get_fs, put_fs. cbn [fs trace deferred].
  rewrite Hf. cbn [fs trace deferred]. rewrite Hn. reflexivity.
Qed.

Lemma exists_false p n : FS.exists_ p n = false -> FS.lookup p n = None.
Proof. unfold FS.exists_. destruct (FS.lookup p n); [discriminate|reflexivity]. Qed.


(** * Properties of the tree that a computation keeps *)

Section Preserves.

Variable e : Env.
Variable P : FS.node -> Prop.

Lemma trace_same (w : World) : exists evs, trace w = trace w ++ evs.
Proof. exists []. symmetry. apply app_nil_r. Qed.

Lemma preserves_ret {A} (a : A) : preserves P (ret a).
Proof. intros w H. repeat split; auto using trace_same. Qed.

Lemma preserves_exit {A} c : preserves P (@os_Exit A c).
Proof. intros w H. repeat split; auto using trace_same. Qed.

Lemma preserves_bind {A B} (m : M A) (k : A -> M B) :
  preserves P m -> (forall a, preserves P (k a)) -> preserves P (bind m k).
Proof.
  intros Hm Hk w H. destruct (Hm w H) as (H1 & D1 & evs1 & T1).
  unfold bind. destruct (m w) as [a w1|c w1]; simpl in *.
  - destruct (Hk a w1 H1) as (H2 & D2 & evs2 & T2). rewrite D2, T2, T1.
    repeat split; auto. exists (evs1 ++ evs2). symmetry. apply app_assoc.
  - repeat split; eauto.
Qed.

Lemma preserves_emit ev : preserves P (emit ev).
Proof. intros w H. repeat split; auto. exists [ev]. reflexivity. Qed.

Lemma preserves_print s : preserves P (print s).
Proof. apply preserves_emit. Qed.

Lemma preserves_print_all l : preserves P (print_all l).
Proof. intros w H. rewrite print_all_spec. simpl. repeat split; eauto. Qed.

Lemma preserves_sys op name p f :
  (forall n n', f n = Ok n' -> P n -> P n') -> preserves P (sys e op name p f).
Proof.
  intros Hf w H.
  destruct (sys_spec e op name p f w) as (r & n' & -> & [(_ & _ & Hn)|(_ & ->)]);
    simpl; repeat split; eauto.
Qed.

Lemma preserves_Stat p : preserves P (os_Stat p).
Proof. intros w H. repeat split; auto. exists [EvStat p]. reflexivity. Qed.

Lemma preserves_http_request method url : preserves P (http_request e method url).
Proof. intros w H. rewrite http_request_spec. simpl. repeat split; eauto. Qed.

Lemma preserves_os_Open p : preserves P (os_Open e p).
Proof.
  intros w H. unfold os_Open, bind, emit, ret, get_fs. cbn [fs trace deferred].
  destruct (fault e (OpOpen p)); [simpl; repeat split; eauto|]. cbn [fs trace deferred].
  destruct (FS.readFile (Filepath.elements p) (fs w)); simpl; repeat split; eauto.
Qed.

End Preserves.

Ltac preserves_step :=
  first
    [ apply preserves_ret
    | apply preserves_exit
    | apply preserves_print
    | apply preserves_print_all
    | apply preserves_emit
    | apply preserves_Stat
    | apply preserves_http_request
    | apply preserves_os_Open
    | apply preserves_bind; [|intros ?]
    | match goal with
      | |- preserves _ (if ?b then _ else _) => destruct b
      | |- preserves _ (match ?x with _ => _ end) => destruct x
      | |- preserves _ (let (_, _) := ?x in _) => destruct x
      end ].

Section Phases.

Variable e : Env.
Variable P : FS.node -> Prop.

Lemma preserves_file_Write path d : file_ok P path -> preserves P (file_Write e path d).
Proof. intros [_ H]. apply preserves_sys. apply H. Qed.

Lemma preserves_os_Create path : file_ok P path -> preserves P (os_Create e path).
Proof. intros [H _]. apply preserves_sys. apply H. Qed.

Lemma preserves_os_OpenFile_create_trunc path perm :
  file_ok P path -> preserves P (os_OpenFile_create_trunc e path perm).
Proof. intros [H _]. apply preserves_sys. apply H. Qed.

Lemma preserves_os_MkdirAll path perm : dir_ok P path -> preserves P (os_MkdirAll e path perm).
Proof. intros H. apply preserves_sys. apply H. Qed.

Lemma preserves_os_Chmod path mode : chmod_ok P path -> preserves P (os_Chmod e path mode).
Proof. intros H. apply preserves_sys. apply H. Qed.

Lemma preserves_copy_rounds out cs : forall pr,
  file_ok P out -> preserves P (copy_rounds e out pr cs).
Proof.
  induction cs as [|ch cs IH]; intros pr Hok; cbn [copy_rounds].
  - apply preserves_ret.
  - destruct (progressReader_Read (conversion e) pr ch) as [pr' printed].
    apply preserves_bind; [apply preserves_print_all|]. intros _.
    apply preserves_bind.
    + destruct (0 <? Z.of_nat (String.length (data ch)));
        [apply preserves_file_Write; exact Hok|apply preserves_ret].
    + intros [m|]; [apply preserves_ret|apply IH; exact Hok].
Qed.

Lemma preserves_download url path :
  file_ok P path -> preserves P (downloadFileWithProgress e url path).
Proof.
  intros Hok. unfold downloadFileWithProgress, io_Copy_progress.
  repeat first
    [ apply preserves_os_Create; exact Hok
    | apply preserves_file_Write; exact Hok
    | apply preserves_copy_rounds; exact Hok
    | preserves_step ].
Qed.

Lemma preserves_io_Copy_entry out bytes rerr :
  file_ok P out -> preserves P (io_Copy_entry e out bytes rerr).
Proof.
  intros Hok. unfold io_Copy_entry.
  repeat first [ apply preserves_file_Write; exact Hok | preserves_step ].
Qed.

Lemma preserves_untargz_loop dst hs end_ :
  (forall h, In h hs -> entry_ok P (Filepath.Join [dst; Name h])) ->
  preserves P (untargz_loop e dst hs end_).
Proof.
  induction hs as [|h hs IH]; intros Hok; cbn [untargz_loop].
  - apply preserves_ret.
  - destruct (Hok h (or_introl eq_refl)) as (Hd & Hdd & Hf & Hc).
    assert (IH' := IH (fun h' Hin => Hok h' (or_intror Hin))).
    repeat first
      [ exact IH'
      | apply preserves_os_MkdirAll; assumption
      | apply preserves_os_Create; assumption
      | apply preserves_io_Copy_entry; assumption
      | apply preserves_os_Chmod; assumption
      | preserves_step ].
Qed.

Lemma preserves_unzip_loop dst fl :
  (forall f, In f fl -> entry_ok P (Filepath.Join [dst; zName f])) ->
  preserves P (unzip_loop e dst fl).
Proof.
  induction fl as [|f fl IH]; intros Hok; cbn [unzip_loop].
  - apply preserves_ret.
  - destruct (Hok f (or_introl eq_refl)) as (Hd & Hdd & Hf & Hc).
    assert (IH' := IH (fun f' Hin => Hok f' (or_intror Hin))).
    repeat first
      [ exact IH'
      | apply preserves_os_MkdirAll; assumption
      | apply preserves_os_OpenFile_create_trunc; assumption
      | apply preserves_io_Copy_entry; assumption
      | preserves_step ].
Qed.

Lemma preserves_untargz src dst :
  (forall bytes ts h, targz_Reader e bytes = Ok ts -> In h (tar_entries ts) ->
                      entry_ok P (Filepath.Join [dst; Name h])) ->
  preserves P (untargz e src dst).
Proof.
  intros Hok. unfold untargz.
  apply preserves_bind; [apply preserves_os_Open|]. intros [bytes|m]; [|apply preserves_ret].
  destruct (targz_Reader e bytes) as [ts|m] eqn:E; [|apply preserves_ret].
  apply preserves_untargz_loop. intros h Hin. exact (Hok _ _ _ E Hin).
Qed.

Lemma preserves_unzip src dst :
  (forall bytes files f, zip_Reader e bytes = Ok files -> In f files ->
                         entry_ok P (Filepath.Join [dst; zName f])) ->
  preserves P (unzip e src dst).
Proof.
  intros Hok. unfold unzip.
  apply preserves_bind; [apply preserves_os_Open|]. intros [bytes|m]; [|apply preserves_ret].
  destruct (zip_Reader e bytes) as [files|m] eqn:E; [|apply preserves_ret].
  apply preserves_unzip_loop. intros f Hin. exact (Hok _ _ _ E Hin).
Qed.

End Phases.

(** * The download and the extractors return *)

Section MoreReturns.

Variable e : Env.

Lemma returns_os_Open p : returns (os_Open e p).
Proof.
  intros w. unfold os_Open, bind, emit, ret, get_fs. cbn [fs trace deferred].
  destruct (fault e (OpOpen p)); [eauto|]. cbn [fs trace deferred].
  destruct (FS.readFile (Filepath.elements p) (fs w)); eauto.
Qed.

Lemma returns_http_request method url : returns (http_request e method url).
Proof. intros w. rewrite http_request_spec. eauto. Qed.

Lemma returns_copy_rounds out cs : forall pr, returns (copy_rounds e out pr cs).
Proof.
  induction cs as [|ch cs IH]; intros pr; cbn [copy_rounds].
  - apply returns_ret.
  - destruct (progressReader_Read (conversion e) pr ch) as [pr' printed].
    unfold file_Write.
    repeat first [ apply IH | returns_step ].
Qed.

Lemma returns_download url path : returns (downloadFileWithProgress e url path).
Proof.
  unfold downloadFileWithProgress, io_Copy_progress, os_Create, file_Write.
  repeat first
    [ apply returns_http_request | apply returns_copy_rounds | returns_step ].
Qed.

Lemma returns_untargz_loop dst hs end_ : returns (untargz_loop e dst hs end_).
Proof.
  induction hs as [|h hs IH]; cbn [untargz_loop].
  - apply returns_ret.
  - unfold os_MkdirAll, os_Create, io_Copy_entry, os_Chmod, file_Write.
    repeat first [ exact IH | returns_step ].
Qed.

Lemma returns_unzip_loop dst fl : returns (unzip_loop e dst fl).
Proof.
  induction fl as [|f fl IH]; cbn [unzip_loop].
  - apply returns_ret.
  - unfold os_MkdirAll, os_OpenFile_create_trunc, io_Copy_entry, file_Write.
    repeat first [ exact IH | returns_step ].
Qed.

Lemma returns_extraction s tempDir : returns (extraction e s tempDir).
Proof.
  unfold extraction, unzip, untargz.
  repeat first
    [ apply returns_os_Open | apply returns_untargz_loop | apply returns_unzip_loop
    | returns_step ].
Qed.

End MoreReturns.

(** * Paths of the installation *)

Lemma has_sep_app a b :
  Filepath.has_sep (a ++ b)%string = Filepath.has_sep a || Filepath.has_sep b.
Proof.
  induction a as [|c a IH]; cbn [String.append Filepath.has_sep]; [reflexivity|].
  rewrite IH. apply orb_assoc.
Qed.

Lemma string_app_inv_head (a b c : string) : (a ++ b = a ++ c)%string -> b = c.
Proof.
  induction a as [|x a IH]; cbn [String.append]; intros H; [exact H|].
  injection H as H. auto.
Qed.

Lemma string_app_self (a b : string) : (a = a ++ b)%string -> b = "".
Proof.
  induction a as [|x a IH]; cbn [String.append]; intros H; [auto|].
  injection H as H. auto.
Qed.

Lemma is_prefix_snoc_inv (a b : list string) x y :
  FS.is_prefix (a ++ [x]) (b ++ [y]) = true ->
  x <> y -> FS.is_prefix (a ++ [x]) b = true.
Proof.
  revert b. induction a as [|h a IH]; intros b H Hxy.
  - destruct b as [|k b]; cbn [app FS.is_prefix] in *.
    + rewrite andb_true_r in H. apply String.eqb_eq in H. contradiction.
    + rewrite andb_true_r in *. exact H.
  - destruct b as [|k b]; cbn [app FS.is_prefix] in *.
    + apply andb_true_iff in H as [_ H]. destruct a; discriminate.
    + apply andb_true_iff in H as [H1 H2]. rewrite H1. cbn [andb]. auto.
Qed.

Lemma is_prefix_snoc_r (a b : list string) y :
  FS.is_prefix a b = true -> FS.is_prefix a (b ++ [y]) = true.
Proof.
  intros H. apply FSFacts.is_prefix_app in H as [r ->].
  rewrite <- app_assoc. apply FSFacts.is_prefix_app_true.
Qed.

Lemma lookup_below_dir (a : list string) r n :
  FS.lookup (a ++ r) n <> None -> r <> [] ->
  exists m k es c, FS.lookup a n = Some (FS.Dir m es) /\ FS.assoc k es = Some c.
Proof.
  intros H Hr. rewrite FSFacts.lookup_app in H.
  destruct (FS.lookup a n) as [c|]; [|contradiction].
  destruct r as [|k r]; [contradiction|].
  destruct c as [m d|m es]; cbn [FS.lookup] in H; [contradiction|].
  destruct (FS.assoc k es) as [c|] eqn:E; [|contradiction].
  eauto 6.
Qed.

Lemma assoc_Some_nonempty k es c : FS.assoc k es = Some c -> es <> [].
Proof. destruct es; [discriminate|discriminate]. Qed.

(** Removing a file or an empty directory leaves alone what exists and
    does not lie above it. *)
Lemma remove_frame p q n n' :
  FS.remove p n = Ok n' -> FS.lookup q n <> None -> FS.is_prefix q p = false ->
  FS.lookup q n' = FS.lookup q n.
Proof.
  intros Hr Hq Hqp. destruct (FS.is_prefix p q) eqn:Hpq.
  - exfalso. apply FSFacts.is_prefix_app in Hpq as [r ->].
    assert (r <> []) as Hne.
    { intros ->. rewrite app_nil_r, FSFacts.is_prefix_refl in Hqp. discriminate. }
    destruct (lookup_below_dir p r n Hq Hne) as (m & k & es & c & Hp & Ha).
    apply Frame.update_at in Hr as (o & Hf & _). rewrite Hp in Hf.
    destruct es; [discriminate|discriminate].
  - eapply Frame.update_frame; eauto.
Qed.

(** A file can be created only where no directory is. *)
Lemma create_not_above p q n n' mode :
  FS.create mode p n = Ok n' -> FS.lookup q n <> None -> FS.is_prefix p q = true ->
  exists m d, q = p /\ FS.lookup p n = Some (FS.File m d).
Proof.
  intros Hc Hq Hpq. apply FSFacts.is_prefix_app in Hpq as [r ->].
  apply Frame.update_at in Hc as (o & Hf & _).
  destruct r as [|k r].
  - rewrite app_nil_r in *. destruct (FS.lookup p n) as [[m d|m es]|];
      [eauto|discriminate|contradiction].
  - destruct (lookup_below_dir p (k :: r) n Hq) as (m & k' & es & c & Hp & Ha);
      [discriminate|]. rewrite Hp in Hf. discriminate.
Qed.

Section InstallPaths.

Variable e : Env.
Hypothesis Husual : usual e.

Lemma IsAbs_tempdir r : Filepath.IsAbs (tempdir_name e r) = true.
Proof.
  destruct Husual as (_ & Ht & _). unfold tempdir_name.
  apply PathFacts.IsAbs_app. exact Ht.
Qed.

Lemma plain_tempname r : Filepath.has_sep r = false -> plain_name ("getgo-extract" ++ r) = true.
Proof.
  intros H. unfold plain_name. cbn [String.append Filepath.has_sep].
  rewrite H. reflexivity.
Qed.

Lemma elements_tempdir r :
  In r (temp_names e) ->
  Filepath.elements (tempdir_name e r)
  = Filepath.elements (os_TempDir e) ++ [("getgo-extract" ++ r)%string].
Proof.
  intros Hin. destruct Husual as (_ & Ht & _ & _ & Hn).
  rewrite Forall_forall in Hn. specialize (Hn r Hin).
  rewrite <- (PathFacts.elements_Join (os_TempDir e) ("getgo-extract" ++ r) Ht
                (plain_tempname r Hn)).
  rewrite PathFacts.Join2 by exact Ht.
  rewrite PathFacts.elements_Clean by (apply PathFacts.IsAbs_app; exact Ht).
  reflexivity.
Qed.

Lemma elements_extracted r :
  In r (temp_names e) ->
  Filepath.elements (Filepath.Join [tempdir_name e r; "go"])
  = Filepath.elements (tempdir_name e r) ++ ["go"].
Proof.
  intros Hin. apply PathFacts.elements_Join; [apply IsAbs_tempdir|reflexivity].
Qed.

Variable fl : Flags.
Variable s : Setup.
Variables w w1 : World.
Hypothesis Hsetup : main_setup e fl w = Done s w1.
Hypothesis Hversion : Filepath.has_sep (version s) = false.

Lemma plain_archive_name : plain_name (archive_name s) = true.
Proof.
  destruct Husual as (_ & _ & Hos & Harch & _).
  destruct (main_setup_spec e fl w s w1 Hsetup)
    as (_ & _ & _ & Ho & Ha & Hext & _).
  unfold archive_name. apply plain_go.
  repeat rewrite has_sep_app. rewrite Hversion, Ho, Ha, Hos, Harch, Hext.
  destruct (String.eqb (GOOS e) "windows"); reflexivity.
Qed.

Lemma elements_archive :
  Filepath.elements (archivePath_of e s)
  = Filepath.elements (os_TempDir e) ++ [archive_name s].
Proof.
  destruct Husual as (_ & Ht & _). unfold archivePath_of.
  apply (PathFacts.elements_Join (os_TempDir e) (archive_name s) Ht plain_archive_name).
Qed.

Lemma versioned_not_archive : ("go" ++ version s)%string <> archive_name s.
Proof.
  unfold archive_name. intros H.
  apply string_app_inv_head in H. apply string_app_self in H. discriminate.
Qed.

Lemma versioned_not_tempname r : ("go" ++ version s)%string <> ("getgo-extract" ++ r)%string.
Proof. cbn [String.append]. intros H. discriminate. Qed.

End InstallPaths.

(** * Outcomes of the phases of an installation *)

Lemma ends_in_bind {A B} (m : M A) (k : A -> M B) Qd Qe w :
  ends_in (fun a w1 => ends_in Qd Qe (k a w1)) Qe (m w) ->
  ends_in Qd Qe (bind m k w).
Proof. unfold bind. destruct (m w); auto. Qed.

Lemma ends_in_weaken {A} (Qd Qd' : A -> World -> Prop) (Qe Qe' : Z -> World -> Prop) o :
  ends_in Qd Qe o ->
  (forall a w, Qd a w -> Qd' a w) -> (forall c w, Qe c w -> Qe' c w) ->
  ends_in Qd' Qe' o.
Proof. destruct o; simpl; auto. Qed.


Lemma ends_in_sys e op name p f Qd Qe w :
  (forall n', fault e op = false -> f (fs w) = Ok n' ->
     Qd None {| fs := n'; trace := trace w ++ [EvSys op]; deferred := deferred w |}) ->
  (forall m,
     Qd (Some m) {| fs := fs w; trace := trace w ++ [EvSys op]; deferred := deferred w |}) ->
  ends_in Qd Qe (sys e op name p f w).
Proof.
  intros Hok Herr.
  destruct (sys_spec e op name p f w) as (r & n' & -> & [(-> & Hf & Hn)|(Hr & ->)]);
    simpl; auto.
  destruct r; [apply Herr|contradiction].
Qed.

Lemma ends_in_print {A} s (k : M A) Qd Qe w :
  ends_in Qd Qe
    (k {| fs := fs w; trace := trace w ++ [EvPrint s]; deferred := deferred w |}) ->
  ends_in Qd Qe (bind (print s) (fun _ => k) w).
Proof. intros H. exact H. Qed.

Lemma trace_ext_trans (t0 t1 t2 : list Event) :
  (exists a, t1 = t0 ++ a) -> (exists b, t2 = t1 ++ b) -> exists c, t2 = t0 ++ c.
Proof. intros [a ->] [b ->]. exists (a ++ b). symmetry. apply app_assoc. Qed.

Lemma trace_ext_one (t0 : list Event) ev : exists a, t0 ++ [ev] = t0 ++ a.
Proof. eauto. Qed.

Lemma trace_ext_refl (t0 : list Event) : exists a, t0 = t0 ++ a.
Proof. exists []. symmetry. apply app_nil_r. Qed.

(** With neither [-u] nor [--envrc], the configuration only prints. *)
Lemma configure_prints e fl goroot gopath w :
  isUnattendedMode fl = false -> envrcFlag fl = "" ->
  exists evs,
    configure e fl goroot gopath w
    = Done tt {| fs := fs w; trace := trace w ++ evs; deferred := deferred w |}.
Proof.
  intros Hu He. unfold configure, setupEnvrcIfRequested, printEnvVars.
  rewrite Hu, He. cbn [String.eqb negb].
  destruct (String.eqb (GOOS e) "windows");
    unfold bind, print, emit, ret; cbn [fs trace deferred];
    repeat rewrite <- app_assoc; eexists; reflexivity.
Qed.

Lemma snoc_neq (a b : list string) x y : x <> y -> a ++ [x] <> b ++ [y].
Proof. intros Hxy H. apply app_inj_tail in H as [_ H]. contradiction. Qed.

Lemma Dir_is_prefix a b :
  Filepath.IsAbs a = true ->
  FS.is_prefix (Filepath.elements (Filepath.Dir (Filepath.Join [a; b])))
    (Filepath.elements (Filepath.Join [a; b])) = true.
Proof.
  intros Ha. rewrite PathFacts.Join2 by exact Ha.
  rewrite PathFacts.Clean_rooted by (apply PathFacts.IsAbs_app; exact Ha).
  pose proof (PathFacts.elements_plain (a ++ String Filepath.Separator b)) as Hp.
  set (es := Filepath.elements (a ++ String Filepath.Separator b)) in *.
  clearbody es. induction es as [|c es _] using rev_ind.
  - reflexivity.
  - apply Forall_app in Hp as [Hp1 Hp2]. inversion Hp2; subst.
    rewrite PathFacts.elements_Dir_rooted by assumption.
    rewrite PathFacts.elements_rooted_path.
    + apply FSFacts.is_prefix_app_true.
    + apply Forall_app. split; [assumption|]. constructor; [assumption|constructor].
Qed.

(** * The versioned directory through an installation *)

Section Install.

Variable e : Env.
Hypothesis Husual : usual e.
Hypothesis Hcontained : contained e.
Variable fl : Flags.
Variable s : Setup.
Variables w w1 : World.
Hypothesis Hsetup : main_setup e fl w = Done s w1.
Hypothesis Hversion : Filepath.has_sep (version s) = false.

Local Notation "'Vdir'" := (Filepath.elements (versionedGoDir s)).
Local Notation "'Idir'" := (Filepath.elements (installPath s)).
Local Notation "'vname'" := ("go" ++ version s)%string.

Lemma Hwd : forall wd, os_Getwd (paths e) = Ok wd -> Filepath.IsAbs wd = true.
Proof. destruct Husual as (H & _). exact H. Qed.

Lemma versioned_elements : Vdir = Idir ++ [vname].
Proof. destruct (setup_versioned e Hwd fl w s w1 Hsetup Hversion) as (_ & _ & H & _). exact H. Qed.


Lemma versioned_above_install : FS.is_prefix Vdir Idir = false.
Proof. rewrite versioned_elements. apply is_prefix_snoc_false. Qed.

Lemma install_dir_made mode n n' :
  FS.mkdirAll mode Idir n = Ok n' -> absent s n -> ready s n'.
Proof.
  intros Hmk Ha. split.
  - eapply FSFacts.mkdirAll_absent; eauto. apply versioned_above_install.
  - destruct (FSFacts.mkdirAll_is_dir _ _ _ _ Hmk) as (m & es & ->). discriminate.
Qed.

Lemma archive_file_ok : file_ok (ready s) (archivePath_of e s).
Proof.
  assert (Vdir <> Filepath.elements (archivePath_of e s)) as Hne.
  { rewrite versioned_elements, (elements_archive e Husual fl s w w1 Hsetup Hversion).
    apply snoc_neq. apply versioned_not_archive. }
  split.
  - intros mode n n' Hc [Ha Hi]. split.
    + eapply Frame.update_absent; [apply Frame.leaf_like_create|exact Hc|exact Ha|exact Hne].
    + eapply Frame.update_present; [apply Frame.leaf_like_create| |exact Hc|exact Hi].
      intros [[m d|m es]|]; discriminate.
  - intros d n n' Hc [Ha Hi]. split.
    + eapply Frame.update_absent; [apply Frame.leaf_like_append|exact Hc|exact Ha|exact Hne].
    + eapply Frame.update_present; [apply Frame.leaf_like_append| |exact Hc|exact Hi].
      intros [[m d0|m es]|]; discriminate.
Qed.

(** What [os.MkdirTemp] leaves: a fresh directory beside the versioned
    directory, neither inside the other. *)
Lemma mkdirTemp_outcome names : forall w0,
  incl names (temp_names e) -> ready s (fs w0) ->
  ends_in
    (fun res w' =>
       absent s (fs w') /\ deferred w' = deferred w0
       /\ (exists evs, trace w' = trace w0 ++ evs)
       /\ match res with
          | Ok T => exists r, T = tempdir_name e r /\ beside e s r
          | Err _ => True
          end)
    (fun _ _ => False)
    (mkdirTemp_try e "getgo-extract" names w0).
Proof.
  induction names as [|r names IH]; intros w0 Hincl [Ha Hi].
  - simpl. repeat split; auto using trace_ext_refl.
  - cbn [mkdirTemp_try]. unfold bind at 1. cbn [emit].
    change (os_TempDir e ++ "/" ++ "getgo-extract" ++ r)%string with (tempdir_name e r).
    destruct (fault e (OpMkdir (tempdir_name e r))).
    { simpl. repeat split; auto using trace_ext_one. }
    unfold bind at 1. cbn [get_fs fs].
    assert (In r (temp_names e)) as Hin by (apply Hincl; left; reflexivity).
    pose proof (elements_tempdir e Husual r Hin) as HT.
    destruct (FS.mkdir (masked e 448) (Filepath.elements (tempdir_name e r)) (fs w0))
      as [n'|x] eqn:Hmk.
    + simpl. repeat split; auto using trace_ext_one.
      * eapply Frame.update_absent; [apply Frame.leaf_like_mkdir|exact Hmk|exact Ha|].
        rewrite versioned_elements, HT. apply snoc_neq. apply versioned_not_tempname.
      * exists r. split; [reflexivity|]. split; [exact Hin|].
        pose proof (Frame.update_at _ _ _ _ Hmk) as (o & Hf & Ho).
        split.
        -- destruct (FS.is_prefix (Filepath.elements (tempdir_name e r)) Vdir) eqn:Hp;
             [exfalso|reflexivity].
           destruct (FS.lookup (Filepath.elements (tempdir_name e r)) (fs w0)) eqn:Hl;
             [discriminate|].
           rewrite versioned_elements, HT in Hp.
           apply is_prefix_snoc_inv in Hp;
             [|intros H; symmetry in H; revert H; apply versioned_not_tempname].
           rewrite <- HT in Hp.
           exact (Frame.lookup_prefix_exists _ _ _ Hp Hi Hl).
        -- destruct (FS.is_prefix Vdir (Filepath.elements (tempdir_name e r))) eqn:Hp;
             [exfalso|reflexivity].
           assert (FS.lookup Vdir n' = None) as Ha'.
           { eapply Frame.update_absent; [apply Frame.leaf_like_mkdir|exact Hmk|exact Ha|].
             rewrite versioned_elements, HT. apply snoc_neq. apply versioned_not_tempname. }
           refine (Frame.lookup_prefix_exists _ _ _ Hp _ Ha').
           rewrite Ho. destruct (FS.lookup (Filepath.elements (tempdir_name e r)) (fs w0));
             [discriminate|]. injection Hf as <-. discriminate.
    + destruct (String.eqb x FS.EEXIST).
      * assert (ready s (fs {| fs := fs w0;
                             trace := trace w0 ++ [EvSys (OpMkdir (tempdir_name e r))];
                             deferred := deferred w0 |})) as Hr by (split; assumption).
        specialize (IH _ (fun x Hx => Hincl x (or_intror Hx)) Hr).
        eapply ends_in_weaken; [exact IH| |auto].
        cbn [fs trace deferred]. intros res w' (H1 & H2 & H3 & H4).
        repeat split; auto.
        eapply trace_ext_trans; [apply trace_ext_one|exact H3].
      * simpl. repeat split; auto using trace_ext_one.
Qed.

(** Every call of the extraction of a contained archive leaves the absent
    versioned directory absent. *)
Lemma contained_entry_ok r name :
  beside e s r ->
  FS.is_prefix (Filepath.elements (tempdir_name e r))
    (Filepath.elements (Filepath.Join [tempdir_name e r; name])) = true ->
  entry_ok (absent s) (Filepath.Join [tempdir_name e r; name]).
Proof.
  intros (Hin & HTV & HVT) Hp.
  assert (FS.is_prefix Vdir (Filepath.elements (Filepath.Join [tempdir_name e r; name]))
          = false) as Hnot.
  { destruct (FS.is_prefix Vdir
                (Filepath.elements (Filepath.Join [tempdir_name e r; name]))) eqn:E;
      [exfalso|reflexivity].
    destruct (Frame.is_prefix_comparable _ _ _ E Hp) as [H|H]; congruence. }
  assert (Vdir <> Filepath.elements (Filepath.Join [tempdir_name e r; name])) as Hne.
  { intros H. rewrite <- H in Hnot. rewrite FSFacts.is_prefix_refl in Hnot. discriminate. }
  repeat split.
  - intros mode n n' Hmk Ha. eapply FSFacts.mkdirAll_absent; eauto.
  - intros mode n n' Hmk Ha. eapply FSFacts.mkdirAll_absent; eauto.
    destruct (FS.is_prefix Vdir
                (Filepath.elements
                   (Filepath.Dir (Filepath.Join [tempdir_name e r; name])))) eqn:E;
      [exfalso|reflexivity].
    pose proof (Dir_is_prefix (tempdir_name e r) name (IsAbs_tempdir e Husual r)) as Hd.
    rewrite (Frame.is_prefix_trans _ _ _ E Hd) in Hnot. discriminate.
  - intros mode n n' Hc Ha.
    eapply Frame.update_absent; [apply Frame.leaf_like_create|exact Hc|exact Ha|exact Hne].
  - intros d n n' Hc Ha.
    eapply Frame.update_absent; [apply Frame.leaf_like_append|exact Hc|exact Ha|exact Hne].
  - intros mode n n' Hc Ha.
    eapply Frame.update_absent; [apply Frame.leaf_like_chmod|exact Hc|exact Ha|exact Hne].
Qed.

Lemma extraction_keeps_absent r :
  beside e s r -> preserves (absent s) (extraction e s (tempdir_name e r)).
Proof.
  intros Hb. pose proof Hb as (Hin & _). destruct (Hcontained r Hin) as [Htar Hzip].
  unfold extraction. destruct (String.eqb (osName s) "windows").
  - apply preserves_unzip. intros bytes files f Hr Hf.
    apply contained_entry_ok; [exact Hb|eapply Hzip; eauto].
  - apply preserves_untargz. intros bytes ts h Hr Hh.
    apply contained_entry_ok; [exact Hb|eapply Htar; eauto].
Qed.

End Install.

(** * Promotion and the end of an installation *)

Ltac trace_ext :=
  repeat match goal with
         | H : exists evs, trace _ = _ ++ evs |- _ =>
             let x := fresh "evs" in destruct H as [x H]
         end;
  cbn [fs trace deferred] in *;
  repeat match goal with
         | H : trace _ = _ ++ _ |- _ => rewrite H in *; clear H
         end;
  repeat rewrite <- app_assoc; eexists; reflexivity.

Lemma rename_source a b n n' : FS.rename a b n = Ok n' -> FS.lookup a n <> None.
Proof. unfold FS.rename. destruct (FS.lookup a n); [discriminate|discriminate]. Qed.

Section Promotion.

Variable e : Env.
Hypothesis Husual : usual e.
Hypothesis Hcontained : contained e.
Variable fl : Flags.
Variable s : Setup.
Variables w w1 : World.
Hypothesis Hsetup : main_setup e fl w = Done s w1.
Hypothesis Hversion : Filepath.has_sep (version s) = false.

Local Notation "'Vdir'" := (Filepath.elements (versionedGoDir s)).
Local Notation "'Idir'" := (Filepath.elements (installPath s)).


Lemma versioned_not_above_archive r :
  beside e s r -> FS.is_prefix Vdir (Filepath.elements (archivePath_of e s)) = false.
Proof.
  intros (Hin & _ & HVT).
  destruct (FS.is_prefix Vdir (Filepath.elements (archivePath_of e s))) eqn:E;
    [exfalso|reflexivity].
  rewrite (elements_archive e Husual fl s w w1 Hsetup Hversion) in E.
  rewrite (versioned_elements e Husual fl s w w1 Hsetup Hversion) in E, HVT.
  apply is_prefix_snoc_inv in E; [|apply versioned_not_archive].
  apply (is_prefix_snoc_r _ _ ("getgo-extract" ++ r)%string) in E.
  rewrite <- (elements_tempdir e Husual r Hin) in E. congruence.
Qed.


Hypothesis Hquiet : isUnattendedMode fl = false.
Hypothesis Hnoenvrc : envrcFlag fl = "".


End Promotion.

(** * C1: the versioned directory is never partially populated *)



(** * The properties on concrete machines *)

Lemma usual_machine goos mask faults head get tar zip :
  Filepath.has_sep goos = false ->
  usual (Scenario.machine goos mask faults head get tar zip).
Proof.
  intros Hg. repeat split; try reflexivity; try exact Hg.
  - intros wd H. injection H as <-. reflexivity.
  - repeat constructor.
Qed.

Lemma contained_linux : contained Scenario.linux.
Proof.
  intros r [<-|[]]. split.
  - intros bytes ts h Hr Hin. injection Hr as <-.
    destruct Hin as [<-|[<-|[<-|[]]]]; reflexivity.
  - intros bytes files f Hr. discriminate Hr.
Qed.



(** The conditions of C2 are met when Go 1.23.1 is asked for by name and is
    installed already. *)
Lemma installed_version_short_circuits_witness :
  let e := Scenario.linux in
  let fl := Scenario.flags ["1.23.1"; "/opt/go"] in
  let w := Scenario.start Scenario.installed_tree in
  let s := Scenario.setup "1.23.1" "/opt/go" in
  (main_setup e fl w = Done s w
   /\ FS.exists_ (Filepath.elements (versionedGoDir s)) (fs w) = true)
  /\ exists w' evs_setup evs_after,
       main e fl w = (0, w')
       /\ trace w' = trace w ++ evs_setup ++ [EvStat (versionedGoDir s)] ++ evs_after
       /\ forallb setup_event evs_setup = true
       /\ filter is_network evs_setup
          = (if wants_latest fl then [EvHttp "GET" versions_url] else [])
       /\ forallb quiet evs_after = true.
Proof.
  intros e fl w s. split; [split; reflexivity|].
  apply (installed_version_short_circuits e fl w s w eq_refl eq_refl).
Defined.

(** C2 does not hold as stated: asked for [latest], the run sends the
    request for the list of versions before it looks for the versioned
    directory, also when that directory exists. *)
Lemma installed_version_short_circuits_counterexample :
  let e := Scenario.linux in
  let fl := Scenario.flags ["latest"; "/opt/go"] in
  let w := Scenario.start Scenario.installed_tree in
  FS.exists_ (Filepath.elements "/opt/go/go1.23.1") (fs w) = true
  /\ fst (main e fl w) = 0
  /\ trace (snd (main e fl w))
     = [EvPrint "Fetching latest Go version...";
        EvHttp "GET" "https://go.dev/dl/?mode=json";
        EvPrint "Latest Go version is 1.23.1";
        EvStat "/opt/go/go1.23.1";
        EvPrint "Go version 1.23.1 already exists at /opt/go/go1.23.1";
        EvPrint (nl ++ "Go environment variables:" ++ nl);
        EvPrint "export GOROOT=/opt/go/go1.23.1";
        EvPrint "export GOPATH=/home/gopher/go";
        EvPrint "export PATH=$PATH:$GOPATH/bin:$GOROOT/bin";
        EvPrint ""].
Proof. intros e fl w. repeat split; vm_compute; reflexivity. Qed.

(** C3 fails in the code: when the extraction fails, [main] leaves through
    [os.Exit], the deferred [os.RemoveAll] is still pending and never runs,
    and the extraction directory stays, with what was extracted so far. *)
Theorem tempdir_left_after_failed_extraction :
  let run := main Scenario.linux_truncated (Scenario.flags ["1.23.1"; "/opt/go"])
               (Scenario.start Scenario.tree) in
  fst run = 1
  /\ FS.lookup (Filepath.elements "/tmp/getgo-extract123456") (fs (snd run))
     = Some (FS.Dir 448 [("go", FS.Dir 493 [("VERSION", FS.File 420 "go1.23.1")])])
  /\ deferred (snd run) = [DeferRemoveAll "/tmp/getgo-extract123456"]
  /\ last (trace (snd run)) (EvPrint "")
     = EvPrint "Error extracting archive: unexpected EOF"
  /\ forall p, ~ In (EvSys (OpRemoveAll p)) (trace (snd run)).
Proof.
  intros run. repeat split; try (vm_compute; reflexivity).
  intros p H. vm_compute in H.
  repeat (destruct H as [H|H]; [discriminate H|]). exact H.
Qed.

(** C4 fails in the code for [unzip]: the error of the [os.MkdirAll] for a
    directory entry is dropped.  With a file [go] and then a directory
    [go/bin/] in the archive, the directory cannot be made; [unzip] returns
    no error all the same, where [untargz] returns the error of the call. *)
Theorem unzip_ignores_directory_failure :
  let files := [Scenario.zip_file "go" 420 "x"; Scenario.zip_dir "go/bin/"] in
  let entries := [Scenario.tar_file "go" 420 "x"; Scenario.tar_dir "go/bin/"] in
  let w := Scenario.start Scenario.archive_tree in
  FS.mkdirAll (masked (Scenario.with_zip 18 files) (zMode (Scenario.zip_dir "go/bin/")))
    (Filepath.elements "/tmp/x/go/bin")
    (FS.Dir 493 [("tmp", FS.Dir 511 [("a", FS.File 420 "PK");
                                     ("x", FS.Dir 448 [("go", FS.File 420 "x")])])])
  = Err FS.ENOTDIR
  /\ unzip (Scenario.with_zip 18 files) "/tmp/a" "/tmp/x" w
     = Done None
         {| fs := FS.Dir 493 [("tmp", FS.Dir 511 [("a", FS.File 420 "PK");
                                                  ("x", FS.Dir 448 [("go", FS.File 420 "x")])])];
            trace := [EvSys (OpOpen "/tmp/a"); EvSys (OpMkdirAll "/tmp/x");
                      EvSys (OpOpenFile "/tmp/x/go"); EvSys (OpWrite "/tmp/x/go");
                      EvSys (OpMkdirAll "/tmp/x/go/bin")];
            deferred := [] |}
  /\ exists w',
       untargz (Scenario.with_tar 18 entries) "/tmp/a" "/tmp/x" w
       = Done (Some "mkdir /tmp/x/go/bin: not a directory") w'.
Proof.
  intros files entries w. repeat split; try (vm_compute; reflexivity).
  eexists. vm_compute. reflexivity.
Qed.

(** C8 fails in the code for [unzip]: it never calls [os.Chmod]; the stored
    mode only reaches [os.OpenFile], which creates the file with the mode
    less the bits of the process mask.  With a mask of 0077, the entries
    stored with 0644 and 0755 come out as 0600 and 0700 from [unzip], and
    with their stored modes from [untargz]. *)
Theorem unzip_modes_masked :
  let files := [Scenario.zip_file "a" 420 "x"; Scenario.zip_file "b" 493 "y"] in
  let entries := [Scenario.tar_file "a" 420 "x"; Scenario.tar_file "b" 493 "y"] in
  let w := Scenario.start Scenario.archive_tree in
  let unzipped := world_of (unzip (Scenario.with_zip 63 files) "/tmp/a" "/tmp/x" w) in
  let untarred := world_of (untargz (Scenario.with_tar 63 entries) "/tmp/a" "/tmp/x" w) in
  (exists w', unzip (Scenario.with_zip 63 files) "/tmp/a" "/tmp/x" w = Done None w')
  /\ FS.lookup (Filepath.elements "/tmp/x/a") (fs unzipped) = Some (FS.File 384 "x")
  /\ FS.lookup (Filepath.elements "/tmp/x/b") (fs unzipped) = Some (FS.File 448 "y")
  /\ Forall (fun ev => forall p, ev <> EvSys (OpChmod p)) (trace unzipped)
  /\ (exists w', untargz (Scenario.with_tar 63 entries) "/tmp/a" "/tmp/x" w = Done None w')
  /\ FS.lookup (Filepath.elements "/tmp/x/a") (fs untarred) = Some (FS.File 420 "x")
  /\ FS.lookup (Filepath.elements "/tmp/x/b") (fs untarred) = Some (FS.File 493 "y").
Proof.
  intros files entries w unzipped untarred.
  repeat split; try (vm_compute; reflexivity);
    try (eexists; vm_compute; reflexivity).
  vm_compute. repeat constructor; intros p H; discriminate H.
Qed.

(** The conditions of C5 are met by the download of ten bytes in three
    reads on [Scenario.linux]. *)
Lemma progress_bars_rise_to_100_witness :
  let e := Scenario.linux in
  let url := "https://go.dev/dl/go1.23.1.linux-amd64.tar.gz" in
  let path := "/tmp/go1.23.1.linux-amd64.tar.gz" in
  let w := Scenario.start Scenario.tree in
  (forall hr r, http_Head e url = Ok hr -> http_Get e url = Ok r ->
     0 < ContentLength hr <= Float64.MaxInt64
     /\ body_length (body r) = ContentLength hr)
  /\ exists err w' evs ps,
       downloadFileWithProgress e url path w = Done err w'
       /\ trace w' = trace w ++ evs
       /\ prints evs = map renderProgressBar ps
       /\ Sorted Z.le ps
       /\ Forall (fun p => 0 <= p <= 100) ps
       /\ (ps <> [] -> last ps 0 = 100)
       /\ (err = None -> ps <> []).
Proof.
  intros e url path w.
  assert (forall hr r, http_Head e url = Ok hr -> http_Get e url = Ok r ->
            0 < ContentLength hr <= Float64.MaxInt64
            /\ body_length (body r) = ContentLength hr) as H.
  { intros hr r H1 H2. injection H1 as <-. injection H2 as <-.
    split; [split|reflexivity]; [reflexivity|discriminate]. }
  split; [exact H|].
  apply (progress_bars_rise_to_100 e url path w H).
Defined.


(** The conditions of C9 are met by the [.profile] and the [.envrc] of
    [Scenario.tree], which both set [GOROOT]. *)
Lemma env_file_with_GOROOT_untouched_witness :
  let e := Scenario.linux in
  let w := Scenario.start Scenario.tree in
  let w1 := {| fs := Scenario.tree; trace := [EvStat "/home/gopher/.profile"];
               deferred := [] |} in
  (getShellConfigFile e w = Done "/home/gopher/.profile" w1
   /\ FS.lookup (Filepath.elements "/home/gopher/.profile") (fs w)
      = Some (FS.File 420 Scenario.profile_text)
   /\ expandPath (paths e) "/work/dir" = Ok "/work/dir"
   /\ FS.is_dir (Filepath.elements "/work/dir") (fs w) = true
   /\ FS.lookup (Filepath.elements "/work/dir/.envrc") (fs w)
      = Some (FS.File 420 Scenario.profile_text)
   /\ Strings.Contains Scenario.profile_text "GOROOT=" = true)
  /\ (exists w' evs,
        setupUnixEnvironment e "/opt/go/go1.23.1" "/home/gopher/go" w = Done tt w'
        /\ trace w' = trace w ++ evs
        /\ Forall (fun ev => is_write ev = false) evs
        /\ fs w' = fs w1
        /\ FS.lookup (Filepath.elements "/home/gopher/.profile") (fs w')
           = Some (FS.File 420 Scenario.profile_text))
  /\ (exists r w' evs,
        setupEnvrcFile e "/work/dir" "/opt/go/go1.23.1" "/home/gopher/go" w = Done r w'
        /\ trace w' = trace w ++ evs
        /\ Forall (fun ev => is_write ev = false) evs
        /\ FS.lookup (Filepath.elements "/work/dir/.envrc") (fs w')
           = Some (FS.File 420 Scenario.profile_text)).
Proof.
  intros e w w1.
  split; [repeat split; reflexivity|].
  destruct (env_file_with_GOROOT_untouched e "/opt/go/go1.23.1" "/home/gopher/go" w)
    as [Hunix Henvrc].
  split.
  - apply (Hunix "/home/gopher/.profile" w1 420 Scenario.profile_text);
      reflexivity.
  - apply (Henvrc "/work/dir" "/work/dir" "/work/dir/.envrc" 420 Scenario.profile_text);
      reflexivity.
Defined.

(** * Further properties of the path helper and of the progress bar *)

(** X1. Expanding a path a second time changes nothing: what [expandPath]
    returns is a path that [expandPath] returns as it is.  This is what
    makes the second expansion of the versioned directory in [main]
    (lines 200 and 280) harmless. *)
Theorem expandPath_idempotent (e : PathEnv) (path p : string) :
  (forall wd, os_Getwd e = Ok wd -> Filepath.IsAbs wd = true) ->
  expandPath e path = Ok p -> expandPath e p = Ok p.
Proof.
  intros Hwd H. apply expandPath_abs. exact (expandPath_IsAbs e path p Hwd H).
Qed.

(** The conditions of X1 are met by [demoPathEnv] and the path [~/go/../x]. *)
Lemma expandPath_idempotent_witness :
  (forall wd, os_Getwd demoPathEnv = Ok wd -> Filepath.IsAbs wd = true)
  /\ expandPath demoPathEnv "~/go/../x" = Ok "/home/gopher/x"
  /\ expandPath demoPathEnv "/home/gopher/x" = Ok "/home/gopher/x".
Proof.
  assert (Hwd : forall wd, os_Getwd demoPathEnv = Ok wd -> Filepath.IsAbs wd = true).
  { intros wd H. injection H as <-. reflexivity. }
  split; [exact Hwd|]. split; [reflexivity|].
  apply (expandPath_idempotent demoPathEnv "~/go/../x" "/home/gopher/x" Hwd eq_refl).
Defined.

Lemma renderProgressBar_clamp p :
  renderProgressBar p = renderProgressBar (Z.max 0 (Z.min 100 p)).
Proof.
  unfold renderProgressBar.
  destruct (p <? 0) eqn:H0.
  - apply Z.ltb_lt in H0. replace (Z.max 0 (Z.min 100 p)) with 0 by lia. reflexivity.
  - destruct (100 <? p) eqn:H1.
    + apply Z.ltb_lt in H1. replace (Z.max 0 (Z.min 100 p)) with 100 by lia. reflexivity.
    + replace (Z.max 0 (Z.min 100 p)) with p.
      * rewrite H0, H1. reflexivity.
      * apply Z.ltb_ge in H0, H1. lia.
Qed.

Lemma bars_checked :
  forallb (fun n => Nat.eqb (String.length (renderProgressBar (Z.of_nat n))) 71
                    && Nat.eqb (count_char "="%char (renderProgressBar (Z.of_nat n)))
                         (Z.to_nat (Z.of_nat n / 2)))
    (seq 0 101) = true.
Proof. vm_compute. reflexivity. Qed.

(** X2. Every progress bar is 71 characters long, whatever the integer it
    is rendered for, so that a bar printed after a carriage return covers
    the one before it; and it shows one [=] for every two percent of the
    percentage brought into 0..100. *)
Theorem renderProgressBar_width (p : Z) :
  String.length (renderProgressBar p) = 71%nat
  /\ count_char "="%char (renderProgressBar p)
     = Z.to_nat (Z.max 0 (Z.min 100 p) / 2).
Proof.
  rewrite renderProgressBar_clamp.
  set (q := Z.max 0 (Z.min 100 p)).
  assert (0 <= q <= 100) as Hq by (unfold q; lia).
  clearbody q.
  pose proof bars_checked as H. rewrite forallb_forall in H.
  specialize (H (Z.to_nat q)).
  rewrite Z2Nat.id in H by lia.
  assert (In (Z.to_nat q) (seq 0 101)) as Hin by (apply in_seq; lia).
  apply H in Hin. apply andb_true_iff in Hin as [H1 H2].
  apply Nat.eqb_eq in H1, H2. split; assumption.
Qed.

(** * What a download leaves in the file *)

Lemma concat_nil_cons (x : string) l :
  String.concat "" (x :: l) = (x ++ String.concat "" l)%string.
Proof.
  destruct l as [|y l]; cbn [String.concat].
  - symmetry. apply PathFacts.append_nil_r.
  - reflexivity.
Qed.

Lemma length_zero (s : string) : (0 <? Z.of_nat (String.length s)) = false -> s = "".
Proof. destruct s; [reflexivity|]. cbn [String.length]. intros H. apply Z.ltb_ge in H. lia. Qed.

Section Content.

Variable e : Env.
Variable out : string.

Lemma write_step n0 m d bytes w r w' :
  holds out n0 m d (fs w) ->
  (if 0 <? Z.of_nat (String.length bytes) then file_Write e out bytes else ret None) w
  = Done r w' ->
  (r = None -> holds out n0 m (d ++ bytes)%string (fs w'))
  /\ (r <> None -> fs w' = fs w).
Proof.
  intros [Hl Hf] H.
  destruct (0 <? Z.of_nat (String.length bytes)) eqn:Hlen.
  - unfold file_Write in H.
    destruct (sys_spec e (OpWrite out) "write" out
                (FS.append bytes (Filepath.elements out)) w)
      as (r0 & n' & E & Hcase).
    rewrite E in H. injection H as <- <-. cbn [fs].
    destruct Hcase as [(-> & _ & Happ)|(Hr & ->)].
    + split; [intros _|intros Hc; contradiction].
      split.
      * destruct (Frame.update_at _ _ _ _ Happ) as (o & Ho & ->).
        rewrite Hl in Ho. injection Ho as <-. reflexivity.
      * intros q H1 H2. rewrite <- (Hf q H1 H2).
        eapply Frame.update_frame; eauto.
    + split; [intros Hc; contradiction|reflexivity].
  - injection H as <- <-. apply length_zero in Hlen. subst bytes.
    rewrite PathFacts.append_nil_r.
    split; [intros _; split; assumption|intros Hc; contradiction].
Qed.

Lemma copy_rounds_content n0 cs : forall pr w m d pr' w',
  holds out n0 m d (fs w) ->
  copy_rounds e out pr cs w = Done (pr', None) w' ->
  holds out n0 m (d ++ String.concat "" (map data cs))%string (fs w').
Proof.
  induction cs as [|ch cs IH]; intros pr w m d pr' w' Hh H.
  - injection H as _ <-. cbn. rewrite PathFacts.append_nil_r. exact Hh.
  - cbn [copy_rounds] in H.
    destruct (progressReader_Read (conversion e) pr ch) as [pr1 printed].
    rewrite (bind_Done _ _ _ _ _ (print_all_spec _ _)) in H.
    apply bind_inv in H. destruct H as (r & w2 & Hw & H).
    apply write_step with (n0 := n0) (m := m) (d := d) in Hw; [|exact Hh].
    destruct r as [msg|]; [discriminate H|].
    destruct Hw as [Hw _]. specialize (Hw eq_refl).
    cbn [map]. rewrite concat_nil_cons, <- PathFacts.append_assoc.
    eapply IH; eauto.
Qed.

Lemma copy_plain_content n0 cs : forall w m d w',
  holds out n0 m d (fs w) ->
  copy_plain e out cs w = Done None w' ->
  holds out n0 m (d ++ String.concat "" (map data cs))%string (fs w').
Proof.
  induction cs as [|ch cs IH]; intros w m d w' Hh H.
  - injection H as <-. cbn. rewrite PathFacts.append_nil_r. exact Hh.
  - cbn [copy_plain] in H.
    apply bind_inv in H. destruct H as (r & w2 & Hw & H).
    apply write_step with (n0 := n0) (m := m) (d := d) in Hw; [|exact Hh].
    destruct r as [msg|]; [discriminate H|].
    destruct Hw as [Hw _]. specialize (Hw eq_refl).
    cbn [map]. rewrite concat_nil_cons, <- PathFacts.append_assoc.
    eapply IH; eauto.
Qed.

Lemma io_Copy_progress_content n0 pr b w m d w' :
  holds out n0 m d (fs w) ->
  io_Copy_progress e out pr b w = Done None w' ->
  holds out n0 m (d ++ body_bytes b)%string (fs w') /\ final_err b = EOF.
Proof.
  intros Hh H. unfold io_Copy_progress in H.
  apply bind_inv in H. destruct H as ([pr1 [msg|]] & w1 & Hc & H); [discriminate H|].
  apply copy_rounds_content with (n0 := n0) (m := m) (d := d) in Hc; [|exact Hh].
  destruct (progressReader_Read (conversion e) pr1 (final b)) as [pr2 printed].
  rewrite (bind_Done _ _ _ _ _ (print_all_spec _ _)) in H.
  apply bind_inv in H. destruct H as (r & w2 & Hw & H).
  eapply write_step in Hw; [|exact Hc].
  destruct r as [msg|]; [discriminate H|].
  destruct Hw as [Hw _]. specialize (Hw eq_refl).
  unfold ret in H. injection H as Herr <-.
  unfold body_bytes. rewrite <- PathFacts.append_assoc. split; [exact Hw|].
  destruct (final_err b); [reflexivity|discriminate Herr].
Qed.

Lemma io_Copy_content n0 b w m d w' :
  holds out n0 m d (fs w) ->
  io_Copy e out b w = Done None w' ->
  holds out n0 m (d ++ body_bytes b)%string (fs w') /\ final_err b = EOF.
Proof.
  intros Hh H. unfold io_Copy in H.
  apply bind_inv in H. destruct H as ([msg|] & w1 & Hc & H); [discriminate H|].
  apply copy_plain_content with (n0 := n0) (m := m) (d := d) in Hc; [|exact Hh].
  apply bind_inv in H. destruct H as (r & w2 & Hw & H).
  eapply write_step in Hw; [|exact Hc].
  destruct r as [msg|]; [discriminate H|].
  destruct Hw as [Hw _]. specialize (Hw eq_refl).
  unfold ret in H. injection H as Herr <-.
  unfold body_bytes. rewrite <- PathFacts.append_assoc. split; [exact Hw|].
  destruct (final_err b); [reflexivity|discriminate Herr].
Qed.

(** A file created, or truncated, at [out]. *)
Lemma create_holds w r w' :
  os_Create e out w = Done r w' ->
  r = None ->
  exists m,
    holds out (fs w) m "" (fs w')
    /\ m = match FS.lookup (Filepath.elements out) (fs w) with
           | Some (FS.File m0 _) => m0
           | _ => masked e 438
           end.
Proof.
  intros H ->. unfold os_Create in H.
  destruct (sys_spec e (OpCreate out) "open" out
              (FS.create (masked e 438) (Filepath.elements out)) w)
    as (r0 & n' & E & Hcase).
  rewrite E in H. injection H as -> <-. cbn [fs].
  destruct Hcase as [(_ & _ & Hc)|(Hr & _)]; [|contradiction].
  destruct (Frame.update_at _ _ _ _ Hc) as (o & Ho & Hl).
  destruct (FS.lookup (Filepath.elements out) (fs w)) as [[m0 d0|m0 es]|];
    try discriminate Ho; injection Ho as <-;
    eexists; (split; [split; [exact Hl|]|reflexivity]);
    intros q H1 H2; eapply Frame.update_frame; eauto.
Qed.

End Content.

Lemma status_ok r : negb (StatusCode r =? StatusOK) = false -> StatusCode r = 200.
Proof.
  intros H. apply negb_false_iff in H. apply Z.eqb_eq in H. exact H.
Qed.

(** X3. A download that reports no error has left, at the given path, a
    file that holds exactly the bytes the GET response delivered up to its
    regular end: both requests were answered with status 200, a file that
    was there before has been emptied first and keeps its mode, a new file
    has mode 0666 less the mask, and nothing beside that path has changed. *)
Theorem download_writes_body (e : Env) (url path : string) (w w' : World) :
  downloadFileWithProgress e url path w = Done None w' ->
  exists hr r m,
    http_Head e url = Ok hr /\ StatusCode hr = 200
    /\ http_Get e url = Ok r /\ StatusCode r = 200
    /\ final_err (body r) = EOF
    /\ holds path (fs w) m (body_bytes (body r)) (fs w')
    /\ m = match FS.lookup (Filepath.elements path) (fs w) with
           | Some (FS.File m0 _) => m0
           | _ => masked e 438
           end.
Proof.
  intros H. unfold downloadFileWithProgress in H.
  rewrite (bind_Done _ _ _ _ _ (http_request_spec e "HEAD" url w)) in H.
  cbn [String.eqb Ascii.eqb Bool.eqb andb] in H.
  destruct (http_Head e url) as [hr|msg]; [|discriminate H].
  destruct (negb (StatusCode hr =? StatusOK)) eqn:Hs; [discriminate H|].
  rewrite (bind_Done _ _ _ _ _ (http_request_spec e "GET" url _)) in H.
  cbn [String.eqb Ascii.eqb Bool.eqb andb] in H.
  destruct (http_Get e url) as [r|msg]; [|discriminate H].
  destruct (negb (StatusCode r =? StatusOK)) eqn:Hs'; [discriminate H|].
  apply bind_inv in H. destruct H as (oerr & w1 & Hcreate & H).
  destruct oerr as [msg|]; [discriminate H|].
  destruct (create_holds e path _ _ _ Hcreate eq_refl) as (m & Hh & Hm).
  cbn [fs] in Hh, Hm.
  apply bind_inv in H. destruct H as (err & w2 & Hcopy & H).
  rewrite (bind_Done _ _ _ _ _ (print_spec _ _)) in H.
  injection H as -> <-. cbn [fs].
  destruct (io_Copy_progress_content e path _ _ _ _ _ _ _ Hh Hcopy) as [Hc Heof].
  exists hr, r, m. repeat split; auto using status_ok; apply Hc.
Qed.

(** The condition of X3 is met by the download of [Scenario.linux]. *)
Lemma download_writes_body_witness :
  let e := Scenario.linux in
  let url := "https://go.dev/dl/go1.23.1.linux-amd64.tar.gz" in
  let path := "/tmp/go1.23.1.linux-amd64.tar.gz" in
  let w := Scenario.start Scenario.tree in
  (exists w', downloadFileWithProgress e url path w = Done None w')
  /\ FS.lookup (Filepath.elements path)
       (fs (world_of (downloadFileWithProgress e url path w)))
     = Some (FS.File 420 "aaaabbbbcc").
Proof.
  intros e url path w.
  assert (downloadFileWithProgress e url path w
          = Done None (world_of (downloadFileWithProgress e url path w))) as H
    by (vm_compute; reflexivity).
  split; [eexists; exact H|].
  destruct (download_writes_body e url path w _ H)
    as (hr & r & m & _ & _ & Hget & _ & _ & [Hl _] & Hm).
  injection Hget as <-. rewrite Hl, Hm. reflexivity.
Defined.

Lemma copy_plain_writes e out cs : emits_only is_write (copy_plain e out cs).
Proof.
  induction cs as [|ch cs IH]; cbn [copy_plain].
  - apply emits_only_ret.
  - unfold file_Write. repeat first [ exact IH | emits_step ].
Qed.

Lemma io_Copy_writes e out b : emits_only is_write (io_Copy e out b).
Proof.
  unfold io_Copy, file_Write.
  repeat first [ apply copy_plain_writes | emits_step ].
Qed.

(** X4. [downloadFile] sends one GET request and, after it, only creates
    and writes the file: it prints nothing.  When it reports no error, the
    response had status 200 and the file at the given path holds exactly
    the bytes of the response, as after [downloadFileWithProgress]. *)
Theorem downloadFile_writes_body (e : Env) (url path : string) (w w' : World)
  (err : option string) :
  downloadFile e url path w = Done err w' ->
  (exists evs, trace w' = trace w ++ EvHttp "GET" url :: evs
               /\ forallb is_write evs = true)
  /\ (err = None ->
      exists r m,
        http_Get e url = Ok r /\ StatusCode r = 200
        /\ final_err (body r) = EOF
        /\ holds path (fs w) m (body_bytes (body r)) (fs w')
        /\ m = match FS.lookup (Filepath.elements path) (fs w) with
               | Some (FS.File m0 _) => m0
               | _ => masked e 438
               end).
Proof.
  intros H. unfold downloadFile in H.
  rewrite (bind_Done _ _ _ _ _ (http_request_spec e "GET" url w)) in H.
  cbn [String.eqb Ascii.eqb Bool.eqb andb] in H.
  set (w0 := {| fs := fs w; trace := trace w ++ [EvHttp "GET" url];
                deferred := deferred w |}) in H.
  destruct (http_Get e url) as [r|msg].
  2:{ injection H as <- <-. split; [|discriminate].
      exists []. split; reflexivity. }
  destruct (negb (StatusCode r =? StatusOK)) eqn:Hs.
  { injection H as <- <-. split; [|discriminate].
    exists []. split; reflexivity. }
  split.
  - assert (emits_only is_write
              (bind (os_Create e path)
                 (fun oerr => match oerr with
                              | Some m => ret (Some m)
                              | None => io_Copy e path (body r)
                              end))) as Hem.
    { unfold os_Create. repeat first [ apply io_Copy_writes | emits_step ]. }
    destruct (Hem w0) as (evs & Ht & Hq & _). rewrite H in Ht. cbn [world_of] in Ht.
    exists evs. split; [|exact Hq].
    rewrite Ht. unfold w0. cbn [trace]. rewrite <- app_assoc. reflexivity.
  - intros ->.
    apply bind_inv in H. destruct H as (oerr & w1 & Hcreate & H).
    destruct oerr as [msg|]; [discriminate H|].
    destruct (create_holds e path _ _ _ Hcreate eq_refl) as (m & Hh & Hm).
    cbn [fs w0] in Hh, Hm.
    destruct (io_Copy_content e path _ _ _ _ _ _ Hh H) as [Hc Heof].
    exists r, m. repeat split; auto using status_ok; apply Hc.
Qed.

(** The condition of X4 is met by a download on [Scenario.linux]. *)
Lemma downloadFile_writes_body_witness :
  let e := Scenario.linux in
  let w := Scenario.start Scenario.tree in
  (exists w', downloadFile e "https://go.dev/dl/x" "/tmp/x" w = Done None w')
  /\ FS.lookup (Filepath.elements "/tmp/x")
       (fs (world_of (downloadFile e "https://go.dev/dl/x" "/tmp/x" w)))
     = Some (FS.File 420 "aaaabbbbcc").
Proof.
  intros e w.
  assert (downloadFile e "https://go.dev/dl/x" "/tmp/x" w
          = Done None (world_of (downloadFile e "https://go.dev/dl/x" "/tmp/x" w))) as H
    by (vm_compute; reflexivity).
  split; [eexists; exact H|].
  destruct (downloadFile_writes_body e _ _ w _ _ H) as [_ Hc].
  destruct (Hc eq_refl) as (r & m & Hget & _ & _ & [Hl _] & Hm).
  injection Hget as <-. rewrite Hl, Hm. reflexivity.
Defined.

(** * The latest version *)

Lemma find_first {A} (f : A -> bool) pre v post :
  Forall (fun x => f x = false) pre -> f v = true ->
  find f (pre ++ v :: post) = Some v.
Proof.
  induction 1 as [|x pre Hx _ IH]; intros Hv; cbn [app find].
  - rewrite Hv. reflexivity.
  - rewrite Hx. auto.
Qed.

Lemma find_none {A} (f : A -> bool) l :
  Forall (fun x => f x = false) l -> find f l = None.
Proof.
  induction 1 as [|x l Hx _ IH]; cbn [find]; [reflexivity|]. rewrite Hx. exact IH.
Qed.

(** X5. [getLatestGoVersion] sends one GET request for the list of versions
    and touches nothing else.  A failed request gives its error.  From a
    list that decodes, the answer is the version of the first entry marked
    stable, whatever stands before it, and the version of the first entry
    when none is stable, each without a leading [go]; an empty list is the
    error [no Go versions found]. *)
Theorem latest_is_first_stable (e : Env) (w : World) :
  exists r,
    getLatestGoVersion e w
    = Done r {| fs := fs w; trace := trace w ++ [EvHttp "GET" versions_url];
                deferred := deferred w |}
    /\ (forall m, http_Get e versions_url = Err m -> r = Err m)
    /\ (forall resp versions,
          http_Get e versions_url = Ok resp ->
          final_err (body resp) = EOF ->
          json_Decode e (body_bytes (body resp)) = Ok versions ->
          (versions = [] -> r = Err "no Go versions found")
          /\ (forall pre v post,
                versions = pre ++ v :: post ->
                Forall (fun x => Stable x = false) pre -> Stable v = true ->
                r = Ok (Strings.TrimPrefix (Version v) "go"))
          /\ (forall first rest,
                versions = first :: rest ->
                Forall (fun x => Stable x = false) versions ->
                r = Ok (Strings.TrimPrefix (Version first) "go"))).
Proof.
  unfold getLatestGoVersion.
  rewrite (bind_Done _ _ _ _ _ (http_request_spec e "GET" _ w)).
  cbn [String.eqb Ascii.eqb Bool.eqb andb]. fold versions_url.
  destruct (http_Get e versions_url) as [resp|m].
  2:{ eexists. split; [reflexivity|]. split.
      - intros m0 H. injection H as <-. reflexivity.
      - intros resp versions H. discriminate H. }
  destruct (final_err (body resp)) eqn:Hfin.
  2:{ eexists. split; [reflexivity|]. split; [intros m0 H; discriminate H|].
      intros resp0 versions H H0. injection H as <-. rewrite Hfin in H0. discriminate H0. }
  destruct (json_Decode e (body_bytes (body resp))) as [versions|m] eqn:Hdec.
  2:{ eexists. split; [reflexivity|]. split; [intros m0 H; discriminate H|].
      intros resp0 versions H _ H1. injection H as <-. rewrite Hdec in H1. discriminate H1. }
  destruct versions as [|first rest].
  { eexists. split; [reflexivity|]. split; [intros m0 H; discriminate H|].
    intros resp0 versions H _ H1. injection H as <-. rewrite Hdec in H1.
    injection H1 as <-. split; [reflexivity|]. split.
    - intros pre v post H. destruct pre; discriminate H.
    - intros f r H. discriminate H. }
  destruct (find Stable (first :: rest)) as [v0|] eqn:Hfind.
  - eexists. split; [reflexivity|]. split; [intros m0 H; discriminate H|].
    intros resp0 versions H _ H1. injection H as <-. rewrite Hdec in H1.
    injection H1 as <-. split; [discriminate|]. split.
    + intros pre v post Heq Hpre Hv. rewrite Heq in Hfind.
      rewrite (find_first Stable pre v post Hpre Hv) in Hfind.
      injection Hfind as <-. reflexivity.
    + intros f r _ Hall. rewrite (find_none Stable _ Hall) in Hfind. discriminate Hfind.
  - eexists. split; [reflexivity|]. split; [intros m0 H; discriminate H|].
    intros resp0 versions H _ H1. injection H as <-. rewrite Hdec in H1.
    injection H1 as <-. split; [discriminate|]. split.
    + intros pre v post Heq Hpre Hv. rewrite Heq in Hfind.
      rewrite (find_first Stable pre v post Hpre Hv) in Hfind. discriminate Hfind.
    + intros f r Heq _. injection Heq as <- _. reflexivity.
Qed.

(** The conditions of X5 are met by a list with a release candidate
    before two stable versions. *)
Lemma latest_is_first_stable_witness :
  let rc := {| Version := "go1.24rc1"; Stable := false |} in
  let v1 := {| Version := "go1.23.1"; Stable := true |} in
  let v2 := {| Version := "go1.22.7"; Stable := true |} in
  let e := Scenario.with_versions [rc; v1; v2] in
  exists w',
    getLatestGoVersion e (Scenario.start Scenario.tree) = Done (Ok "1.23.1") w'.
Proof.
  intros rc v1 v2 e.
  destruct (latest_is_first_stable e (Scenario.start Scenario.tree))
    as (r & Hrun & _ & Hsel).
  destruct (Hsel Scenario.ok_response [rc; v1; v2] eq_refl eq_refl eq_refl)
    as (_ & Hfirst & _).
  rewrite (Hfirst [rc] v1 [v2] eq_refl) in Hrun.
  - eexists. exact Hrun.
  - repeat constructor.
  - reflexivity.
Defined.

(** * What the extractors leave on disk *)

(** A change that removes nothing, made elsewhere, keeps a file as it is. *)
Lemma update_keeps_file f p : forall n n' q m d,
  leaf_like f -> (forall o, f o <> Ok None) -> FS.update f p n = Ok n' ->
  q <> p -> FS.lookup q n = Some (FS.File m d) -> FS.lookup q n' = Some (FS.File m d).
Proof.
  induction p as [|k p IH]; intros n n' q m d Hleaf Hkeep; [simpl; discriminate|].
  destruct n as [m0 d0|m0 es]; cbn [FS.update]; [discriminate|].
  destruct p as [|k2 p2].
  - destruct (f (FS.assoc k es)) as [[c|]|x] eqn:Ef; [| |discriminate].
    2:{ exfalso. exact (Hkeep _ Ef). }
    intros [= <-] Hne. destruct q as [|j q]; [simpl; discriminate|].
    rewrite !FSFacts.lookup_child.
    destruct (String.eqb_spec j k) as [->|Hjk].
    + rewrite FSFacts.assoc_set_child_eq.
      destruct q as [|j2 q2]; [contradiction Hne; reflexivity|].
      rewrite (Hleaf _ _ (j2 :: q2) Ef ltac:(discriminate)).
      destruct (FS.assoc k es); auto.
    + rewrite (FSFacts.assoc_set_child_neq _ _ _ _ Hjk). auto.
  - destruct (FS.assoc k es) as [c0|] eqn:Ea; [|discriminate].
    destruct (FS.update f (k2 :: p2) c0) as [c0'|x] eqn:Eu; [|discriminate].
    intros [= <-] Hne. destruct q as [|j q]; [simpl; discriminate|].
    rewrite !FSFacts.lookup_child.
    destruct (String.eqb_spec j k) as [->|Hjk].
    + rewrite FSFacts.assoc_set_child_eq, Ea.
      apply (IH _ _ _ _ _ Hleaf Hkeep Eu). congruence.
    + rewrite (FSFacts.assoc_set_child_neq _ _ _ _ Hjk). auto.
Qed.

Lemma create_keeps_file mode p n n' q m d :
  FS.create mode p n = Ok n' -> q <> p ->
  FS.lookup q n = Some (FS.File m d) -> FS.lookup q n' = Some (FS.File m d).
Proof.
  intros H. eapply update_keeps_file; [apply Frame.leaf_like_create| |exact H].
  intros [[? ?|? ?]|]; discriminate.
Qed.

Lemma append_keeps_file bytes p n n' q m d :
  FS.append bytes p n = Ok n' -> q <> p ->
  FS.lookup q n = Some (FS.File m d) -> FS.lookup q n' = Some (FS.File m d).
Proof.
  intros H. eapply update_keeps_file; [apply Frame.leaf_like_append| |exact H].
  intros [[? ?|? ?]|]; discriminate.
Qed.

Lemma chmod_keeps_file mode p n n' q m d :
  FS.chmod mode p n = Ok n' -> q <> p ->
  FS.lookup q n = Some (FS.File m d) -> FS.lookup q n' = Some (FS.File m d).
Proof.
  intros H. eapply update_keeps_file; [apply Frame.leaf_like_chmod| |exact H].
  intros [[? ?|? ?]|]; discriminate.
Qed.

Section Tar.

Variable e : Env.
Variable dst : string.

(** X6. [untargz] extracts directories and regular files only: entries of
    any other kind (symbolic and hard links, devices, ...) are passed over
    without a call and without an error, wherever they stand in the
    archive; an archive that holds only such entries leaves the tree as it
    was and ends as its stream ends. *)
Theorem untargz_skips_other_kinds (hs : list TarEntry) (end_ : option string)
  (w : World) :
  untargz_loop e dst hs end_ w
  = untargz_loop e dst (filter extracted_kind hs) end_ w
  /\ (forallb (fun h => negb (extracted_kind h)) hs = true ->
      untargz_loop e dst hs end_ w = Done end_ w).
Proof.
  split.
  - revert w. induction hs as [|h hs IH]; intros w; [reflexivity|].
    cbn [filter untargz_loop]. unfold extracted_kind at 1.
    destruct (Ascii.eqb (Typeflag h) TypeDir) eqn:Hd; cbn [orb].
    + cbn [untargz_loop]. rewrite Hd. unfold bind.
      destruct (os_MkdirAll e _ 493 w) as [[m|] w1|c w1]; auto.
    + destruct (Ascii.eqb (Typeflag h) TypeReg) eqn:Hr.
      * cbn [untargz_loop]. rewrite Hd, Hr. unfold bind.
        destruct (os_MkdirAll e _ 493 w) as [[m|] w1|c w1]; auto.
        destruct (os_Create e _ w1) as [[m|] w2|c w2]; auto.
        destruct (io_Copy_entry e _ _ _ w2) as [[m|] w3|c w3]; auto.
        destruct (os_Chmod e _ _ w3) as [[m|] w4|c w4]; auto.
      * apply IH.
  - revert w. induction hs as [|h hs IH]; intros w H; [reflexivity|].
    cbn [forallb] in H. apply andb_true_iff in H as [Hh Hrest].
    unfold extracted_kind in Hh. apply negb_true_iff, orb_false_iff in Hh as [Hd Hr].
    cbn [untargz_loop]. rewrite Hd, Hr. auto.
Qed.

Local Notation "'path_of' h" := (Filepath.elements (Filepath.Join [dst; Name h]))
  (at level 10).

(** The loop over the first entries of an archive, when the whole loop
    ends without an error. *)
Lemma untargz_loop_app pre : forall rest end_ w w',
  untargz_loop e dst (pre ++ rest) end_ w = Done None w' ->
  exists w1,
    untargz_loop e dst pre None w = Done None w1
    /\ untargz_loop e dst rest end_ w1 = Done None w'.
Proof.
  induction pre as [|h pre IH]; intros rest end_ w w' H.
  - exists w. split; [reflexivity|exact H].
  - cbn [app untargz_loop] in H |- *.
    destruct (Ascii.eqb (Typeflag h) TypeDir).
    + apply bind_inv in H. destruct H as ([m|] & w2 & E1 & H); [discriminate H|].
      destruct (IH _ _ _ _ H) as (w1 & Ha & Hb).
      exists w1. split; [|exact Hb]. rewrite (bind_Done _ _ _ _ _ E1). exact Ha.
    + destruct (Ascii.eqb (Typeflag h) TypeReg).
      * apply bind_inv in H. destruct H as ([m|] & w2 & E1 & H); [discriminate H|].
        apply bind_inv in H. destruct H as ([m|] & w3 & E2 & H); [discriminate H|].
        apply bind_inv in H. destruct H as ([m|] & w4 & E3 & H); [discriminate H|].
        apply bind_inv in H. destruct H as ([m|] & w5 & E4 & H); [discriminate H|].
        destruct (IH _ _ _ _ H) as (w1 & Ha & Hb).
        exists w1. split; [|exact Hb].
        rewrite (bind_Done _ _ _ _ _ E1). cbv beta iota.
        rewrite (bind_Done _ _ _ _ _ E2). cbv beta iota.
        rewrite (bind_Done _ _ _ _ _ E3). cbv beta iota.
        rewrite (bind_Done _ _ _ _ _ E4). exact Ha.
      * apply IH. exact H.
Qed.

Lemma sys_keeps op name p f (P : FS.node -> Prop) w r w' :
  sys e op name p f w = Done r w' ->
  (forall n', f (fs w) = Ok n' -> P (fs w) -> P n') -> P (fs w) -> P (fs w').
Proof.
  intros H Hf HP.
  destruct (sys_spec e op name p f w) as (r0 & n' & E & Hcase).
  rewrite E in H. injection H as _ <-. cbn [fs].
  destruct Hcase as [(_ & _ & Hn)|(_ & ->)]; auto.
Qed.

Lemma io_Copy_entry_keeps out bytes rerr q m d w r w' :
  io_Copy_entry e out bytes rerr w = Done r w' ->
  q <> Filepath.elements out ->
  FS.lookup q (fs w) = Some (FS.File m d) -> FS.lookup q (fs w') = Some (FS.File m d).
Proof.
  intros H Hne Hl. unfold io_Copy_entry in H.
  apply bind_inv in H. destruct H as (ew & w1 & Hw & H).
  assert (FS.lookup q (fs w1) = Some (FS.File m d)) as Hl1.
  { destruct (0 <? Z.of_nat (String.length bytes)).
    - unfold file_Write in Hw. eapply sys_keeps; [exact Hw| |exact Hl].
      intros n' Ha. eapply append_keeps_file; eauto.
    - injection Hw as _ <-. exact Hl. }
  destruct ew; injection H as _ <-; exact Hl1.
Qed.

(** The entries after a regular file keep it, unless one of them is a
    regular file with the same path. *)
Lemma untargz_loop_keeps_file hs : forall end_ w r w' q m d,
  untargz_loop e dst hs end_ w = Done r w' ->
  Forall (fun h => Typeflag h = TypeReg -> path_of h <> q) hs ->
  FS.lookup q (fs w) = Some (FS.File m d) ->
  FS.lookup q (fs w') = Some (FS.File m d).
Proof.
  induction hs as [|h hs IH]; intros end_ w r w' q m d H Hall Hl.
  - injection H as _ <-. exact Hl.
  - inversion Hall as [|? ? Hh Hrest]; subst. cbn [untargz_loop] in H.
    destruct (Ascii.eqb (Typeflag h) TypeDir) eqn:Hd.
    + apply bind_inv in H. destruct H as (err & w2 & E1 & H).
      assert (FS.lookup q (fs w2) = Some (FS.File m d)) as Hl2.
      { unfold os_MkdirAll in E1. eapply sys_keeps; [exact E1| |exact Hl].
        intros n' Hmk. eapply FSFacts.mkdirAll_file; eauto. }
      destruct err; [injection H as _ <-; exact Hl2|]. eapply IH; eauto.
    + destruct (Ascii.eqb (Typeflag h) TypeReg) eqn:Hr; [|eapply IH; eauto].
      apply Ascii.eqb_eq in Hr. specialize (Hh Hr).
      assert (q <> path_of h) as Hne by congruence.
      apply bind_inv in H. destruct H as (err & w2 & E1 & H).
      assert (FS.lookup q (fs w2) = Some (FS.File m d)) as Hl2.
      { unfold os_MkdirAll in E1. eapply sys_keeps; [exact E1| |exact Hl].
        intros n' Hmk. eapply FSFacts.mkdirAll_file; eauto. }
      destruct err; [injection H as _ <-; exact Hl2|].
      apply bind_inv in H. destruct H as (err & w3 & E2 & H).
      assert (FS.lookup q (fs w3) = Some (FS.File m d)) as Hl3.
      { unfold os_Create in E2. eapply sys_keeps; [exact E2| |exact Hl2].
        intros n' Hc. eapply create_keeps_file; eauto. }
      destruct err; [injection H as _ <-; exact Hl3|].
      apply bind_inv in H. destruct H as (err & w4 & E3 & H).
      pose proof (io_Copy_entry_keeps _ _ _ _ _ _ _ _ _ E3 Hne Hl3) as Hl4.
      destruct err; [injection H as _ <-; exact Hl4|].
      apply bind_inv in H. destruct H as (err & w5 & E4 & H).
      assert (FS.lookup q (fs w5) = Some (FS.File m d)) as Hl5.
      { unfold os_Chmod in E4. eapply sys_keeps; [exact E4| |exact Hl4].
        intros n' Hc. eapply chmod_keeps_file; eauto. }
      destruct err; [injection H as _ <-; exact Hl5|]. eapply IH; eauto.
Qed.

End Tar.

Lemma untargz_loop_end e dst hs end_ w w' :
  untargz_loop e dst hs end_ w = Done None w' -> end_ = None.
Proof.
  intros H. rewrite <- (app_nil_r hs) in H.
  apply untargz_loop_app in H. destruct H as (w1 & _ & H).
  injection H as -> _. reflexivity.
Qed.

Lemma io_Copy_entry_content e out n0 m d bytes rerr w w' :
  holds out n0 m d (fs w) ->
  io_Copy_entry e out bytes rerr w = Done None w' ->
  holds out n0 m (d ++ bytes)%string (fs w') /\ rerr = None.
Proof.
  intros Hh H. unfold io_Copy_entry in H.
  apply bind_inv in H. destruct H as (ew & w1 & Hw & H).
  eapply write_step in Hw; [|exact Hh].
  destruct ew as [msg|]; [discriminate H|].
  destruct Hw as [Hw _]. injection H as -> <-. split; [apply Hw|]; reflexivity.
Qed.

(** X7. When [untargz] reports no error, the archive was read to its
    regular end, and every regular-file entry is on disk at its path under
    the destination with exactly its content and its stored permission
    bits, unless a later regular-file entry of the archive has the same
    path. *)
Theorem untargz_extracts_files (e : Env) (src dst : string) (w w' : World) :
  untargz e src dst w = Done None w' ->
  exists bytes ts,
    FS.readFile (Filepath.elements src) (fs w) = Ok bytes
    /\ targz_Reader e bytes = Ok ts
    /\ tar_end ts = None
    /\ forall pre h post,
         tar_entries ts = pre ++ h :: post ->
         Typeflag h = TypeReg ->
         Forall (fun h' => Typeflag h' = TypeReg ->
                           Filepath.elements (Filepath.Join [dst; Name h'])
                           <> Filepath.elements (Filepath.Join [dst; Name h])) post ->
         FS.lookup (Filepath.elements (Filepath.Join [dst; Name h])) (fs w')
         = Some (FS.File (syscallMode (Mode h)) (content h)).
Proof.
  intros H. unfold untargz in H.
  apply bind_inv in H. destruct H as (file & w0 & Hopen & H).
  assert (fs w0 = fs w
          /\ forall bytes, file = Ok bytes ->
                           FS.readFile (Filepath.elements src) (fs w) = Ok bytes) as [Hfs Hread].
  { unfold os_Open, bind, emit, ret, get_fs in Hopen. cbn [fs trace deferred] in Hopen.
    destruct (fault e (OpOpen src)).
    - injection Hopen as <- <-. split; [reflexivity|discriminate].
    - cbn [fs trace deferred] in Hopen.
      destruct (FS.readFile (Filepath.elements src) (fs w)) as [d|x];
        injection Hopen as <- <-; (split; [reflexivity|]); intros b Hb;
        [exact Hb|discriminate Hb]. }
  destruct file as [bytes|msg]; [|discriminate H].
  destruct (targz_Reader e bytes) as [ts|msg] eqn:Hts; [|discriminate H].
  exists bytes, ts. split; [auto|]. split; [exact Hts|].
  split; [exact (untargz_loop_end _ _ _ _ _ _ H)|].
  intros pre h post Heq Hreg Hlater. rewrite Heq in H.
  apply untargz_loop_app in H. destruct H as (w1 & _ & H).
  cbn [untargz_loop] in H. rewrite Hreg in H. cbn [Ascii.eqb Bool.eqb andb TypeReg TypeDir] in H.
  apply bind_inv in H. destruct H as ([m|] & w2 & _ & H); [discriminate H|].
  apply bind_inv in H. destruct H as ([m|] & w3 & Hcreate & H); [discriminate H|].
  apply bind_inv in H. destruct H as ([m|] & w4 & Hcopy & H); [discriminate H|].
  apply bind_inv in H. destruct H as ([m|] & w5 & Hchmod & H); [discriminate H|].
  destruct (create_holds e _ _ _ _ Hcreate eq_refl) as (m0 & Hh & _).
  destruct (io_Copy_entry_content e _ _ _ _ _ _ _ _ Hh Hcopy) as [[Hl4 _] _].
  cbn [String.append] in Hl4.
  assert (FS.lookup (Filepath.elements (Filepath.Join [dst; Name h])) (fs w5)
          = Some (FS.File (syscallMode (Mode h)) (content h))) as Hl5.
  { unfold os_Chmod in Hchmod.
    destruct (sys_spec e (OpChmod (Filepath.Join [dst; Name h])) "chmod"
                (Filepath.Join [dst; Name h])
                (FS.chmod (syscallMode (Mode h))
                   (Filepath.elements (Filepath.Join [dst; Name h]))) w4)
      as (r0 & n' & E & Hcase).
    rewrite E in Hchmod. injection Hchmod as -> <-. cbn [fs].
    destruct Hcase as [(_ & _ & Hc)|(Hr & _)]; [|contradiction].
    destruct (Frame.update_at _ _ _ _ Hc) as (o & Ho & ->).
    rewrite Hl4 in Ho. injection Ho as <-. reflexivity. }
  eapply untargz_loop_keeps_file; [exact H|exact Hlater|exact Hl5].
Qed.

(** The condition of X7 is met by the archive of [Scenario.with_tar]; its
    two files come out with their contents and modes even with a mask of
    0077. *)
Lemma untargz_extracts_files_witness :
  let a := Scenario.tar_file "a" 420 "x" in
  let b := Scenario.tar_file "b" 493 "y" in
  let e := Scenario.with_tar 63 [a; b] in
  let w := Scenario.start Scenario.archive_tree in
  (exists w', untargz e "/tmp/a" "/tmp/x" w = Done None w')
  /\ FS.lookup (Filepath.elements "/tmp/x/a")
       (fs (world_of (untargz e "/tmp/a" "/tmp/x" w)))
     = Some (FS.File 420 "x").
Proof.
  intros a b e w.
  assert (untargz e "/tmp/a" "/tmp/x" w
          = Done None (world_of (untargz e "/tmp/a" "/tmp/x" w))) as H
    by (vm_compute; reflexivity).
  split; [eexists; exact H|].
  destruct (untargz_extracts_files e _ _ w _ H) as (bytes & ts & _ & Hts & _ & Hfiles).
  injection Hts as <-.
  apply (Hfiles [] a [b] eq_refl eq_refl).
  constructor; [|constructor]. intros _. vm_compute. discriminate.
Defined.

Section Zip.

Variable e : Env.
Variable dst : string.

Lemma unzip_loop_app pre : forall rest w w',
  unzip_loop e dst (pre ++ rest) w = Done None w' ->
  exists w1, unzip_loop e dst rest w1 = Done None w'.
Proof.
  induction pre as [|f pre IH]; intros rest w w' H.
  - exists w. exact H.
  - cbn [app unzip_loop] in H.
    destruct (mode_IsDir (zMode f)).
    + apply bind_inv in H. destruct H as (r & w2 & _ & H). eapply IH; eauto.
    + apply bind_inv in H. destruct H as ([m|] & w2 & _ & H); [discriminate H|].
      apply bind_inv in H. destruct H as ([m|] & w3 & _ & H); [discriminate H|].
      destruct (zOpen_err f); [discriminate H|].
      apply bind_inv in H. destruct H as ([m|] & w4 & _ & H); [discriminate H|].
      eapply IH; eauto.
Qed.

Lemma unzip_loop_keeps_file fl : forall w r w' q m d,
  unzip_loop e dst fl w = Done r w' ->
  Forall (fun f => mode_IsDir (zMode f) = false ->
                   Filepath.elements (Filepath.Join [dst; zName f]) <> q) fl ->
  FS.lookup q (fs w) = Some (FS.File m d) ->
  FS.lookup q (fs w') = Some (FS.File m d).
Proof.
  induction fl as [|f fl IH]; intros w r w' q m d H Hall Hl.
  - injection H as _ <-. exact Hl.
  - inversion Hall as [|? ? Hf Hrest]; subst. cbn [unzip_loop] in H.
    destruct (mode_IsDir (zMode f)) eqn:Hd.
    + apply bind_inv in H. destruct H as (err & w2 & E1 & H).
      assert (FS.lookup q (fs w2) = Some (FS.File m d)) as Hl2.
      { unfold os_MkdirAll in E1. eapply sys_keeps; [exact E1| |exact Hl].
        intros n' Hmk. eapply FSFacts.mkdirAll_file; eauto. }
      eapply IH; eauto.
    + specialize (Hf eq_refl).
      assert (q <> Filepath.elements (Filepath.Join [dst; zName f])) as Hne by congruence.
      apply bind_inv in H. destruct H as (err & w2 & E1 & H).
      assert (FS.lookup q (fs w2) = Some (FS.File m d)) as Hl2.
      { unfold os_MkdirAll in E1. eapply sys_keeps; [exact E1| |exact Hl].
        intros n' Hmk. eapply FSFacts.mkdirAll_file; eauto. }
      destruct err; [injection H as _ <-; exact Hl2|].
      apply bind_inv in H. destruct H as (err & w3 & E2 & H).
      assert (FS.lookup q (fs w3) = Some (FS.File m d)) as Hl3.
      { unfold os_OpenFile_create_trunc in E2.
        eapply sys_keeps; [exact E2| |exact Hl2].
        intros n' Hc. eapply create_keeps_file; eauto. }
      destruct err; [injection H as _ <-; exact Hl3|].
      destruct (zOpen_err f); [injection H as _ <-; exact Hl3|].
      apply bind_inv in H. destruct H as (err & w4 & E3 & H).
      pose proof (io_Copy_entry_keeps _ _ _ _ _ _ _ _ _ _ E3 Hne Hl3) as Hl4.
      destruct err; [injection H as _ <-; exact Hl4|]. eapply IH; eauto.
Qed.

End Zip.

(** X8. When [unzip] reports no error, every entry that is not a
    directory is on disk at its path under the destination as a file with
    exactly its content, unless a later such entry has the same path; its
    [Open] and its reads gave no error.  (Its mode is the one [os.OpenFile] gave it
    or found, not in general the stored one.) *)
Theorem unzip_extracts_files (e : Env) (src dst : string) (w w' : World) :
  unzip e src dst w = Done None w' ->
  exists bytes files,
    FS.readFile (Filepath.elements src) (fs w) = Ok bytes
    /\ zip_Reader e bytes = Ok files
    /\ forall pre f post,
         files = pre ++ f :: post ->
         mode_IsDir (zMode f) = false ->
         Forall (fun f' => mode_IsDir (zMode f') = false ->
                           Filepath.elements (Filepath.Join [dst; zName f'])
                           <> Filepath.elements (Filepath.Join [dst; zName f])) post ->
         zOpen_err f = None /\ zContent_err f = None
         /\ exists m,
              FS.lookup (Filepath.elements (Filepath.Join [dst; zName f])) (fs w')
              = Some (FS.File m (zContent f)).
Proof.
  intros H. unfold unzip in H.
  apply bind_inv in H. destruct H as (file & w0 & Hopen & H).
  assert (forall bytes, file = Ok bytes ->
                        FS.readFile (Filepath.elements src) (fs w) = Ok bytes) as Hread.
  { unfold os_Open, bind, emit, ret, get_fs in Hopen. cbn [fs trace deferred] in Hopen.
    destruct (fault e (OpOpen src)).
    - injection Hopen as <- <-. discriminate.
    - cbn [fs trace deferred] in Hopen.
      destruct (FS.readFile (Filepath.elements src) (fs w)) as [d|x];
        injection Hopen as <- <-; intros b Hb; [exact Hb|discriminate Hb]. }
  destruct file as [bytes|msg]; [|discriminate H].
  destruct (zip_Reader e bytes) as [files|msg] eqn:Hzr; [|discriminate H].
  exists bytes, files. split; [auto|]. split; [exact Hzr|].
  intros pre f post Heq Hfile Hlater. rewrite Heq in H.
  apply unzip_loop_app in H. destruct H as (w1 & H).
  cbn [unzip_loop] in H. rewrite Hfile in H.
  apply bind_inv in H. destruct H as ([m|] & w2 & _ & H); [discriminate H|].
  apply bind_inv in H. destruct H as ([m|] & w3 & Hcreate & H); [discriminate H|].
  destruct (zOpen_err f) eqn:Hopenf; [discriminate H|].
  apply bind_inv in H. destruct H as ([m|] & w4 & Hcopy & H); [discriminate H|].
  unfold os_OpenFile_create_trunc in Hcreate.
  destruct (sys_spec e (OpOpenFile (Filepath.Join [dst; zName f])) "open"
              (Filepath.Join [dst; zName f])
              (FS.create (masked e (syscallMode (zMode f)))
                 (Filepath.elements (Filepath.Join [dst; zName f]))) w2)
    as (r0 & n' & E & Hcase).
  rewrite E in Hcreate. injection Hcreate as -> <-.
  destruct Hcase as [(_ & _ & Hc)|(Hr & _)]; [|contradiction].
  assert (exists m0, holds (Filepath.Join [dst; zName f]) (fs w2) m0 "" n') as (m0 & Hh).
  { destruct (Frame.update_at _ _ _ _ Hc) as (o & Ho & Hl).
    destruct (FS.lookup (Filepath.elements (Filepath.Join [dst; zName f])) (fs w2))
      as [[m1 d1|m1 es]|]; try discriminate Ho; injection Ho as <-;
      eexists; (split; [exact Hl|]);
      intros q H1 H2; eapply Frame.update_frame; eauto. }
  match type of Hcopy with
  | io_Copy_entry _ _ _ _ ?wc = _ => change n' with (fs wc) in Hh
  end.
  destruct (io_Copy_entry_content e _ _ _ _ _ _ _ _ Hh Hcopy) as [[Hl4 _] Hcerr].
  cbn [String.append] in Hl4.
  split; [reflexivity|]. split; [exact Hcerr|]. exists m0.
  eapply unzip_loop_keeps_file; [exact H|exact Hlater|exact Hl4].
Qed.

(** The condition of X8 is met by the archive of [Scenario.with_zip]. *)
Lemma unzip_extracts_files_witness :
  let a := Scenario.zip_file "a" 420 "x" in
  let b := Scenario.zip_file "b" 493 "y" in
  let e := Scenario.with_zip 63 [a; b] in
  let w := Scenario.start Scenario.archive_tree in
  (exists w', unzip e "/tmp/a" "/tmp/x" w = Done None w')
  /\ exists m,
       FS.lookup (Filepath.elements "/tmp/x/a")
         (fs (world_of (unzip e "/tmp/a" "/tmp/x" w)))
       = Some (FS.File m "x").
Proof.
  intros a b e w.
  assert (unzip e "/tmp/a" "/tmp/x" w
          = Done None (world_of (unzip e "/tmp/a" "/tmp/x" w))) as H
    by (vm_compute; reflexivity).
  split; [eexists; exact H|].
  destruct (unzip_extracts_files e _ _ w _ H) as (bytes & files & _ & Hzr & Hfiles).
  injection Hzr as <-.
  destruct (Hfiles [] a [b] eq_refl eq_refl) as (_ & _ & Hm); [|exact Hm].
  constructor; [|constructor]. intros _. vm_compute. discriminate.
Defined.

(** * The environment files *)

Lemma home_file h name :
  Filepath.IsAbs h = true ->
  Forall (fun c => plain_name c = true) (Strings.split Filepath.Separator name) ->
  Filepath.IsAbs (Filepath.Join [h; name]) = true
  /\ FS.is_prefix (Filepath.elements h) (Filepath.elements (Filepath.Join [h; name])) = true
  /\ Filepath.elements (Filepath.Join [h; name]) <> [].
Proof.
  intros Hh Hn. split; [apply PathFacts.IsAbs_Join2; exact Hh|].
  rewrite (PathFacts.elements_Join_gen _ _ Hh).
  rewrite (PathFacts.clean_elems_all_plain _ _ Hn), rev_involutive.
  split; [apply FSFacts.is_prefix_app_true|].
  intros H. apply app_eq_nil in H as [_ H].
  exact (PathFacts.split_nonempty _ H).
Qed.

Lemma fish_config h :
  Filepath.Join [h; ".config"; "fish"; "config.fish"]
  = Filepath.Join [h; ".config/fish/config.fish"].
Proof. destruct h; reflexivity. Qed.

Section ShellConfig.

Variable e : Env.
Variable usr : User.
Hypothesis Husr : user_Current (paths e) = Ok usr.
Hypothesis Hhome : Filepath.IsAbs (HomeDir usr) = true.

Lemma candidates_tried files : forall w t w1,
  Forall (fun c => plain_name c = true) files ->
  (fix try (files : list string) : M string :=
     match files with
     | [] => ret (Filepath.Join [HomeDir usr; ".profile"])
     | file :: rest =>
         bind (os_Stat (Filepath.Join [HomeDir usr; file]))
           (fun found => if found then ret (Filepath.Join [HomeDir usr; file])
                         else try rest)
     end) files w = Done t w1 ->
  fs w1 = fs w
  /\ Filepath.IsAbs t = true
  /\ FS.is_prefix (Filepath.elements (HomeDir usr)) (Filepath.elements t) = true
  /\ Filepath.elements t <> []
  /\ (FS.exists_ (Filepath.elements t) (fs w) = true
      \/ t = Filepath.Join [HomeDir usr; ".profile"]).
Proof.
  induction files as [|file rest IH]; intros w t w1 Hpl H.
  - injection H as <- <-. split; [reflexivity|].
    destruct (home_file (HomeDir usr) ".profile" Hhome) as (H1 & H2 & H3);
      [repeat constructor|]. auto.
  - inversion Hpl as [|? ? Hf Hrest]; subst.
    rewrite (bind_Done _ _ _ _ _ (os_Stat_spec _ w)) in H.
    destruct (FS.exists_ (Filepath.elements (Filepath.Join [HomeDir usr; file])) (fs w))
      eqn:Hex.
    + injection H as <- <-. split; [reflexivity|].
      destruct (home_file (HomeDir usr) file Hhome) as (H1 & H2 & H3).
      { pose proof (PathFacts.plain_name_spec _ Hf) as (Hs & _).
        rewrite (PathFacts.split_plain _ Hs). constructor; [exact Hf|constructor]. }
      auto.
    + apply IH in H; [|exact Hrest]. exact H.
Qed.

Lemma shell_config_facts (w : World) (t : string) (w1 : World) :
  getShellConfigFile e w = Done t w1 ->
  Filepath.elements t <> []
  /\ Filepath.IsAbs t = true
  /\ FS.is_prefix (Filepath.elements (HomeDir usr)) (Filepath.elements t) = true
  /\ (Strings.Contains (SHELL e) "zsh" = true
      \/ Strings.Contains (SHELL e) "bash" = true
      \/ Strings.Contains (SHELL e) "fish" = false -> fs w1 = fs w)
  /\ (forall q m d, FS.lookup q (fs w) = Some (FS.File m d) ->
                    FS.lookup q (fs w1) = Some (FS.File m d))
  /\ (Strings.Contains (SHELL e) "zsh" = false ->
      Strings.Contains (SHELL e) "bash" = false ->
      Strings.Contains (SHELL e) "fish" = false ->
      FS.exists_ (Filepath.elements t) (fs w) = true
      \/ t = Filepath.Join [HomeDir usr; ".profile"]).
Proof.
  intros H.
  assert (forall q m d, FS.lookup q (fs w) = Some (FS.File m d) ->
                        FS.lookup q (fs w1) = Some (FS.File m d)) as Hfiles.
  { destruct (getShellConfigFile_spec e w) as (t' & w1' & evs & E & _ & _ & _ & Hk).
    rewrite H in E. injection E as <- <-. exact Hk. }
  unfold getShellConfigFile in H. rewrite Husr in H.
  destruct (Strings.Contains (SHELL e) "zsh") eqn:Hz.
  { injection H as <- <-.
    destruct (home_file (HomeDir usr) ".zshrc" Hhome) as (H1 & H2 & H0);
      [repeat constructor|].
    repeat split; auto; discriminate. }
  destruct (Strings.Contains (SHELL e) "bash") eqn:Hb.
  { assert (fs w1 = fs w
            /\ (t = Filepath.Join [HomeDir usr; ".bash_profile"]
                \/ t = Filepath.Join [HomeDir usr; ".bashrc"])) as [Hfs Ht].
    { destruct (String.eqb (GOOS e) "darwin").
      - rewrite (bind_Done _ _ _ _ _ (os_Stat_spec _ w)) in H.
        destruct (FS.exists_ _ _); injection H as <- <-; auto.
      - injection H as <- <-. auto. }
    destruct (home_file (HomeDir usr) ".bash_profile" Hhome) as (H1 & H2 & H0);
      [repeat constructor|].
    destruct (home_file (HomeDir usr) ".bashrc" Hhome) as (H3 & H4 & H5);
      [repeat constructor|].
    destruct Ht as [-> | ->]; repeat split; auto; discriminate. }
  destruct (Strings.Contains (SHELL e) "fish") eqn:Hf.
  { apply bind_inv in H. destruct H as (r & w2 & _ & H). injection H as <- _.
    rewrite fish_config.
    destruct (home_file (HomeDir usr) ".config/fish/config.fish" Hhome)
      as (H1 & H2 & H0); [repeat constructor|].
    repeat split; auto; try discriminate.
    intros [Hc|[Hc|Hc]]; discriminate Hc. }
  apply (candidates_tried [".profile"; ".bashrc"; ".bash_profile"; ".zshrc"]) in H;
    [|repeat constructor].
  destruct H as (Hfs & Habs & Hpre & Hnr & Hex). repeat split; auto.
Qed.

(** X9. For a known user with an absolute home directory,
    [getShellConfigFile] names a file inside the home directory, by an
    absolute path; so the empty name, for which [setupUnixEnvironment]
    gives up, stands for an unknown user only.  It changes the tree only
    for fish (where it makes the directory of the file), never a file; and
    for a shell that is neither zsh, bash nor fish the file named exists,
    or is [.profile]. *)
Theorem shell_config_in_home (w : World) (t : string) (w1 : World) :
  getShellConfigFile e w = Done t w1 ->
  Filepath.IsAbs t = true
  /\ FS.is_prefix (Filepath.elements (HomeDir usr)) (Filepath.elements t) = true
  /\ (Strings.Contains (SHELL e) "zsh" = true
      \/ Strings.Contains (SHELL e) "bash" = true
      \/ Strings.Contains (SHELL e) "fish" = false -> fs w1 = fs w)
  /\ (forall q m d, FS.lookup q (fs w) = Some (FS.File m d) ->
                    FS.lookup q (fs w1) = Some (FS.File m d))
  /\ (Strings.Contains (SHELL e) "zsh" = false ->
      Strings.Contains (SHELL e) "bash" = false ->
      Strings.Contains (SHELL e) "fish" = false ->
      FS.exists_ (Filepath.elements t) (fs w) = true
      \/ t = Filepath.Join [HomeDir usr; ".profile"]).
Proof.
  intros H. destruct (shell_config_facts w t w1 H) as (_ & H1). exact H1.
Qed.

End ShellConfig.

(** The conditions of X9 are met on [Scenario.linux], whose shell is
    [/bin/sh] and whose user has a [.profile]. *)
Lemma shell_config_in_home_witness :
  let e := Scenario.linux in
  let w := Scenario.start Scenario.tree in
  user_Current (paths e) = Ok {| HomeDir := "/home/gopher" |}
  /\ (exists w1, getShellConfigFile e w = Done "/home/gopher/.profile" w1)
  /\ Filepath.IsAbs "/home/gopher/.profile" = true
  /\ fs (world_of (getShellConfigFile e w)) = fs w.
Proof.
  intros e w.
  assert (getShellConfigFile e w
          = Done "/home/gopher/.profile" (world_of (getShellConfigFile e w))) as H
    by reflexivity.
  split; [reflexivity|]. split; [eexists; exact H|].
  destruct (shell_config_in_home e {| HomeDir := "/home/gopher" |} eq_refl eq_refl
              w _ _ H) as (Habs & _ & Hfs & _).
  split; [exact Habs|]. apply Hfs. right. right. reflexivity.
Defined.

(** ** Writing to a file that is there *)

Lemma update_succeeds f p : forall n c o,
  p <> [] -> FS.lookup p n = Some c -> f (Some c) = Ok o ->
  exists n', FS.update f p n = Ok n'.
Proof.
  induction p as [|k p IH]; intros n c o Hne Hl Hf; [contradiction|].
  destruct n as [m0 d0|m0 es]; [discriminate Hl|].
  rewrite FSFacts.lookup_child in Hl. cbn [FS.update].
  destruct (FS.assoc k es) as [c0|] eqn:Ea; [|discriminate Hl].
  destruct p as [|k2 p2].
  - injection Hl as ->. rewrite Hf. destruct o; eauto.
  - destruct (IH c0 c o ltac:(discriminate) Hl Hf) as (c0' & ->). eauto.
Qed.

Lemma update_creates f p : forall n k m es c,
  FS.lookup p n = Some (FS.Dir m es) -> FS.assoc k es = None ->
  f None = Ok (Some c) ->
  exists n', FS.update f (p ++ [k]) n = Ok n'.
Proof.
  induction p as [|j p IH]; intros n k m es c Hl Ha Hf.
  - injection Hl as ->. cbn [app FS.update]. rewrite Ha, Hf. eauto.
  - destruct n as [m0 d0|m0 es0]; [discriminate Hl|].
    rewrite FSFacts.lookup_child in Hl. cbn [app FS.update].
    destruct (FS.assoc j es0) as [c0|] eqn:Ej; [|discriminate Hl].
    destruct (IH c0 k m es c Hl Ha Hf) as (c0' & Hu). rewrite Hu.
    destruct (p ++ [k]) eqn:E; [destruct p; discriminate E|]. eauto.
Qed.

Section Writing.

Variable e : Env.
Variable t : string.
Hypothesis Hroot : Filepath.elements t <> [].
Hypothesis Hwrite : fault e (OpWrite t) = false.

Lemma file_Write_ok n0 m d s w :
  holds t n0 m d (fs w) ->
  exists w',
    file_Write e t s w = Done None w'
    /\ holds t n0 m (d ++ s)%string (fs w')
    /\ deferred w' = deferred w.
Proof.
  intros [Hl Hf].
  destruct (update_succeeds
              (fun o => match o with
                        | Some (FS.File m0 d0) => Ok (Some (FS.File m0 (d0 ++ s)%string))
                        | Some (FS.Dir _ _) => Err FS.EISDIR
                        | None => Err FS.ENOENT
                        end) _ _ _ _ Hroot Hl eq_refl) as (n' & Hu).
  unfold file_Write. rewrite (sys_ok e _ _ _ _ w n' Hwrite Hu).
  eexists. split; [reflexivity|]. cbn [fs deferred]. split; [|reflexivity].
  split.
  - destruct (Frame.update_at _ _ _ _ Hu) as (o & Ho & ->).
    rewrite Hl in Ho. injection Ho as <-. reflexivity.
  - intros q H1 H2. rewrite <- (Hf q H1 H2). eapply Frame.update_frame; eauto.
Qed.

Lemma write_lines_ok lines : forall n0 m d w,
  holds t n0 m d (fs w) ->
  exists w',
    write_lines e t lines w = Done None w'
    /\ holds t n0 m (d ++ String.concat "" lines)%string (fs w')
    /\ deferred w' = deferred w.
Proof.
  induction lines as [|l lines IH]; intros n0 m d w Hh.
  - exists w. cbn. rewrite PathFacts.append_nil_r. auto.
  - destruct (file_Write_ok n0 m d l w Hh) as (w1 & E1 & H1 & D1).
    destruct (IH n0 m (d ++ l)%string w1 H1) as (w2 & E2 & H2 & D2).
    exists w2. cbn [write_lines]. rewrite (bind_Done _ _ _ _ _ E1).
    split; [exact E2|]. rewrite concat_nil_cons, <- PathFacts.append_assoc.
    split; [exact H2|congruence].
Qed.

Lemma os_ReadFile_ok m d w :
  fault e (OpReadFile t) = false ->
  FS.lookup (Filepath.elements t) (fs w) = Some (FS.File m d) ->
  os_ReadFile e t w
  = Done (Ok d) {| fs := fs w; trace := trace w ++ [EvSys (OpReadFile t)];
                   deferred := deferred w |}.
Proof.
  intros Hf Hl. unfold os_ReadFile, bind, emit, ret, get_fs. cbn [fs trace deferred].
  rewrite Hf. cbn [fs trace deferred]. unfold FS.readFile. rewrite Hl. reflexivity.
Qed.

Lemma os_OpenFile_append_ok n0 m d w :
  fault e (OpOpenFile t) = false ->
  holds t n0 m d (fs w) ->
  exists w',
    os_OpenFile_append e t w = Done None w'
    /\ holds t n0 m d (fs w') /\ deferred w' = deferred w.
Proof.
  intros Hfault [Hl Hf].
  destruct (update_succeeds
              (fun o => match o with
                        | Some (FS.File m0 d0) => Ok (Some (FS.File m0 (d0 ++ "")%string))
                        | Some (FS.Dir _ _) => Err FS.EISDIR
                        | None => Err FS.ENOENT
                        end) _ _ _ _ Hroot Hl eq_refl) as (n' & Hu).
  unfold os_OpenFile_append. rewrite (sys_ok e _ _ _ _ w n' Hfault Hu).
  eexists. split; [reflexivity|]. cbn [fs deferred]. split; [|reflexivity].
  split.
  - destruct (Frame.update_at _ _ _ _ Hu) as (o & Ho & ->).
    rewrite Hl in Ho. injection Ho as <-. rewrite PathFacts.append_nil_r. reflexivity.
  - intros q H1 H2. rewrite <- (Hf q H1 H2). eapply Frame.update_frame; eauto.
Qed.

End Writing.

Lemma Contains_app_r a b sub :
  Strings.Contains b sub = true -> Strings.Contains (a ++ b) sub = true.
Proof.
  intros H. induction a as [|c a IH]; [exact H|].
  cbn [String.append Strings.Contains]. rewrite IH.
  destruct (Strings.HasPrefix (String c (a ++ b)) sub); reflexivity.
Qed.

Lemma holds_refl t n m d :
  FS.lookup (Filepath.elements t) n = Some (FS.File m d) -> holds t n m d n.
Proof. intros H. split; auto. Qed.

(** X10. When the shell configuration file of a known user exists and
    does not contain [GOROOT=], and reading, opening and writing it do not
    fail, [setupUnixEnvironment] appends to it exactly the comment line and
    the three export lines, keeps what was in it and its mode, and changes
    nothing beside it; the file then contains [GOROOT=]. *)
Theorem shell_config_appended
  (e : Env) (usr : User) (goroot gopath : string) (w : World)
  (t : string) (w1 : World) (m : Z) (d : string) :
  user_Current (paths e) = Ok usr ->
  Filepath.IsAbs (HomeDir usr) = true ->
  getShellConfigFile e w = Done t w1 ->
  FS.lookup (Filepath.elements t) (fs w) = Some (FS.File m d) ->
  Strings.Contains d "GOROOT=" = false ->
  fault e (OpReadFile t) = false ->
  fault e (OpOpenFile t) = false ->
  fault e (OpWrite t) = false ->
  let added :=
    (added_by_getgo ++ "export GOROOT=" ++ goroot ++ nl
       ++ "export GOPATH=" ++ gopath ++ nl
       ++ "export PATH=$PATH:$GOPATH/bin:$GOROOT/bin" ++ nl)%string in
  exists w',
    setupUnixEnvironment e goroot gopath w = Done tt w'
    /\ holds t (fs w1) m (d ++ added)%string (fs w')
    /\ Strings.Contains (d ++ added)%string "GOROOT=" = true.
Proof.
  intros Husr Hhome Hget Hl Hno Hfr Hfo Hfw added.
  destruct (shell_config_facts e usr Husr Hhome w t w1 Hget)
    as (Hroot & Habs & _ & _ & Hkeep & _).
  specialize (Hkeep _ _ _ Hl).
  assert (String.eqb t "" = false) as Hne.
  { destruct t; [discriminate Habs|reflexivity]. }
  unfold setupUnixEnvironment. rewrite (bind_Done _ _ _ _ _ Hget). rewrite Hne.
  rewrite (bind_Done _ _ _ _ _ (os_Stat_IsNotExist_spec _ _)). cbn [fs].
  rewrite (not_exist_present _ _ _ Hkeep).
  erewrite bind_Done by reflexivity.
  erewrite bind_Done by (apply (os_ReadFile_ok e t m d); [exact Hfr|exact Hkeep]).
  cbv beta iota. rewrite Hno.
  match goal with
  | |- context [bind (os_OpenFile_append e t) _ ?w0] =>
      destruct (os_OpenFile_append_ok e t Hroot (fs w1) m d w0 Hfo
                  (holds_refl t (fs w1) m d Hkeep)) as (w2 & E2 & H2 & _)
  end.
  rewrite (bind_Done _ _ _ _ _ E2).
  destruct (write_lines_ok e t Hroot Hfw
              (added_by_getgo
                 :: map (fun x => (x ++ nl)%string)
                      [("export GOROOT=" ++ goroot)%string;
                       ("export GOPATH=" ++ gopath)%string;
                       "export PATH=$PATH:$GOPATH/bin:$GOROOT/bin"])
              (fs w1) m d w2 H2) as (w3 & E3 & H3 & _).
  rewrite (bind_Done _ _ _ _ _ E3).
  rewrite (bind_Done _ _ _ _ _ (print_spec _ _)). rewrite print_spec.
  eexists. split; [reflexivity|]. cbn [fs].
  assert (String.concat ""
            (added_by_getgo
               :: map (fun x => (x ++ nl)%string)
                    [("export GOROOT=" ++ goroot)%string;
                     ("export GOPATH=" ++ gopath)%string;
                     "export PATH=$PATH:$GOPATH/bin:$GOROOT/bin"])
          = added) as Hadded.
  { unfold added. cbn [map]. rewrite !concat_nil_cons.
    cbn [String.concat]. rewrite !PathFacts.append_assoc.
    rewrite PathFacts.append_nil_r. reflexivity. }
  rewrite Hadded in H3. split; [exact H3|].
  apply Contains_app_r. unfold added. apply Contains_app_r. reflexivity.
Qed.

(** The conditions of X10 are met on [Scenario.linux] by a [.profile]
    that sets only [PATH]. *)
Lemma shell_config_appended_witness :
  let e := Scenario.linux in
  let tree :=
    FS.Dir 493
      [("home", FS.Dir 493
          [("gopher", FS.Dir 493 [(".profile", FS.File 384 "export PATH=/bin")])])] in
  let w := Scenario.start tree in
  exists w',
    setupUnixEnvironment e "/opt/go/go1.23.1" "/home/gopher/go" w = Done tt w'
    /\ FS.lookup (Filepath.elements "/home/gopher/.profile") (fs w')
       = Some (FS.File 384
                 ("export PATH=/bin" ++ nl
                    ++ "# Go environment variables added by getgo" ++ nl
                    ++ "export GOROOT=/opt/go/go1.23.1" ++ nl
                    ++ "export GOPATH=/home/gopher/go" ++ nl
                    ++ "export PATH=$PATH:$GOPATH/bin:$GOROOT/bin" ++ nl)).
Proof.
  intros e tree w.
  destruct (shell_config_appended e {| HomeDir := "/home/gopher" |}
              "/opt/go/go1.23.1" "/home/gopher/go" w "/home/gopher/.profile"
              {| fs := tree; trace := [EvStat "/home/gopher/.profile"]; deferred := [] |}
              384 "export PATH=/bin" eq_refl eq_refl eq_refl eq_refl eq_refl
              eq_refl eq_refl eq_refl) as (w' & Hrun & [Hl _] & _).
  exists w'. split; [exact Hrun|]. exact Hl.
Defined.

(** ** The [.envrc] file of a directory *)

Section Envrc.

Variable e : Env.
Hypothesis Hnofault : forall op, fault e op = false.
Variables goroot gopath : string.
Variable p : string.
Hypothesis Habs : Filepath.IsAbs p = true.
Variable w : World.
Hypothesis Hdir : FS.is_dir (Filepath.elements p) (fs w) = true.

Local Notation "'target'" := (Filepath.Join [p; ".envrc"]).

Lemma target_elements : Filepath.elements target = Filepath.elements p ++ [".envrc"].
Proof. apply PathFacts.elements_Join; [exact Habs|reflexivity]. Qed.

Lemma target_nonroot : Filepath.elements target <> [].
Proof. rewrite target_elements. intros H. apply app_eq_nil in H as [_ H]. discriminate H. Qed.

Lemma target_dir : Filepath.elements (Filepath.Dir target) = Filepath.elements p.
Proof. apply PathFacts.elements_Dir_Join; [exact Habs|reflexivity]. Qed.

Lemma envrc_dir_made w0 :
  fs w0 = fs w ->
  os_MkdirAll e (Filepath.Dir target) 493 w0
  = Done None {| fs := fs w0;
                 trace := trace w0 ++ [EvSys (OpMkdirAll (Filepath.Dir target))];
                 deferred := deferred w0 |}.
Proof.
  intros Hfs. unfold os_MkdirAll. apply sys_ok; [apply Hnofault|].
  rewrite target_dir. unfold FS.is_dir in Hdir. rewrite Hfs.
  destruct (FS.lookup (Filepath.elements p) (fs w)) as [[m d|m es]|] eqn:E;
    try discriminate Hdir.
  eapply FSFacts.mkdirAll_existing. exact E.
Qed.

Lemma envrc_created w0 :
  fs w0 = fs w ->
  FS.lookup (Filepath.elements target) (fs w) = None ->
  exists w1,
    os_OpenFile_create e target 420 w0 = Done None w1
    /\ holds target (fs w) (masked e 420) "" (fs w1).
Proof.
  intros Hfs Hnone. unfold FS.is_dir in Hdir.
  destruct (FS.lookup (Filepath.elements p) (fs w)) as [[m d|m es]|] eqn:E;
    try discriminate Hdir.
  assert (FS.assoc ".envrc" es = None) as Ha.
  { rewrite target_elements, FSFacts.lookup_app, E in Hnone.
    cbn [FS.lookup] in Hnone. destruct (FS.assoc ".envrc" es); [discriminate Hnone|reflexivity]. }
  destruct (update_creates
              (fun o => match o with
                        | None => Ok (Some (FS.File (masked e 420) ""))
                        | Some (FS.File m0 d0) => Ok (Some (FS.File m0 d0))
                        | Some (FS.Dir _ _) => Err FS.EISDIR
                        end) _ (fs w) ".envrc" m es _ E Ha eq_refl) as (n' & Hu).
  rewrite <- target_elements in Hu.
  unfold os_OpenFile_create.
  erewrite sys_ok; [|apply Hnofault|rewrite Hfs; exact Hu].
  eexists. split; [reflexivity|]. cbn [fs]. split.
  - destruct (Frame.update_at _ _ _ _ Hu) as (o & Ho & ->).
    rewrite Hnone in Ho. injection Ho as <-. reflexivity.
  - intros q H1 H2. eapply Frame.update_frame; eauto.
Qed.

End Envrc.

Lemma envrc_lines_concat q goroot gopath :
  String.concat ""
    [added_by_getgo;
     ("export GOROOT=" ++ q ++ goroot ++ q ++ nl)%string;
     ("export GOPATH=" ++ q ++ gopath ++ q ++ nl)%string;
     ("export PATH=" ++ q ++ "$PATH:$GOPATH/bin:$GOROOT/bin" ++ q ++ nl)%string]
  = (added_by_getgo ++ ("export GOROOT=" ++ q ++ goroot ++ q ++ nl)
       ++ ("export GOPATH=" ++ q ++ gopath ++ q ++ nl)
       ++ ("export PATH=" ++ q ++ "$PATH:$GOPATH/bin:$GOROOT/bin" ++ q ++ nl))%string.
Proof. reflexivity. Qed.

Lemma envrc_run
  (e : Env) (envrcPath goroot gopath p : string) (w : World) :
  (forall wd, os_Getwd (paths e) = Ok wd -> Filepath.IsAbs wd = true) ->
  (forall op, fault e op = false) ->
  expandPath (paths e) envrcPath = Ok p ->
  FS.is_dir (Filepath.elements p) (fs w) = true ->
  let t := Filepath.Join [p; ".envrc"] in
  let q := if String.eqb (GOOS e) "windows" then dq else "" in
  let added :=
    (added_by_getgo ++ ("export GOROOT=" ++ q ++ goroot ++ q ++ nl)
       ++ ("export GOPATH=" ++ q ++ gopath ++ q ++ nl)
       ++ ("export PATH=" ++ q ++ "$PATH:$GOPATH/bin:$GOROOT/bin" ++ q ++ nl))%string in
  Strings.Contains added "GOROOT=" = true
  /\ (FS.lookup (Filepath.elements t) (fs w) = None ->
      exists w',
        setupEnvrcFile e envrcPath goroot gopath w = Done None w'
        /\ holds t (fs w) (masked e 420) added (fs w'))
  /\ (forall m d,
        FS.lookup (Filepath.elements t) (fs w) = Some (FS.File m d) ->
        Strings.Contains d "GOROOT=" = false ->
        let sep := if (0 <? Z.of_nat (String.length d)) && negb (Strings.HasSuffix d nl)
                   then nl else "" in
        exists w',
          setupEnvrcFile e envrcPath goroot gopath w = Done None w'
          /\ holds t (fs w) m (d ++ sep ++ added)%string (fs w')).
Proof.
  intros Hwd Hnofault Hexp Hdir t q added.
  pose proof (expandPath_IsAbs _ _ _ Hwd Hexp) as Habs.
  pose proof (target_nonroot p Habs) as Hroot. fold t in Hroot.
  split.
  { unfold added. apply Contains_app_r. destruct (String.eqb (GOOS e) "windows"); reflexivity. }
  split.
  - intros Hnone. unfold setupEnvrcFile. rewrite Hexp.
    rewrite (bind_Done _ _ _ _ _ (os_Stat_IsDir_spec _ _)). rewrite Hdir. fold t.
    erewrite bind_Done by (apply (envrc_dir_made e Hnofault p Habs w Hdir); reflexivity).
    cbv beta iota. fold t.
    rewrite (bind_Done _ _ _ _ _ (os_Stat_spec _ _)). cbn [fs].
    unfold FS.exists_. rewrite Hnone.
    erewrite bind_Done by reflexivity. cbv beta iota.
    match goal with
    | |- context [bind (bind (os_OpenFile_create e t 420) _) _ ?w0] =>
        destruct (envrc_created e Hnofault p Habs w Hdir w0 eq_refl Hnone)
          as (w1 & E1 & H1)
    end.
    fold t in E1, H1.
    erewrite bind_Done by (erewrite bind_Done by exact E1; reflexivity).
    cbv beta iota. fold q.
    match goal with
    | |- context [bind (write_lines e t ?lines) _ _] =>
        destruct (write_lines_ok e t Hroot (Hnofault _) lines (fs w) (masked e 420) ""
                    w1 H1) as (w2 & E2 & H2 & _)
    end.
    rewrite (bind_Done _ _ _ _ _ E2).
    rewrite (bind_Done _ _ _ _ _ (print_spec _ _)).
    eexists. split; [reflexivity|]. cbn [fs].
    rewrite envrc_lines_concat in H2. exact H2.
  - intros m d Hl Hno sep. unfold setupEnvrcFile. rewrite Hexp.
    rewrite (bind_Done _ _ _ _ _ (os_Stat_IsDir_spec _ _)). rewrite Hdir. fold t.
    erewrite bind_Done by (apply (envrc_dir_made e Hnofault p Habs w Hdir); reflexivity).
    cbv beta iota. fold t.
    rewrite (bind_Done _ _ _ _ _ (os_Stat_spec _ _)). cbn [fs].
    unfold FS.exists_. rewrite Hl.
    erewrite bind_Done
      by (erewrite bind_Done
            by (apply (os_ReadFile_ok e t m d); [apply Hnofault|exact Hl]);
          reflexivity).
    cbv beta iota. rewrite Hno. cbv beta iota.
    match goal with
    | |- context [bind (bind (os_OpenFile_append e t) _) _ ?w0] =>
        destruct (os_OpenFile_append_ok e t Hroot (fs w) m d w0 (Hnofault _)
                    (holds_refl t (fs w) m d Hl)) as (w1 & E1 & H1 & _)
    end.
    destruct H1 as [Hl1 Hf1].
    assert (exists w2,
              (if (0 <? Z.of_nat (String.length d)) && negb (Strings.HasSuffix d nl)
               then bind (file_Write e t nl)
                      (fun err => match err with
                                  | Some m0 =>
                                      ret (Some ("error writing to .envrc file: " ++ m0)%string)
                                  | None => ret None
                                  end)
               else ret None)
                {| fs := fs w1; trace := trace w1 ++ [EvSys (OpReadFile t)];
                   deferred := deferred w1 |} = Done None w2
              /\ holds t (fs w) m (d ++ sep)%string (fs w2)) as (w2 & E2 & H2).
    { unfold sep.
      destruct ((0 <? Z.of_nat (String.length d)) && negb (Strings.HasSuffix d nl)).
      - destruct (file_Write_ok e t Hroot (Hnofault _) (fs w) m d nl
                    {| fs := fs w1; trace := trace w1 ++ [EvSys (OpReadFile t)];
                       deferred := deferred w1 |} (conj Hl1 Hf1)) as (w2 & E & H & _).
        exists w2. rewrite (bind_Done _ _ _ _ _ E). split; [reflexivity|exact H].
      - eexists. split; [reflexivity|]. cbn [fs]. rewrite PathFacts.append_nil_r.
        split; assumption. }
    erewrite bind_Done
      by (erewrite bind_Done by exact E1; cbv beta iota;
          erewrite bind_Done
            by (apply (os_ReadFile_ok e t m d); [apply Hnofault|exact Hl1]);
          cbv beta iota; exact E2).
    cbv beta iota. fold q.
    match goal with
    | |- context [bind (write_lines e t ?lines) _ _] =>
        destruct (write_lines_ok e t Hroot (Hnofault _) lines (fs w) m (d ++ sep)%string
                    w2 H2) as (w3 & E3 & H3 & _)
    end.
    rewrite (bind_Done _ _ _ _ _ E3).
    rewrite (bind_Done _ _ _ _ _ (print_spec _ _)).
    eexists. split; [reflexivity|]. cbn [fs].
    rewrite envrc_lines_concat, PathFacts.append_assoc in H3. exact H3.
Qed.

(** X11. Given a path that leads to a directory, and system calls that do
    not fail, [setupEnvrcFile] writes the file [.envrc] of that directory:
    a file that is not there is created with mode 0644 less the mask and
    holds the comment line and the three export lines; a file that is there
    and does not contain [GOROOT=] keeps its content and its mode and gets
    the same lines appended, after a newline if its last line had none.
    The values are put in double quotes on Windows.  Nothing beside the
    file changes, and afterwards the file contains [GOROOT=]. *)
Theorem envrc_written
  (e : Env) (envrcPath goroot gopath p : string) (w : World) :
  (forall wd, os_Getwd (paths e) = Ok wd -> Filepath.IsAbs wd = true) ->
  (forall op, fault e op = false) ->
  expandPath (paths e) envrcPath = Ok p ->
  FS.is_dir (Filepath.elements p) (fs w) = true ->
  let t := Filepath.Join [p; ".envrc"] in
  let q := if String.eqb (GOOS e) "windows" then dq else "" in
  let added :=
    (added_by_getgo ++ ("export GOROOT=" ++ q ++ goroot ++ q ++ nl)
       ++ ("export GOPATH=" ++ q ++ gopath ++ q ++ nl)
       ++ ("export PATH=" ++ q ++ "$PATH:$GOPATH/bin:$GOROOT/bin" ++ q ++ nl))%string in
  Strings.Contains added "GOROOT=" = true
  /\ (FS.lookup (Filepath.elements t) (fs w) = None ->
      exists w',
        setupEnvrcFile e envrcPath goroot gopath w = Done None w'
        /\ holds t (fs w) (masked e 420) added (fs w'))
  /\ (forall m d,
        FS.lookup (Filepath.elements t) (fs w) = Some (FS.File m d) ->
        Strings.Contains d "GOROOT=" = false ->
        let sep := if (0 <? Z.of_nat (String.length d)) && negb (Strings.HasSuffix d nl)
                   then nl else "" in
        exists w',
          setupEnvrcFile e envrcPath goroot gopath w = Done None w'
          /\ holds t (fs w) m (d ++ sep ++ added)%string (fs w')).
Proof. exact (envrc_run e envrcPath goroot gopath p w). Qed.

(** The conditions of X11 are met on [Scenario.linux] by the directory
    [/opt], which has no [.envrc]. *)
Lemma envrc_written_witness :
  let e := Scenario.linux in
  let w := Scenario.start Scenario.tree in
  exists w',
    setupEnvrcFile e "/opt" "/opt/go/go1.23.1" "/home/gopher/go" w = Done None w'
    /\ FS.lookup (Filepath.elements "/opt/.envrc") (fs w')
       = Some (FS.File 420
                 (nl ++ "# Go environment variables added by getgo" ++ nl
                    ++ "export GOROOT=/opt/go/go1.23.1" ++ nl
                    ++ "export GOPATH=/home/gopher/go" ++ nl
                    ++ "export PATH=$PATH:$GOPATH/bin:$GOROOT/bin" ++ nl)).
Proof.
  intros e w.
  assert (forall wd, os_Getwd (paths e) = Ok wd -> Filepath.IsAbs wd = true) as Hwd.
  { intros wd H. injection H as <-. reflexivity. }
  destruct (envrc_written e "/opt" "/opt/go/go1.23.1" "/home/gopher/go" "/opt" w
              Hwd (fun _ => eq_refl) eq_refl eq_refl) as (_ & Hnew & _).
  destruct (Hnew eq_refl) as (w' & Hrun & [Hl _]).
  exists w'. split; [exact Hrun|exact Hl].
Defined.

(** A second run finds the assignment and leaves the tree as it is. *)
Lemma envrc_second_run e envrcPath goroot gopath p w m c :
  (forall op, fault e op = false) ->
  expandPath (paths e) envrcPath = Ok p ->
  Filepath.IsAbs p = true ->
  FS.lookup (Filepath.elements (Filepath.Join [p; ".envrc"])) (fs w)
  = Some (FS.File m c) ->
  Strings.Contains c "GOROOT=" = true ->
  exists w',
    setupEnvrcFile e envrcPath goroot gopath w = Done None w' /\ fs w' = fs w.
Proof.
  intros Hnofault Hexp Habs Hl Hc.
  assert (FS.is_dir (Filepath.elements p) (fs w) = true) as Hdir.
  { rewrite (target_elements p Habs) in Hl.
    destruct (lookup_below_dir (Filepath.elements p) [".envrc"] (fs w))
      as (m0 & k & es & c0 & Hp & _); [rewrite Hl; discriminate|discriminate|].
    unfold FS.is_dir. rewrite Hp. reflexivity. }
  set (t := Filepath.Join [p; ".envrc"]) in *.
  unfold setupEnvrcFile. rewrite Hexp.
  rewrite (bind_Done _ _ _ _ _ (os_Stat_IsDir_spec _ _)). rewrite Hdir. fold t.
  erewrite bind_Done by (apply (envrc_dir_made e Hnofault p Habs w Hdir); reflexivity).
  cbv beta iota. fold t.
  rewrite (bind_Done _ _ _ _ _ (os_Stat_spec _ _)). cbn [fs].
  unfold FS.exists_. rewrite Hl.
  erewrite bind_Done
    by (erewrite bind_Done
          by (apply (os_ReadFile_ok e t m c); [apply Hnofault|exact Hl]);
        reflexivity).
  cbv beta iota. rewrite Hc. cbv beta iota.
  rewrite (bind_Done _ _ _ _ _ (print_spec _ _)).
  rewrite (bind_Done _ _ _ _ _ (print_spec _ _)).
  eexists. split; reflexivity.
Qed.

(** X17. Writing the [.envrc] file of a directory twice is the same as
    writing it once: with system calls that do not fail, and a file that
    is not there or does not contain [GOROOT=], the first run of
    [setupEnvrcFile] succeeds and a second run, from the tree it leaves,
    succeeds as well and changes nothing. *)
Theorem envrc_idempotent
  (e : Env) (envrcPath goroot gopath p : string) (w : World) :
  (forall wd, os_Getwd (paths e) = Ok wd -> Filepath.IsAbs wd = true) ->
  (forall op, fault e op = false) ->
  expandPath (paths e) envrcPath = Ok p ->
  FS.is_dir (Filepath.elements p) (fs w) = true ->
  match FS.lookup (Filepath.elements (Filepath.Join [p; ".envrc"])) (fs w) with
  | None => True
  | Some (FS.File _ d) => Strings.Contains d "GOROOT=" = false
  | Some (FS.Dir _ _) => False
  end ->
  exists w' w'',
    setupEnvrcFile e envrcPath goroot gopath w = Done None w'
    /\ setupEnvrcFile e envrcPath goroot gopath w' = Done None w''
    /\ fs w'' = fs w'.
Proof.
  intros Hwd Hnofault Hexp Hdir Hfile.
  pose proof (expandPath_IsAbs _ _ _ Hwd Hexp) as Habs.
  destruct (envrc_run e envrcPath goroot gopath p w Hwd Hnofault Hexp Hdir)
    as (Hadded & Hnew & Hold).
  destruct (FS.lookup (Filepath.elements (Filepath.Join [p; ".envrc"])) (fs w))
    as [[m d|m es]|] eqn:Hl; [| contradiction |].
  - destruct (Hold m d eq_refl Hfile) as (w' & Hrun & [Hl' _]).
    destruct (envrc_second_run e envrcPath goroot gopath p w' _ _ Hnofault Hexp Habs Hl')
      as (w'' & Hrun2 & Hfs).
    { apply Contains_app_r, Contains_app_r. exact Hadded. }
    exists w', w''. auto.
  - destruct (Hnew eq_refl) as (w' & Hrun & [Hl' _]).
    destruct (envrc_second_run e envrcPath goroot gopath p w' _ _ Hnofault Hexp Habs Hl'
                Hadded) as (w'' & Hrun2 & Hfs).
    exists w', w''. auto.
Qed.

(** The conditions of X17 are met on [Scenario.linux] by the directory
    [/opt]. *)
Lemma envrc_idempotent_witness :
  let e := Scenario.linux in
  let w := Scenario.start Scenario.tree in
  exists w' w'',
    setupEnvrcFile e "/opt" "/opt/go/go1.23.1" "/home/gopher/go" w = Done None w'
    /\ setupEnvrcFile e "/opt" "/opt/go/go1.23.1" "/home/gopher/go" w' = Done None w''
    /\ fs w'' = fs w'.
Proof.
  intros e w.
  assert (forall wd, os_Getwd (paths e) = Ok wd -> Filepath.IsAbs wd = true) as Hwd.
  { intros wd H. injection H as <-. reflexivity. }
  apply (envrc_idempotent e "/opt" "/opt/go/go1.23.1" "/home/gopher/go" "/opt" w
           Hwd (fun _ => eq_refl) eq_refl eq_refl I).
Defined.

(** * Configuration and the command line *)

(** X12. [setupWindowsEnvironment] only runs PowerShell commands and
    prints: it never touches the tree.  It sets [GOROOT], then [GOPATH],
    then updates [PATH], and a command that fails is the last one run. *)
Theorem windows_setup_commands (e : Env) (goroot gopath : string) (w : World) :
  exists w' evs,
    setupWindowsEnvironment e goroot gopath w = Done tt w'
    /\ fs w' = fs w /\ deferred w' = deferred w
    /\ trace w' = trace w ++ evs
    /\ forallb (fun ev => match ev with EvPrint _ | EvExec _ => true | _ => false end)
         evs = true
    /\ execs evs
       = set_variable_command "GOROOT" goroot
           :: match powershell e (set_variable_command "GOROOT" goroot) with
              | Some _ => []
              | None =>
                  set_variable_command "GOPATH" gopath
                    :: match powershell e (set_variable_command "GOPATH" gopath) with
                       | Some _ => []
                       | None => [update_PATH_script]
                       end
              end.
Proof.
  unfold setupWindowsEnvironment, run_powershell, set_variable_command.
  unfold bind, print, emit, ret. cbn [fs trace deferred].
  destruct (powershell e _) as [m1|]; cbn [fs trace deferred];
    [|destruct (powershell e _) as [m2|]; cbn [fs trace deferred];
      [|destruct (powershell e update_PATH_script) as [m3|]]];
    eexists _, _; (split; [reflexivity|]); cbn [fs trace deferred];
    (split; [reflexivity|]); (split; [reflexivity|]);
    (split; [rewrite <- !app_assoc; reflexivity|]); split; reflexivity.
Qed.

(** X13. The configuration phase never ends the process: whatever fails
    while the shell configuration or the [.envrc] file is written is
    reported on the console and the phase returns.  It sends no request,
    reads no archive, changes no mode, and renames and removes nothing,
    and it leaves the deferred calls alone. *)
Theorem configure_never_exits
  (e : Env) (fl : Flags) (goroot gopath : string) (w : World) :
  exists w' evs,
    configure e fl goroot gopath w = Done tt w'
    /\ trace w' = trace w ++ evs
    /\ forallb (fun ev => negb (is_install_work ev)) evs = true
    /\ deferred w' = deferred w.
Proof.
  destruct (configure_returns e fl goroot gopath w) as ([] & w' & H).
  destruct (configure_quiet e fl goroot gopath w) as (evs & Ht & Hq & Hd).
  rewrite H in Ht, Hd. cbn [world_of] in Ht, Hd.
  exists w', evs. repeat split; assumption.
Qed.

(** X14. Asked for help, [main] prints the usage text and ends with code
    0, whatever else is on the command line; given more than two
    arguments (and no help flag), it prints the same text and ends with
    code 1.  In both cases it does nothing else: no request, no call on
    the tree. *)
Theorem usage_and_nothing_else (e : Env) (fl : Flags) (w : World) :
  exists lines,
    let shown := {| fs := fs w; trace := trace w ++ map EvPrint lines;
                    deferred := deferred w |} in
    printUsage w = Done tt shown
    /\ hd "" lines = "Usage: getgo [options] [version] [install_path]"
    /\ (isHelpRequested fl = true -> main e fl w = (0, shown))
    /\ (isHelpRequested fl = false -> (2 < List.length (args fl))%nat ->
        main e fl w = (1, shown)).
Proof.
  eexists. cbv zeta. split; [unfold printUsage; apply print_all_spec|].
  split; [reflexivity|]. split.
  - intros Hh. unfold main, main_body, main_setup. rewrite Hh.
    unfold bind at 1 2 3 4 5 6 7 8. unfold bind at 1.
    unfold printUsage. rewrite print_all_spec. reflexivity.
  - intros Hh Hlen. unfold main, main_body, main_setup. rewrite Hh.
    destruct (args fl) as [|a0 [|a1 [|a2 rest]]]; cbn [List.length] in Hlen; try lia.
    unfold bind at 1 2 3 4 5 6 7 8. unfold ret at 1.
    unfold bind at 1.
    unfold printUsage. rewrite print_all_spec. reflexivity.
Qed.

(** The help flag alone is such a command line. *)
Lemma usage_and_nothing_else_witness :
  let fl := {| helpFlag := false; hFlag := true; unattendedFlag := true; uFlag := false;
               gopathFlag := ""; gopathShortFlag := ""; envrcFlag := ".";
               args := ["1.23.1"; "/opt/go"] |} in
  isHelpRequested fl = true
  /\ fst (main Scenario.linux fl (Scenario.start Scenario.tree)) = 0
  /\ fs (snd (main Scenario.linux fl (Scenario.start Scenario.tree))) = Scenario.tree.
Proof.
  intros fl. split; [reflexivity|].
  destruct (usage_and_nothing_else Scenario.linux fl (Scenario.start Scenario.tree))
    as (lines & _ & _ & Hhelp & _).
  rewrite (Hhelp eq_refl). split; reflexivity.
Defined.

(** X15. What the command line means, once the setup phase of [main] has
    gone through.  A version given by name is used as it stands (a leading
    [go] is not removed, as it is from the latest version).  The
    installation directory is the expansion of the second argument, and of
    [.] when there is none.  The GOPATH is the expansion of the value of
    [--path], else of [-p], and [go] under the home directory when both
    are empty. *)
Theorem command_line_meaning (e : Env) (fl : Flags) (w : World) (s : Setup) (w1 : World) :
  main_setup e fl w = Done s w1 ->
  (wants_latest fl = false -> version s = versionArg fl)
  /\ expandPath (paths e) (match args fl with
                           | [_; ip] => ip
                           | _ => "."
                           end) = Ok (installPath s)
  /\ (let custom := if String.eqb (gopathFlag fl) "" then gopathShortFlag fl
                    else gopathFlag fl in
      if String.eqb custom "" then
        exists usr, user_Current (paths e) = Ok usr
                    /\ gopath s = Filepath.Join [HomeDir usr; "go"]
      else expandPath (paths e) custom = Ok (gopath s)).
Proof.
  unfold main_setup. intros H.
  apply bind_inv in H. destruct H as ([] & w2 & Hhelp & H). clear Hhelp.
  apply bind_inv in H. destruct H as (va & w3 & Hargs & H).
  assert (Hva : fst va = versionArg fl
                /\ snd va = match args fl with [_; ip] => ip | _ => "." end).
  { unfold versionArg. destruct (args fl) as [|a0 [|a1 [|a2 rest]]];
      try (injection Hargs as <- _; split; reflexivity).
    unfold bind in Hargs. unfold printUsage in Hargs.
    rewrite print_all_spec in Hargs. discriminate. }
  destruct Hva as (Hver & Hip'). clear Hargs.
  apply bind_inv in H. destruct H as (ip & w4 & Hip & H).
  apply expandPathOrExit_inv in Hip. destruct Hip as [Hip _].
  apply bind_inv in H. destruct H as (v & w5 & Hv & H).
  assert (wants_latest fl = false -> v = versionArg fl) as Hv'.
  { unfold wants_latest. rewrite <- Hver. intros Hw. rewrite Hw in Hv.
    injection Hv as <- _. reflexivity. }
  clear Hv.
  apply bind_inv in H. destruct H as (vd & w6 & _ & H).
  apply bind_inv in H. destruct H as (usr & w7 & Husr & H).
  assert (user_Current (paths e) = Ok usr) as Husr'.
  { destruct (user_Current (paths e)).
    - injection Husr as <- _. reflexivity.
    - unfold bind, print, emit, os_Exit in Husr. discriminate. }
  clear Husr.
  apply bind_inv in H. destruct H as (gp & w8 & Hgp & H).
  injection H as <- _. cbn [version installPath gopath].
  split; [exact Hv'|]. split; [rewrite <- Hip'; exact Hip|].
  cbv zeta. change (if String.eqb (gopathFlag fl) "" then gopathShortFlag fl
                    else gopathFlag fl) with (getCustomGOPATH fl).
  destruct (String.eqb (getCustomGOPATH fl) "").
  - injection Hgp as <- _. eauto.
  - apply expandPathOrExit_inv in Hgp. tauto.
Qed.

(** The condition of X15 is met by a command line that gives the version
    with a leading [go], an installation directory under the home
    directory and a GOPATH with [-p]. *)
Lemma command_line_meaning_witness :
  let fl := {| helpFlag := false; hFlag := false; unattendedFlag := false;
               uFlag := false; gopathFlag := ""; gopathShortFlag := "~/gopath";
               envrcFlag := ""; args := ["go1.23.1"; "~/sdk"] |} in
  exists s w1,
    main_setup Scenario.linux fl (Scenario.start Scenario.tree) = Done s w1
    /\ version s = "go1.23.1"
    /\ installPath s = "/home/gopher/sdk"
    /\ gopath s = "/home/gopher/gopath"
    /\ versionedGoDir s = "/home/gopher/sdk/gogo1.23.1".
Proof.
  intros fl.
  assert (exists s w1, main_setup Scenario.linux fl (Scenario.start Scenario.tree)
                       = Done s w1 /\ versionedGoDir s = "/home/gopher/sdk/gogo1.23.1")
    as (s & w1 & H & Hvd) by (eexists _, _; split; reflexivity).
  exists s, w1. split; [exact H|].
  destruct (command_line_meaning Scenario.linux fl _ s w1 H) as (Hv & Hip & Hgp).
  split; [exact (Hv eq_refl)|]. cbv zeta in Hgp. cbn in Hip, Hgp.
  split; [|split; [|exact Hvd]].
  - assert (expandPath demoPathEnv "~/sdk" = Ok "/home/gopher/sdk") as E by reflexivity.
    change (paths Scenario.linux) with demoPathEnv in Hip. congruence.
  - assert (expandPath demoPathEnv "~/gopath" = Ok "/home/gopher/gopath") as E by reflexivity.
    change (paths Scenario.linux) with demoPathEnv in Hgp. congruence.
Defined.

Lemma getLatestGoVersion_error e w m :
  http_Get e versions_url = Err m ->
  getLatestGoVersion e w
  = Done (Err m) {| fs := fs w; trace := trace w ++ [EvHttp "GET" versions_url];
                    deferred := deferred w |}.
Proof.
  intros H. unfold getLatestGoVersion.
  rewrite (bind_Done _ _ _ _ _ (http_request_spec e "GET" _ w)).
  cbn [String.eqb Ascii.eqb Bool.eqb andb]. fold versions_url. rewrite H. reflexivity.
Qed.

(** X16. When the latest version is asked for and the request for the
    list of versions fails, [main] reports the error and ends with code 1
    having touched nothing on the tree: the one request is all it did. *)
Theorem latest_lookup_failure (e : Env) (fl : Flags) (w : World) (ip m : string) :
  isHelpRequested fl = false ->
  (List.length (args fl) <= 2)%nat ->
  wants_latest fl = true ->
  expandPath (paths e) (match args fl with [_; p] => p | _ => "." end) = Ok ip ->
  http_Get e versions_url = Err m ->
  main e fl w
  = (1, {| fs := fs w;
           trace := trace w ++ [EvPrint "Fetching latest Go version...";
                                EvHttp "GET" versions_url;
                                EvPrint ("Error getting latest Go version: " ++ m)];
           deferred := deferred w |}).
Proof.
  intros Hh Hlen Hlatest Hip Hget.
  assert (main_setup e fl w
          = Exited 1 {| fs := fs w;
                        trace := trace w ++ [EvPrint "Fetching latest Go version...";
                                             EvHttp "GET" versions_url;
                                             EvPrint ("Error getting latest Go version: "
                                                        ++ m)];
                        deferred := deferred w |}) as Hsetup.
  { unfold main_setup. rewrite Hh.
    unfold wants_latest, versionArg in Hlatest.
    destruct (args fl) as [|a0 [|a1 [|a2 rest]]]; cbn [List.length] in Hlen; try lia;
      unfold bind at 1 2; unfold ret at 1 2; cbn [fst snd];
      rewrite (bind_Done _ _ _ _ _ (expandPathOrExit_ok e _ _ _ Hip));
      cbn [String.eqb Ascii.eqb Bool.eqb andb orb] in Hlatest |- *;
      try rewrite Hlatest;
      unfold bind at 1 2; rewrite print_spec;
      unfold bind at 1; rewrite (getLatestGoVersion_error e _ m Hget);
      unfold bind, print, emit, os_Exit; cbn [fs trace deferred];
      rewrite <- !app_assoc; reflexivity. }
  unfold main, main_body. rewrite (bind_Exited _ _ _ _ _ Hsetup). reflexivity.
Qed.

(** The conditions of X16 are met by [getgo latest /opt/go] with a server
    that cannot be reached. *)
Lemma latest_lookup_failure_witness :
  let e := Scenario.machine "linux" 18 Scenario.no_fault
             (Err "dial tcp: no route to host") (Err "dial tcp: no route to host")
             (Ok Scenario.go_tar) (Err "zip: not a valid zip file") in
  let fl := Scenario.flags ["latest"; "/opt/go"] in
  fst (main e fl (Scenario.start Scenario.tree)) = 1
  /\ fs (snd (main e fl (Scenario.start Scenario.tree))) = Scenario.tree.
Proof.
  intros e fl.
  rewrite (latest_lookup_failure e fl (Scenario.start Scenario.tree) "/opt/go"
             "dial tcp: no route to host" eq_refl (le_n 2) eq_refl eq_refl eq_refl).
  split; reflexivity.
Defined.

(** * What a completed installation leaves behind *)

(** A removal of all below [p] that fails had nothing to remove. *)
Lemma removeAll_failed p : forall n x,
  FS.removeAll p n = Err x -> p <> [] -> FS.lookup p n = None.
Proof.
  induction p as [|k p IH]; intros n x H Hne; [contradiction|].
  destruct n as [m0 d0|m0 es]; [reflexivity|].
  cbn [FS.removeAll] in H. rewrite FSFacts.lookup_child.
  destruct p as [|k2 p2]; [discriminate|].
  destruct (FS.assoc k es) as [c|]; [|reflexivity].
  destruct (FS.removeAll (k2 :: p2) c) as [c'|y] eqn:E; [discriminate|].
  apply (IH _ _ E). discriminate.
Qed.

(** No update goes through a file. *)
Lemma update_through_file f q : forall r n n' m d,
  FS.lookup q n = Some (FS.File m d) -> FS.update f (q ++ r) n = Ok n' -> r = [].
Proof.
  induction q as [|k q IH]; intros r n n' m d Hl Hu.
  - cbn [FS.lookup] in Hl. injection Hl as ->. cbn [app] in Hu.
    destruct r; [reflexivity|discriminate].
  - destruct n as [m0 d0|m0 es]; [discriminate|].
    rewrite FSFacts.lookup_child in Hl. cbn [app FS.update] in Hu.
    destruct (FS.assoc k es) as [c|] eqn:Ea; [|discriminate].
    destruct (q ++ r) as [|k2 p2] eqn:Eq.
    + apply app_eq_nil in Eq. tauto.
    + destruct (FS.update f (k2 :: p2) c) as [c'|x] eqn:Eu; [|discriminate].
      rewrite <- Eq in Eu. exact (IH _ _ _ _ _ Hl Eu).
Qed.

(** A rename keeps the files that are neither moved nor replaced. *)
Lemma rename_keeps_file a b n n' q m d :
  FS.rename a b n = Ok n' -> FS.lookup q n = Some (FS.File m d) ->
  FS.is_prefix a q = false -> FS.is_prefix b q = false ->
  FS.lookup q n' = Some (FS.File m d).
Proof.
  unfold FS.rename. intros H Hq Haq Hbq.
  destruct (FS.lookup a n) as [src|] eqn:Ea; [|discriminate].
  destruct (FS.is_prefix a b).
  { destruct (FS.is_prefix b a); [|discriminate]. injection H as <-. exact Hq. }
  match type of H with
  | match ?c with Ok _ => _ | Err _ => _ end = _ => destruct c; [|discriminate]
  end.
  destruct (FS.removeAll a n) as [n1|x] eqn:Er; [|discriminate].
  assert (FS.is_prefix q a = false) as Hqa.
  { destruct (FS.is_prefix q a) eqn:E; [exfalso|reflexivity].
    apply FSFacts.is_prefix_app in E as [r ->].
    rewrite FSFacts.lookup_app, Hq in Ea.
    destruct r as [|k r]; [|discriminate].
    rewrite app_nil_r, FSFacts.is_prefix_refl in Haq. discriminate. }
  assert (FS.lookup q n1 = Some (FS.File m d)) as Hq1.
  { rewrite <- Hq. eapply Frame.removeAll_frame; eauto. }
  assert (FS.is_prefix q b = false) as Hqb.
  { destruct (FS.is_prefix q b) eqn:E; [exfalso|reflexivity].
    apply FSFacts.is_prefix_app in E as [r ->].
    rewrite (update_through_file _ _ _ _ _ _ _ Hq1 H) in Hbq.
    rewrite app_nil_r, FSFacts.is_prefix_refl in Hbq. discriminate. }
  rewrite <- Hq1. eapply Frame.update_frame; eauto.
Qed.

(** Removing a file succeeds and leaves nothing at its path. *)
Lemma remove_file p n m d :
  p <> [] -> FS.lookup p n = Some (FS.File m d) ->
  exists n', FS.remove p n = Ok n' /\ FS.lookup p n' = None.
Proof.
  intros Hne Hl. unfold FS.remove.
  destruct (update_succeeds
              (fun o => match o with
                        | None => Err FS.ENOENT
                        | Some (FS.Dir _ (_ :: _)) => Err FS.ENOTEMPTY
                        | Some _ => Ok None
                        end) p n _ None Hne Hl eq_refl) as [n' Hu].
  exists n'. split; [exact Hu|].
  destruct (Frame.update_at _ _ _ _ Hu) as (o & Hf & Ho).
  rewrite Hl in Hf. injection Hf as <-. exact Ho.
Qed.

(** A call that the environment lets through does what the tree allows. *)
Lemma sys_nofault e op name p f w :
  fault e op = false ->
  sys e op name p f w
  = Done (match f (fs w) with Ok _ => None | Err x => Some (path_error name p x) end)
      {| fs := match f (fs w) with Ok n' => n' | Err _ => fs w end;
         trace := trace w ++ [EvSys op]; deferred := deferred w |}.
Proof.
  intros Hf. unfold sys, bind, emit, ret, get_fs, put_fs. cbn [fs trace deferred].
  rewrite Hf. cbn [fs trace deferred]. destruct (f (fs w)); reflexivity.
Qed.

Lemma os_Open_inv e p w0 r wa :
  os_Open e p w0 = Done r wa ->
  fs wa = fs w0
  /\ forall d, r = Ok d ->
       exists m, FS.lookup (Filepath.elements p) (fs w0) = Some (FS.File m d).
Proof.
  unfold os_Open, bind, emit, ret, get_fs. cbn [fs trace deferred].
  destruct (fault e (OpOpen p)).
  { intros H. injection H as <- <-. split; [reflexivity|discriminate]. }
  cbn [fs]. unfold FS.readFile.
  destruct (FS.lookup (Filepath.elements p) (fs w0)) as [[m d0|m es]|];
    intros H; injection H as <- <-; (split; [reflexivity|]); intros d Hd;
    try discriminate.
  injection Hd as <-. eauto.
Qed.

Lemma ends_in_returns {A} (P : FS.node -> Prop) (m : M A) Qd Qe w :
  returns m -> preserves P m -> P (fs w) ->
  (forall a w', m w = Done a w' -> P (fs w') -> deferred w' = deferred w ->
                (exists evs, trace w' = trace w ++ evs) -> Qd a w') ->
  ends_in Qd Qe (m w).
Proof.
  intros Hr Hp HP Hd. destruct (Hp w HP) as (H1 & H2 & H3).
  destruct (Hr w) as (a & w' & E). rewrite E in *. simpl in *. auto.
Qed.

Section Cleanup.

Variable e : Env.
Hypothesis Husual : usual e.
Hypothesis Hcontained : contained e.
Variable fl : Flags.
Variable s : Setup.
Variables w w1 : World.
Hypothesis Hsetup : main_setup e fl w = Done s w1.
Hypothesis Hversion : Filepath.has_sep (version s) = false.

Local Notation "'Vdir'" := (Filepath.elements (versionedGoDir s)).
Local Notation "'Idir'" := (Filepath.elements (installPath s)).
Local Notation "'Apath'" := (Filepath.elements (archivePath_of e s)).
Local Notation "'Tdir' r" := (Filepath.elements (tempdir_name e r))
  (at level 10, r at level 9).

Lemma archive_nonroot : Apath <> [].
Proof.
  rewrite (elements_archive e Husual fl s w w1 Hsetup Hversion).
  intros H. apply app_eq_nil in H as [_ H]. discriminate.
Qed.

Lemma archive_not_tempname r : ("getgo-extract" ++ r)%string <> archive_name s.
Proof. unfold archive_name. cbn [String.append]. intros H. discriminate. Qed.

Lemma archive_outside_tempdir r :
  In r (temp_names e) -> FS.is_prefix (Tdir r) Apath = false.
Proof.
  intros Hin. destruct (FS.is_prefix (Tdir r) Apath) eqn:E; [exfalso|reflexivity].
  rewrite (elements_archive e Husual fl s w w1 Hsetup Hversion) in E.
  rewrite (elements_tempdir e Husual r Hin) in E.
  apply is_prefix_snoc_inv in E; [|apply archive_not_tempname].
  rewrite is_prefix_snoc_false in E. discriminate.
Qed.

Lemma tempdir_nonroot r : In r (temp_names e) -> Tdir r <> [].
Proof.
  intros Hin. rewrite (elements_tempdir e Husual r Hin).
  intros H. apply app_eq_nil in H as [_ H]. discriminate.
Qed.

Lemma entry_not_archive r name :
  In r (temp_names e) ->
  FS.is_prefix (Tdir r) (Filepath.elements (Filepath.Join [tempdir_name e r; name])) = true ->
  Filepath.elements (Filepath.Join [tempdir_name e r; name]) <> Apath.
Proof.
  intros Hin Hp Heq. rewrite Heq in Hp.
  rewrite (archive_outside_tempdir r Hin) in Hp. discriminate.
Qed.

(** An extraction that succeeded has read the archive, a file. *)
Lemma extraction_reads T w0 wx :
  extraction e s T w0 = Done None wx ->
  exists m d, FS.lookup Apath (fs w0) = Some (FS.File m d).
Proof.
  unfold extraction.
  destruct (String.eqb (osName s) "windows"); [unfold unzip|unfold untargz];
    intros H; apply bind_inv in H as (r & wa & Ho & Hk);
    destruct (os_Open_inv _ _ _ _ _ Ho) as [_ Hd];
    (destruct r as [d|m]; [|discriminate Hk]);
    destruct (Hd d eq_refl) as [m Hm]; eauto.
Qed.

(** The extraction of a contained archive leaves the archive as it is. *)
Lemma extraction_keeps_archive r w0 wx err m d :
  In r (temp_names e) ->
  extraction e s (tempdir_name e r) w0 = Done err wx ->
  FS.lookup Apath (fs w0) = Some (FS.File m d) ->
  FS.lookup Apath (fs wx) = Some (FS.File m d).
Proof.
  intros Hin H Hl. destruct (Hcontained r Hin) as [Htar Hzip].
  unfold extraction in H.
  destruct (String.eqb (osName s) "windows"); [unfold unzip in H|unfold untargz in H];
    apply bind_inv in H as (res & wa & Ho & Hk);
    destruct (os_Open_inv _ _ _ _ _ Ho) as [Hfs _]; rewrite <- Hfs in Hl;
    (destruct res as [bytes|x]; [|injection Hk as _ <-; exact Hl]).
  - destruct (zip_Reader e bytes) as [files|x] eqn:Er; [|injection Hk as _ <-; exact Hl].
    eapply unzip_loop_keeps_file; [exact Hk| |exact Hl].
    apply Forall_forall. intros f Hf _.
    apply entry_not_archive; [exact Hin|]. eapply Hzip; eauto.
  - destruct (targz_Reader e bytes) as [ts|x] eqn:Er; [|injection Hk as _ <-; exact Hl].
    eapply untargz_loop_keeps_file; [exact Hk| |exact Hl].
    apply Forall_forall. intros h Hh _.
    apply entry_not_archive; [exact Hin|]. eapply Htar; eauto.
Qed.

Lemma extracted_outside_archive r :
  In r (temp_names e) ->
  FS.is_prefix (Filepath.elements (Filepath.Join [tempdir_name e r; "go"])) Apath = false.
Proof.
  intros Hin.
  destruct (FS.is_prefix (Filepath.elements (Filepath.Join [tempdir_name e r; "go"])) Apath)
    eqn:E; [exfalso|reflexivity].
  rewrite (elements_extracted e Husual r Hin) in E.
  assert (FS.is_prefix (Tdir r) Apath = true) as H.
  { eapply Frame.is_prefix_trans; [|exact E]. apply FSFacts.is_prefix_app_true. }
  rewrite (archive_outside_tempdir r Hin) in H. discriminate.
Qed.

(** What a promotion that returned has done, and the code of one that
    did not. *)
Lemma promote_result r wx :
  beside e s r -> absent s (fs wx) ->
  ends_in
    (fun v w' =>
       v = versionedGoDir s
       /\ FS.lookup Vdir (fs w') <> None
       /\ deferred w' = deferred wx
       /\ (exists evs, trace w' = trace wx ++ evs)
       /\ forall q m d,
            FS.lookup q (fs wx) = Some (FS.File m d) ->
            FS.is_prefix (Filepath.elements (Filepath.Join [tempdir_name e r; "go"])) q
            = false ->
            FS.is_prefix Vdir q = false ->
            FS.lookup q (fs w') = Some (FS.File m d))
    (fun c _ => c = 1)
    (main_promote e s (tempdir_name e r) wx).
Proof.
  intros Hb Ha.
  destruct (main_setup_spec e fl w s w1 Hsetup)
    as (_ & _ & _ & _ & _ & _ & _ & _ & Hvd & _).
  unfold main_promote. apply ends_in_bind.
  rewrite (expandPathOrExit_ok e _ wx _ Hvd). cbn [ends_in].
  apply ends_in_bind. rewrite os_Stat_spec. cbn [ends_in fs].
  unfold FS.exists_. rewrite Ha.
  apply ends_in_bind. cbn [ret ends_in].
  apply ends_in_bind. unfold os_MkdirAll. apply ends_in_sys; cbn [fs trace deferred].
  2:{ intros m. cbn [ends_in]. unfold bind, print, emit, os_Exit. cbn [ends_in]. reflexivity. }
  intros n1 _ Hmk. cbn [ends_in].
  apply ends_in_bind. unfold os_Rename. apply ends_in_sys; cbn [fs trace deferred].
  2:{ intros m. cbn [ends_in]. unfold bind, print, emit, os_Exit. cbn [ends_in]. reflexivity. }
  intros n2 _ Hrn. cbn [ends_in ret fs trace deferred].
  pose proof (Frame.rename_moved _ _ _ _ Hrn) as Hmv.
  pose proof (rename_source _ _ _ _ Hrn) as Hsrc.
  split; [reflexivity|]. split; [rewrite Hmv; exact Hsrc|].
  split; [reflexivity|]. split.
  - repeat rewrite <- app_assoc. eexists. reflexivity.
  - intros q m d Hq Hgo Hv.
    eapply rename_keeps_file; [exact Hrn| |exact Hgo|exact Hv].
    eapply FSFacts.mkdirAll_file; [exact Hmk|exact Hq].
Qed.

Hypothesis Hquiet : isUnattendedMode fl = false.
Hypothesis Hnoenvrc : envrcFlag fl = "".

(** What an installation that returned has left, and the code of one that
    did not. *)
Lemma install_result w2 :
  absent s (fs w2) -> deferred w2 = [] ->
  ends_in
    (fun _ w' =>
       exists r w0 wx,
         beside e s r
         /\ (exists evs, trace w0 = trace w2 ++ evs)
         /\ extraction e s (tempdir_name e r) w0 = Done None wx
         /\ (exists evs, trace w' = trace wx ++ evs)
         /\ FS.lookup Vdir (fs w') <> None
         /\ (fault e (OpRemove (archivePath_of e s)) = false ->
             FS.lookup Apath (fs w') = None)
         /\ deferred w' = [DeferRemoveAll (tempdir_name e r)])
    (fun c _ => c = 1)
    (main_install e fl s w2).
Proof.
  intros Ha Hd. unfold main_install.
  apply ends_in_bind. unfold os_MkdirAll at 1. apply ends_in_sys; cbn [fs trace deferred].
  2:{ intros m. cbn [ends_in]. unfold bind, print, emit, os_Exit. cbn [ends_in]. reflexivity. }
  intros n1 _ Hmk. cbn [ends_in].
  pose proof (install_dir_made e Husual fl s w w1 Hsetup Hversion _ _ _ Hmk Ha) as Hr1.
  apply ends_in_print.
  apply ends_in_bind.
  eapply ends_in_returns;
    [apply returns_download
    |apply preserves_download; apply (archive_file_ok e Husual fl s w w1 Hsetup Hversion)
    |exact Hr1|].
  intros err w3 _ [Ha3 Hi3] Hd3 Ht3. cbn [fs trace deferred] in Hd3, Ht3.
  destruct err as [m|].
  { cbn [ends_in].
    destruct (Strings.Contains m "404");
      unfold bind, print, emit, os_Exit; cbn [ends_in]; reflexivity. }
  apply ends_in_print. apply ends_in_print.
  apply ends_in_bind. unfold os_MkdirTemp.
  eapply ends_in_weaken;
    [apply (mkdirTemp_outcome e Husual fl s w w1 Hsetup Hversion);
       [apply incl_refl|split; [exact Ha3|exact Hi3]]
    | |intros c w' []].
  cbn [fs trace deferred]. intros res w4 (Ha4 & Hd4 & Ht4 & Hres).
  destruct res as [T|m].
  2:{ cbn [ends_in]. unfold bind, print, emit, os_Exit. cbn [ends_in]. reflexivity. }
  destruct Hres as (r & -> & Hb).
  pose proof Hb as (Hin & HTV & HVT).
  cbn [ends_in]. apply ends_in_bind. cbn [defer_ ends_in].
  apply ends_in_bind.
  change (if String.eqb (osName s) "windows"
          then unzip e (archivePath_of e s) (tempdir_name e r)
          else untargz e (archivePath_of e s) (tempdir_name e r))
    with (extraction e s (tempdir_name e r)).
  eapply ends_in_returns;
    [apply returns_extraction
    |eapply extraction_keeps_absent; eassumption
    |exact Ha4|].
  intros err wx Hex Hax Hdx Htx. cbn [fs trace deferred] in Hdx, Htx.
  destruct err as [m|].
  { cbn [ends_in]. unfold bind, print, emit, os_Exit. cbn [ends_in]. reflexivity. }
  destruct (extraction_reads _ _ _ Hex) as (ma & da & Harch0).
  pose proof (extraction_keeps_archive r _ _ _ _ _ Hin Hex Harch0) as Harch.
  apply ends_in_bind.
  eapply ends_in_weaken; [apply (promote_result r wx Hb Hax)| |intros c w' H; exact H].
  intros v w5 (-> & Hne5 & Hd5 & Ht5 & Hkeep).
  specialize (Hkeep _ _ _ Harch (extracted_outside_archive r Hin)
                (versioned_not_above_archive e Husual fl s w w1 Hsetup Hversion r Hb)).
  apply ends_in_bind. unfold os_Remove.
  assert (forall n6 evs6,
            FS.lookup Vdir n6 <> None ->
            (fault e (OpRemove (archivePath_of e s)) = false -> FS.lookup Apath n6 = None) ->
            ends_in
              (fun _ w' =>
                 exists r0 w0 wx0,
                   beside e s r0
                   /\ (exists evs, trace w0 = trace w2 ++ evs)
                   /\ extraction e s (tempdir_name e r0) w0 = Done None wx0
                   /\ (exists evs, trace w' = trace wx0 ++ evs)
                   /\ FS.lookup Vdir (fs w') <> None
                   /\ (fault e (OpRemove (archivePath_of e s)) = false ->
                       FS.lookup Apath (fs w') = None)
                   /\ deferred w' = [DeferRemoveAll (tempdir_name e r0)])
              (fun c _ => c = 1)
              (bind (print ("Go " ++ version s ++ " has been successfully installed to "
                              ++ versionedGoDir s))
                 (fun _ => configure e fl (versionedGoDir s) (gopath s))
                 {| fs := n6; trace := trace w5 ++ evs6; deferred := deferred w5 |}))
    as Hend.
  { intros n6 evs6 Hv6 Ha6. apply ends_in_print. cbn [fs trace deferred].
    destruct (configure_prints e fl (versionedGoDir s) (gopath s)
                {| fs := n6; trace := (trace w5 ++ evs6) ++
                     [EvPrint ("Go " ++ version s
                                 ++ " has been successfully installed to "
                                 ++ versionedGoDir s)];
                   deferred := deferred w5 |} Hquiet Hnoenvrc) as (evs & ->).
    cbn [ends_in fs trace deferred].
    refine (ex_intro _ r (ex_intro _ _ (ex_intro _ wx
              (conj Hb (conj _ (conj Hex _)))))).
    - cbn [trace]. destruct Ht4 as [evs4 ->], Ht3 as [evs3 ->].
      repeat rewrite <- app_assoc. eexists. reflexivity.
    - split; [|split; [exact Hv6|split; [exact Ha6|]]].
      + destruct Ht5 as [evs5 ->]. repeat rewrite <- app_assoc. eexists. reflexivity.
      + rewrite Hd5, Hdx, Hd4, Hd3, Hd. reflexivity. }
  destruct (remove_file Apath (fs w5) ma da archive_nonroot Hkeep) as (n6 & Hrm & Hgone).
  destruct (fault e (OpRemove (archivePath_of e s))) eqn:Hf.
  - apply ends_in_sys; cbn [fs trace deferred].
    + intros n' Hf'. rewrite Hf in Hf'. discriminate.
    + intros m. cbn [ends_in]. apply Hend; [exact Hne5|discriminate].
  - rewrite (sys_nofault e _ _ _ _ _ Hf). rewrite Hrm. cbn [ends_in].
    apply Hend; [|intros _; exact Hgone].
    rewrite (remove_frame _ _ _ _ Hrm Hne5
               (versioned_not_above_archive e Husual fl s w w1 Hsetup Hversion r Hb)).
    exact Hne5.
Qed.

End Cleanup.

(** X18. A completed installation cleans up after itself.  In a usual
    environment, for archives whose entries stay inside the extraction
    directory and a run with neither [-u] nor [--envrc] that finds no
    versioned directory and ends with code 0: the versioned directory is
    there; the downloaded archive is gone, unless its removal was made to
    fail; and the directory the archive was extracted into is gone, unless
    its removal was made to fail. *)
Theorem completed_install_cleans_up
  (e : Env) (fl : Flags) (w : World) (s : Setup) (w1 w' : World) :
  usual e -> contained e ->
  main_setup e fl w = Done s w1 ->
  Filepath.has_sep (version s) = false ->
  isUnattendedMode fl = false -> envrcFlag fl = "" ->
  deferred w = [] ->
  FS.exists_ (Filepath.elements (versionedGoDir s)) (fs w) = false ->
  main e fl w = (0, w') ->
  exists r w0 wx,
    In r (temp_names e)
    /\ (exists evs, trace w0 = trace w ++ evs)
    /\ extraction e s (tempdir_name e r) w0 = Done None wx
    /\ (exists evs, trace w' = trace wx ++ evs)
    /\ FS.lookup (Filepath.elements (versionedGoDir s)) (fs w') <> None
    /\ (fault e (OpRemove (archivePath_of e s)) = false ->
        FS.lookup (Filepath.elements (archivePath_of e s)) (fs w') = None)
    /\ (fault e (OpRemoveAll (tempdir_name e r)) = false ->
        FS.lookup (Filepath.elements (tempdir_name e r)) (fs w') = None).
Proof.
  intros Husual Hcontained Hsetup Hversion Hquiet Hnoenvrc Hdef Hex.
  destruct (main_setup_spec e fl w s w1 Hsetup) as (Hfs & Hd1 & (evs1 & Ht1 & _) & _).
  unfold main, main_body.
  rewrite (bind_Done _ _ _ _ _ Hsetup).
  rewrite (bind_Done _ _ _ _ _ (os_Stat_spec _ _)).
  rewrite <- Hfs in Hex. rewrite Hex.
  pose proof (install_result e Husual Hcontained fl s w w1 Hsetup Hversion
                Hquiet Hnoenvrc
                {| fs := fs w1; trace := trace w1 ++ [EvStat (versionedGoDir s)];
                   deferred := deferred w1 |}) as Hout.
  cbn [fs trace deferred] in Hout.
  assert (absent s (fs w1)) as Ha.
  { apply exists_false. exact Hex. }
  specialize (Hout Ha (eq_trans Hd1 Hdef)).
  destruct (main_install e fl s _) as [u w2|c w2]; cbn [ends_in] in Hout.
  2:{ rewrite Hout. intros H. discriminate H. }
  destruct Hout as (r & w0 & wx & Hb & Ht0 & Hextr & Htx & Hv & Harch & Hd2).
  destruct Hb as (Hin & HTV & HVT).
  rewrite Hd2. cbn [run_deferred run_deferred_call]. unfold os_RemoveAll.
  assert (exists evs, trace w0 = trace w ++ evs) as Ht0'.
  { destruct Ht0 as [evs0 ->]. rewrite Ht1.
    repeat rewrite <- app_assoc. eexists. reflexivity. }
  destruct (fault e (OpRemoveAll (tempdir_name e r))) eqn:Hf.
  - destruct (sys_spec e (OpRemoveAll (tempdir_name e r)) "unlinkat" (tempdir_name e r)
                (FS.removeAll (Filepath.elements (tempdir_name e r))) w2)
      as (res & n' & Hsys & [(_ & Hf' & _)|(_ & ->)]); [congruence|].
    unfold bind. rewrite Hsys. cbn [ret].
    intros H. injection H as <-. exists r, w0, wx. cbn [fs trace].
    repeat (split; [assumption|]).
    split; [|split; [exact Hv|split; [exact Harch|intros Hx; congruence]]].
    destruct Htx as [evsx ->]. repeat rewrite <- app_assoc. eexists. reflexivity.
  - unfold bind. rewrite (sys_nofault e _ _ _ _ _ Hf). cbn [ret].
    intros H. injection H as <-. exists r, w0, wx. cbn [fs trace].
    repeat (split; [assumption|]).
    split; [destruct Htx as [evsx ->]; repeat rewrite <- app_assoc; eexists; reflexivity|].
    destruct (FS.removeAll (Filepath.elements (tempdir_name e r)) (fs w2))
      as [n'|x] eqn:Hrm.
    + split; [|split].
      * rewrite (Frame.removeAll_frame _ _ _ _ Hrm HVT HTV). exact Hv.
      * intros Hfa. eapply Frame.removeAll_absent; [exact Hrm|exact (Harch Hfa)].
      * intros _. eapply Frame.removeAll_gone. exact Hrm.
    + split; [exact Hv|]. split; [exact Harch|].
      intros _. apply (removeAll_failed _ _ _ Hrm).
      apply (tempdir_nonroot e Husual r Hin).
Qed.

(** The conditions of X18 are met by the installation of Go 1.23.1 to
    [/opt/go] on [Scenario.linux]. *)
Lemma completed_install_cleans_up_witness :
  let e := Scenario.linux in
  let fl := Scenario.flags ["1.23.1"; "/opt/go"] in
  let w := Scenario.start Scenario.tree in
  let s := Scenario.setup "1.23.1" "/opt/go" in
  let w' := snd (main e fl w) in
  (usual e /\ contained e /\ main_setup e fl w = Done s w
   /\ Filepath.has_sep (version s) = false
   /\ isUnattendedMode fl = false /\ envrcFlag fl = "" /\ deferred w = []
   /\ FS.exists_ (Filepath.elements (versionedGoDir s)) (fs w) = false
   /\ main e fl w = (0, w'))
  /\ exists r w0 wx,
       In r (temp_names e)
       /\ (exists evs, trace w0 = trace w ++ evs)
       /\ extraction e s (tempdir_name e r) w0 = Done None wx
       /\ (exists evs, trace w' = trace wx ++ evs)
       /\ FS.lookup (Filepath.elements (versionedGoDir s)) (fs w') <> None
       /\ (fault e (OpRemove (archivePath_of e s)) = false ->
           FS.lookup (Filepath.elements (archivePath_of e s)) (fs w') = None)
       /\ (fault e (OpRemoveAll (tempdir_name e r)) = false ->
           FS.lookup (Filepath.elements (tempdir_name e r)) (fs w') = None).
Proof.
  intros e fl w s w'.
  assert (usual e) as Hu by (apply usual_machine; reflexivity).
  pose proof contained_linux as Hc.
  assert (main e fl w = (0, w')) as Hrun by (vm_compute; reflexivity).
  split.
  - split; [exact Hu|]. split; [exact Hc|]. repeat split; try reflexivity.
  - apply (completed_install_cleans_up e fl w s w w' Hu Hc eq_refl eq_refl eq_refl eq_refl
             eq_refl eq_refl Hrun).
Defined.

(** * Every bar of a download shows more than the one before *)

(** One read of a reader whose last percentage is not ahead of the bytes
    read: a bar it prints shows more than the last one. *)
Lemma progressReader_Read_strict c pr ch :
  0 < totalBytes pr <= Float64.MaxInt64 ->
  0 <= readBytes pr ->
  readBytes pr + chunk_len ch <= totalBytes pr ->
  lastPercentage pr <= percentage_of c (readBytes pr) (totalBytes pr) ->
  exists pr' out,
    progressReader_Read c pr ch = (pr', out)
    /\ totalBytes pr' = totalBytes pr
    /\ readBytes pr' = readBytes pr + chunk_len ch
    /\ lastPercentage pr' <= percentage_of c (readBytes pr') (totalBytes pr')
    /\ ((out = [] /\ lastPercentage pr' = lastPercentage pr)
        \/ (out = [renderProgressBar (lastPercentage pr')]
            /\ lastPercentage pr < lastPercentage pr' <= 100)).
Proof.
  intros Ht H0 Hsum Hlast. pose proof (chunk_len_nonneg ch) as Hn.
  destruct (percentage_of_mono c (readBytes pr) (readBytes pr + chunk_len ch)
              (totalBytes pr)) as (_ & Hmono & _); try lia.
  unfold progressReader_Read. fold (chunk_len ch).
  cbn [totalBytes readBytes lastPercentage lastUpdateTime].
  assert (Hw : wrap64 (readBytes pr + chunk_len ch) = readBytes pr + chunk_len ch).
  { apply wrap64_small. unfold Float64.MaxInt64 in Ht. lia. }
  rewrite Hw.
  destruct (100 * Millisecond <? t_since ch - lastUpdateTime pr).
  - destruct (negb (percentage_of c (readBytes pr + chunk_len ch) (totalBytes pr)
                    =? lastPercentage pr)
              && (percentage_of c (readBytes pr + chunk_len ch) (totalBytes pr) <=? 100))
      eqn:E.
    + apply andb_true_iff in E as [Hne Hle].
      apply negb_true_iff, Z.eqb_neq in Hne. apply Z.leb_le in Hle.
      eexists _, _. split; [reflexivity|].
      cbn [totalBytes readBytes lastPercentage].
      repeat split; try lia. right. split; [reflexivity|lia].
    + eexists _, _. split; [reflexivity|].
      cbn [totalBytes readBytes lastPercentage].
      repeat split; try lia. left. split; reflexivity.
  - eexists _, _. split; [reflexivity|].
    cbn [totalBytes readBytes lastPercentage].
    repeat split; try lia. left. split; reflexivity.
Qed.

(** Numbers that rise strictly within [lo+1 .. hi] are at most [hi - lo]. *)
Lemma rising_length ps : forall lo hi,
  StronglySorted Z.lt ps -> Forall (fun p => lo < p <= hi) ps ->
  Z.of_nat (List.length ps) <= Z.max 0 (hi - lo).
Proof.
  induction ps as [|p ps IH]; intros lo hi Hs Hb; [simpl; lia|].
  inversion Hs as [|? ? Hs' Hall]; subst. inversion Hb as [|? ? Hp Hrest]; subst.
  assert (Forall (fun q => p < q <= hi) ps) as Hb'.
  { rewrite Forall_forall in *. intros q Hq.
    specialize (Hall q Hq). specialize (Hrest q Hq). lia. }
  specialize (IH p hi Hs' Hb'). cbn [List.length]. lia.
Qed.

Lemma rising_app ps1 ps2 mid :
  StronglySorted Z.lt ps1 -> StronglySorted Z.lt ps2 ->
  Forall (fun p => p <= mid) ps1 -> Forall (fun p => mid < p) ps2 ->
  StronglySorted Z.lt (ps1 ++ ps2).
Proof.
  intros Hs1 Hs2 Hb1 Hb2.
  induction ps1 as [|p ps1 IHp]; [exact Hs2|].
  simpl. inversion Hs1 as [|? ? Hs1' Hall]; subst.
  inversion Hb1 as [|? ? Hp Hrest]; subst.
  constructor; [apply IHp; assumption|].
  apply Forall_app. split; [assumption|].
  eapply Forall_impl; [|exact Hb2]. cbn. intros a Ha. lia.
Qed.

Section Strict.

Variable e : Env.
Variable out : string.

Let pct (pr : progressReader) : Z :=
  percentage_of (conversion e) (readBytes pr) (totalBytes pr).

(** The write of a round prints nothing. *)
Lemma write_round (d : string) w1 :
  exists ew w2,
    (if 0 <? Z.of_nat (String.length d) then file_Write e out d else ret None) w1
    = Done ew w2
    /\ exists evw, trace w2 = trace w1 ++ evw /\ prints evw = [].
Proof.
  destruct (0 <? Z.of_nat (String.length d)).
  - unfold file_Write.
    destruct (sys_spec e (OpWrite out) "write" out
                (FS.append d (Filepath.elements out)) w1) as (r & n' & -> & _).
    eexists _, _. split; [reflexivity|]. eexists. split; reflexivity.
  - exists None, w1. split; [reflexivity|]. exists []. rewrite app_nil_r. auto.
Qed.

(** The bars of the rounds of a copy rise strictly, from above the last
    percentage of the reader before to the last percentage after. *)
Lemma copy_rounds_strict cs : forall pr w k,
  0 < totalBytes pr <= Float64.MaxInt64 ->
  0 <= readBytes pr ->
  0 <= k ->
  readBytes pr + sum_len cs + k <= totalBytes pr ->
  lastPercentage pr <= pct pr ->
  exists pr' err w' evs ps,
    copy_rounds e out pr cs w = Done (pr', err) w'
    /\ trace w' = trace w ++ evs
    /\ prints evs = map renderProgressBar ps
    /\ StronglySorted Z.lt ps
    /\ Forall (fun p => lastPercentage pr < p <= lastPercentage pr') ps
    /\ lastPercentage pr <= lastPercentage pr'
    /\ lastPercentage pr' <= pct pr'
    /\ totalBytes pr' = totalBytes pr
    /\ readBytes pr <= readBytes pr'
    /\ readBytes pr' + k <= totalBytes pr.
Proof.
  induction cs as [|ch cs IH]; intros pr w k Ht H0 Hk Hsum Hlast.
  - exists pr, None, w, [], []. simpl. unfold ret.
    rewrite app_nil_r. unfold sum_len in Hsum. simpl in Hsum.
    repeat split; try constructor; lia.
  - unfold sum_len in Hsum. simpl in Hsum. fold (sum_len cs) in Hsum.
    pose proof (sum_len_nonneg cs) as Hcs.
    pose proof (chunk_len_nonneg ch) as Hch.
    destruct (progressReader_Read_strict (conversion e) pr ch Ht H0 ltac:(lia) Hlast)
      as (pr1 & printed & ERead & Ht1 & Hr1 & Hlast1 & Hout).
    fold (pct pr1) in Hlast1.
    cbn [copy_rounds]. rewrite ERead.
    erewrite bind_Done by apply print_all_spec.
    set (w1 := {| fs := fs w; trace := trace w ++ map EvPrint printed;
                  deferred := deferred w |}).
    destruct (write_round (data ch) w1) as (ew & w2 & EW & evw & Htr2 & Hpw).
    erewrite bind_Done by exact EW.
    assert (Hps1 : exists ps1, printed = map renderProgressBar ps1
               /\ Forall (fun p => lastPercentage pr < p <= lastPercentage pr1) ps1
               /\ StronglySorted Z.lt ps1
               /\ lastPercentage pr <= lastPercentage pr1).
    { destruct Hout as [[-> Hsame]|[-> Hrise]].
      - exists []. repeat constructor. lia.
      - exists [lastPercentage pr1].
        split; [reflexivity|]. split; [|split; [repeat constructor|lia]].
        constructor; [lia|constructor]. }
    destruct Hps1 as (ps1 & -> & Hb1 & Hs1 & Hle1).
    destruct ew as [m|].
    + exists pr1, (Some m), w2, (map EvPrint (map renderProgressBar ps1) ++ evw), ps1.
      unfold ret. split; [reflexivity|].
      rewrite Htr2. unfold w1. cbn [trace]. rewrite app_assoc.
      split; [reflexivity|].
      rewrite prints_app, prints_map_EvPrint, Hpw, app_nil_r.
      repeat split; try assumption; lia.
    + destruct (IH pr1 w2 k ltac:(lia) ltac:(lia) Hk ltac:(lia) Hlast1)
        as (pr' & err & w' & evs & ps & ERest & Htr & Hpr & Hsorted & Hb & Hle & Hlast'
            & Ht' & Hr' & Hk').
      exists pr', err, w', (map EvPrint (map renderProgressBar ps1) ++ evw ++ evs),
        (ps1 ++ ps).
      split; [exact ERest|].
      split.
      { rewrite Htr, Htr2. unfold w1. cbn [trace]. rewrite <- !app_assoc. reflexivity. }
      split.
      { rewrite !prints_app, prints_map_EvPrint, Hpw, Hpr, map_app. reflexivity. }
      split.
      { apply (rising_app ps1 ps (lastPercentage pr1)); try assumption.
        - eapply Forall_impl; [|exact Hb1]. cbn. intros a Ha. lia.
        - eapply Forall_impl; [|exact Hb]. cbn. intros a Ha. lia. }
      split.
      { apply Forall_app. split.
        - eapply Forall_impl; [|exact Hb1]. cbn. intros a Ha. lia.
        - eapply Forall_impl; [|exact Hb]. cbn. intros a Ha. lia. }
      repeat split; try assumption; lia.
Qed.

(** A whole copy through the progress reader: its bars rise strictly
    within 1..100. *)
Lemma io_Copy_progress_strict total t0 b w :
  0 < total <= Float64.MaxInt64 ->
  body_length b <= total ->
  exists err w' evs ps,
    io_Copy_progress e out (newProgressReader total t0) b w = Done err w'
    /\ trace w' = trace w ++ evs
    /\ prints evs = map renderProgressBar ps
    /\ StronglySorted Z.lt ps
    /\ Forall (fun p => 0 < p <= 100) ps.
Proof.
  intros Ht Hlen. unfold body_length in Hlen. fold (sum_len (reads b)) in Hlen.
  pose proof (chunk_len_nonneg (final b)) as Hfin.
  set (pr0 := newProgressReader total t0).
  assert (Hlo : 0 <= percentage_of (conversion e) 0 total).
  { destruct (percentage_of_mono (conversion e) 0 0 total) as (Ha & _ & _); lia. }
  destruct (copy_rounds_strict (reads b) pr0 w (chunk_len (final b)))
    as (pr1 & err & w1 & evs1 & ps1 & ECopy & Htr1 & Hpr1 & Hs1 & Hb1 & Hle1 & Hlast1
        & Ht1 & Hr1 & Hk1);
    try (unfold pct; cbn [pr0 newProgressReader totalBytes readBytes lastPercentage]; lia).
  cbn [pr0 newProgressReader totalBytes readBytes lastPercentage] in *.
  assert (Hhi : lastPercentage pr1 <= 100).
  { unfold pct in Hlast1. rewrite Ht1 in Hlast1.
    destruct (percentage_of_mono (conversion e) 0 (readBytes pr1) total)
      as (_ & _ & Hc); lia. }
  unfold io_Copy_progress. erewrite bind_Done by exact ECopy.
  destruct err as [m|].
  - exists (Some m), w1, evs1, ps1. unfold ret.
    repeat split; try assumption.
    eapply Forall_impl; [|exact Hb1]. cbn. intros a Ha. lia.
  - destruct (progressReader_Read_strict (conversion e) pr1 (final b))
      as (pr2 & printed & ERead & Ht2 & Hr2 & Hlast2 & Hout); try lia.
    { exact Hlast1. }
    rewrite ERead. erewrite bind_Done by apply print_all_spec.
    set (w2 := {| fs := fs w1; trace := trace w1 ++ map EvPrint printed;
                  deferred := deferred w1 |}).
    assert (Hps2 : exists ps2, printed = map renderProgressBar ps2
               /\ Forall (fun p => lastPercentage pr1 < p <= 100) ps2
               /\ StronglySorted Z.lt ps2).
    { destruct Hout as [[-> Hsame]|[-> Hrise]].
      - exists []. repeat constructor.
      - exists [lastPercentage pr2].
        split; [reflexivity|]. split; [|repeat constructor].
        constructor; [lia|constructor]. }
    destruct Hps2 as (ps2 & -> & Hb2 & Hs2).
    destruct (write_round (data (final b)) w2) as (ew & w3 & EW & evw & Htr3 & Hpw).
    erewrite bind_Done by exact EW.
    exists (match ew with Some m => Some m | None => goerr_to_error (final_err b) end),
      w3, (evs1 ++ map EvPrint (map renderProgressBar ps2) ++ evw), (ps1 ++ ps2).
    split; [destruct ew; reflexivity|].
    split.
    { rewrite Htr3. unfold w2. cbn [trace]. rewrite Htr1, <- !app_assoc. reflexivity. }
    split.
    { rewrite !prints_app, prints_map_EvPrint, Hpw, Hpr1, map_app, app_nil_r.
      reflexivity. }
    split.
    { apply (rising_app ps1 ps2 (lastPercentage pr1)); try assumption.
      - eapply Forall_impl; [|exact Hb1]. cbn. intros a Ha. lia.
      - eapply Forall_impl; [|exact Hb2]. cbn. intros a Ha. lia. }
    apply Forall_app. split.
    + eapply Forall_impl; [|exact Hb1]. cbn. intros a Ha. lia.
    + eapply Forall_impl; [|exact Hb2]. cbn. intros a Ha. lia.
Qed.

End Strict.

(** X19. Whatever the reads of the body, as long as they deliver no more
    bytes than the announced positive total: every bar that a read of
    [downloadFileWithProgress] prints shows a percentage within 1..100
    that is higher than that of the bar before, and one closing bar with
    100 follows them once the file was opened (and so whenever the
    download succeeds).  A download thus prints 101 bars at most, however
    many reads it takes. *)
Theorem bars_rise_strictly (e : Env) (url path : string) (w : World) :
  (forall hr r, http_Head e url = Ok hr -> http_Get e url = Ok r ->
     0 < ContentLength hr <= Float64.MaxInt64
     /\ body_length (body r) <= ContentLength hr) ->
  exists err w' evs ps,
    downloadFileWithProgress e url path w = Done err w'
    /\ trace w' = trace w ++ evs
    /\ StronglySorted Z.lt ps
    /\ Forall (fun p => 0 < p <= 100) ps
    /\ (prints evs = [] \/ prints evs = map renderProgressBar (ps ++ [100]))
    /\ (err = None -> prints evs = map renderProgressBar (ps ++ [100]))
    /\ (List.length (prints evs) <= 101)%nat.
Proof.
  intros Hbody. unfold downloadFileWithProgress.
  rewrite (bind_Done _ _ _ _ _ (http_request_spec e "HEAD" url w)).
  cbn [String.eqb Ascii.eqb Bool.eqb andb].
  destruct (http_Head e url) as [hr|m] eqn:EH.
  2:{ eexists (Some m), _, [EvHttp "HEAD" url], []. unfold ret. cbn.
      repeat split; try constructor; try congruence; try lia. }
  destruct (negb (StatusCode hr =? StatusOK)).
  { eexists (Some _), _, [EvHttp "HEAD" url], []. unfold ret. cbn.
    repeat split; try constructor; try congruence; try lia. }
  erewrite bind_Done by apply http_request_spec.
  cbn [String.eqb Ascii.eqb Bool.eqb andb].
  destruct (http_Get e url) as [r|m] eqn:EG.
  2:{ eexists (Some m), _, [EvHttp "HEAD" url; EvHttp "GET" url], []. unfold ret.
      cbn [trace]. rewrite <- app_assoc. cbn.
      repeat split; try constructor; try congruence; try lia. }
  destruct (negb (StatusCode r =? StatusOK)).
  { eexists (Some _), _, [EvHttp "HEAD" url; EvHttp "GET" url], []. unfold ret.
    cbn [trace]. rewrite <- app_assoc. cbn.
    repeat split; try constructor; try congruence; try lia. }
  destruct (Hbody hr r eq_refl eq_refl) as [Htot Hlen].
  unfold os_Create.
  match goal with |- context [sys e ?op ?nm ?p ?f] =>
    destruct (sys_spec e op nm p f
                {| fs := fs w;
                   trace := (trace w ++ [EvHttp "HEAD" url]) ++ [EvHttp "GET" url];
                   deferred := deferred w |}) as (oerr & n1 & ECreate & _)
  end.
  erewrite bind_Done by exact ECreate.
  destruct oerr as [m|].
  { eexists (Some m), _,
      [EvHttp "HEAD" url; EvHttp "GET" url; EvSys (OpCreate path)], [].
    unfold ret. cbn [trace]. rewrite <- !app_assoc. cbn.
    repeat split; try constructor; try congruence; try lia. }
  match goal with |- context [io_Copy_progress e path ?pr ?b] =>
    destruct (io_Copy_progress_strict e path (ContentLength hr) (t_open (body r))
                (body r)
                {| fs := n1;
                   trace := ((trace w ++ [EvHttp "HEAD" url]) ++ [EvHttp "GET" url])
                              ++ [EvSys (OpCreate path)];
                   deferred := deferred w |} Htot Hlen)
      as (err & w1 & evs & ps & ECopy & Htr & Hpr & Hs & Hb)
  end.
  erewrite bind_Done by exact ECopy.
  erewrite bind_Done by apply print_spec.
  eexists err, _,
    ([EvHttp "HEAD" url; EvHttp "GET" url; EvSys (OpCreate path)] ++ evs
       ++ [EvPrint (renderProgressBar 100)]),
    ps.
  unfold ret. split; [reflexivity|].
  split.
  { cbn [trace]. rewrite Htr. cbn [trace]. rewrite <- !app_assoc. reflexivity. }
  split; [exact Hs|]. split; [exact Hb|].
  assert (prints ([EvHttp "HEAD" url; EvHttp "GET" url; EvSys (OpCreate path)] ++ evs
                    ++ [EvPrint (renderProgressBar 100)])
          = map renderProgressBar (ps ++ [100])) as Hp.
  { rewrite !prints_app, Hpr, map_app. reflexivity. }
  split; [right; exact Hp|]. split; [intros _; exact Hp|].
  rewrite Hp, length_map, length_app. cbn [List.length].
  pose proof (rising_length ps 0 100 Hs Hb). lia.
Qed.

(** The condition of X19 is met by the download of the archive on
    [Scenario.linux], whose body comes in several reads. *)
Lemma bars_rise_strictly_witness :
  let e := Scenario.linux in
  let url := downloadURL (Scenario.setup "1.23.1" "/opt/go") in
  let w := Scenario.start Scenario.tree in
  (forall hr r, http_Head e url = Ok hr -> http_Get e url = Ok r ->
     0 < ContentLength hr <= Float64.MaxInt64
     /\ body_length (body r) <= ContentLength hr)
  /\ exists err w' evs ps,
       downloadFileWithProgress e url "/tmp/go.tar.gz" w = Done err w'
       /\ trace w' = trace w ++ evs
       /\ StronglySorted Z.lt ps
       /\ Forall (fun p => 0 < p <= 100) ps
       /\ (prints evs = [] \/ prints evs = map renderProgressBar (ps ++ [100]))
       /\ (err = None -> prints evs = map renderProgressBar (ps ++ [100]))
       /\ (List.length (prints evs) <= 101)%nat.
Proof.
  intros e url w.
  assert (forall hr r, http_Head e url = Ok hr -> http_Get e url = Ok r ->
            0 < ContentLength hr <= Float64.MaxInt64
            /\ body_length (body r) <= ContentLength hr) as Hbody.
  { intros hr r Hh Hg. injection Hh as <-. injection Hg as <-.
    vm_compute. repeat split; discriminate. }
  split; [exact Hbody|].
  exact (bars_rise_strictly e url "/tmp/go.tar.gz" w Hbody).
Defined.
